(** * agent-docs: the ingestion scripts, embedded and verified

    A shallow embedding of the documentation-ingestion scripts
    ([scripts/ingestion/ingest_birdeye.py], [ingest_birdeye_simple.py],
    [ingest_solana.py], [ingest_solana_comprehensive.py]) together with the
    properties their specification states about them (Part II), and
    further properties of the scripts and of the queries of
    [validate_migration.py] on the documents table (Part III).

    Conventions of the embedding.
    - A Python [str] is the list of its code points; white space is
      that of Unicode, as [str.isspace] and the class [\s] of [re] have
      it; the case functions are the ASCII restriction of Python's.
    - A value decoded from JSON is a [json]; the operations the scripts
      apply to such values ([in], [[]], [.get], [.items], ...) return an
      [outcome], with the exception Python raises on a value of the wrong
      type.
    - Code that talks to the outside world (HTTP, the embedding API, the
      file system, Postgres) runs in the monad [M], whose state is the
      trace of the external calls and the database, and whose answers come
      from a [World] of oracles.  What [json.dumps], [str()] and the clock
      return are oracles too.
    - A [pathlib.Path] is the list of its components; the scripts turn
      paths into strings and back between discovery and processing, which
      the embedding leaves out.
    - The [documents] and [document_sources] tables are lists of rows; the
      columns no script names and their defaults are parameters
      ([Platform], [pg_env]): the DDL is not part of the scripts.
    - The title and category heuristics of the Solana scripts are
      parameters ([Heuristics]) of the scripts: no property of a run
      depends on what they compute.  Those of them that are modelled
      ([SolanaDocProcessor], [ComprehensiveSolanaProcessor]) have their
      own properties in Part III. *)

From Stdlib Require Import List Ascii String NArith ZArith Lia Bool Arith.
From stdpp Require Import base tactics option list.
Import ListNotations.

Set Default Proof Using "Type".
Set Warnings "-register-all".
Set Warnings "-notation-overridden".
Local Open Scope nat_scope.
Local Open Scope list_scope.

(* ================================================================== *)
(** * Part I. The model                                                *)
(* ================================================================== *)

(** ** Python strings *)

(** A character is a Unicode code point, a number; [chr_of] is the code
    point of an ASCII character. *)
Definition chr : Type := N.

Definition chr_of (a : ascii) : chr := N_of_ascii a.

Abbreviation str := (list chr).

Definition lit (s : string) : str := map chr_of (list_ascii_of_string s).

Definition chr_eqb (a b : chr) : bool := N.eqb a b.

Fixpoint str_eqb (a b : str) : bool :=
  match a, b with
  | [], [] => true
  | x :: a', y :: b' => chr_eqb x y && str_eqb a' b'
  | _, _ => false
  end.

(** [s.startswith(p)] *)
Fixpoint startswith (p s : str) : bool :=
  match p, s with
  | [], _ => true
  | x :: p', y :: s' => chr_eqb x y && startswith p' s'
  | _ :: _, [] => false
  end.

(** [s.endswith(p)] *)
Definition endswith (p s : str) : bool := startswith (rev p) (rev s).

(** [p in s] on strings: [p] occurs in [s] as a substring. *)
Fixpoint contains (p s : str) : bool :=
  startswith p s ||
  match s with
  | [] => false
  | _ :: s' => contains p s'
  end.

(** [s.split(sep)] for a non-empty separator: left-most, non-overlapping
    occurrences; [skip] counts the characters of an occurrence still to be
    passed over, [cur] is the current piece in reverse. *)
Fixpoint split_from (sep : str) (skip : nat) (cur : str) (s : str) : list str :=
  match s with
  | [] => [rev cur]
  | c :: s' =>
      match skip with
      | S k => split_from sep k cur s'
      | O => if startswith sep s
             then rev cur :: split_from sep (length sep - 1) [] s'
             else split_from sep 0 (c :: cur) s'
      end
  end.

Definition split (sep s : str) : list str := split_from sep 0 [] s.

(** [sep.join(parts)] *)
Fixpoint join (sep : str) (parts : list str) : str :=
  match parts with
  | [] => []
  | [p] => p
  | p :: rest => p ++ sep ++ join sep rest
  end.

(** [s.replace(old, new)] for a non-empty [old]. *)
Definition replace (old new s : str) : str := join new (split old s).

(** [s.split(sep)[-1]] *)
Definition last_piece (sep s : str) : str := List.last (split sep s) [].

Definition is_upper (c : chr) : bool := ((65 <=? c) && (c <=? 90))%N.

Definition is_lower (c : chr) : bool := ((97 <=? c) && (c <=? 122))%N.

Definition lower_chr (c : chr) : chr :=
  if is_upper c then (c + 32)%N else c.

Definition upper_chr (c : chr) : chr :=
  if is_lower c then (c - 32)%N else c.

(** [s.lower()], [s.upper()] on the letters of ASCII; a cased character
    outside ASCII, which Python maps as well, is left as it is. *)
Definition lower (s : str) : str := map lower_chr s.
Definition upper (s : str) : str := map upper_chr s.

(** [s.title()]: a cased character is upper-cased after an uncased one and
    lower-cased after a cased one. *)
Fixpoint title_from (prev_cased : bool) (s : str) : str :=
  match s with
  | [] => []
  | c :: s' =>
      let cased := is_upper c || is_lower c in
      (if cased then (if prev_cased then lower_chr c else upper_chr c) else c)
        :: title_from cased s'
  end.

Definition title_case (s : str) : str := title_from false s.

(** [c.isspace()], which is also the class [\s] of [re] on a [str]: the
    white space of Unicode.  TAB, LF, VT, FF, CR, FS, GS, RS, US and space;
    NEL and the no-break space; the Ogham space mark, the spaces U+2000 to
    U+200A, the line and paragraph separators, the narrow no-break space,
    the medium mathematical space and the ideographic space. *)
Definition is_space (c : chr) : bool :=
  (((9 <=? c) && (c <=? 13)) || ((28 <=? c) && (c <=? 32))
   || (c =? 133) || (c =? 160) || (c =? 5760)
   || ((8192 <=? c) && (c <=? 8202))
   || (c =? 8232) || (c =? 8233) || (c =? 8239) || (c =? 8287)
   || (c =? 12288))%N.

Definition is_nl (c : chr) : bool := chr_eqb c (chr_of "010"%char).

Fixpoint lstrip (s : str) : str :=
  match s with
  | [] => []
  | c :: s' => if is_space c then lstrip s' else s
  end.

Definition rstrip (s : str) : str := rev (lstrip (rev s)).

(** [s.strip()] *)
Definition strip (s : str) : str := rstrip (lstrip s).

(** [len(s.split())]: the number of maximal runs of non-space characters. *)
Fixpoint count_words_from (in_word : bool) (s : str) : nat :=
  match s with
  | [] => 0
  | c :: s' =>
      if is_space c then count_words_from false s'
      else (if in_word then 0 else 1) + count_words_from true s'
  end.

Definition count_words (s : str) : nat := count_words_from false s.

(** ** The regular expressions of [clean_markdown_content]

    Both patterns are sequences of single character classes and greedy
    starred character classes; [match_here] is the backtracking matcher of
    such a sequence at the head of the text and returns the length of the
    match it finds first (longest repetition first). *)

Inductive re_item :=
| One (p : chr -> bool)
| Many (p : chr -> bool).

Fixpoint match_here (pat : list re_item) : str -> option nat :=
  match pat with
  | [] => fun _ => Some 0
  | One p :: pat' =>
      fun s =>
        match s with
        | c :: s' => if p c then option_map S (match_here pat' s') else None
        | [] => None
        end
  | Many p :: pat' =>
      fix many (s : str) : option nat :=
        match s with
        | c :: s' =>
            if p c then
              match many s' with
              | Some n => Some (S n)
              | None => match_here pat' s
              end
            else match_here pat' s
        | [] => match_here pat' []
        end
  end.

(** [re.sub(pat, repl, s)] for a pattern that matches no empty string:
    scan left to right, replace each match and resume after it. *)
Fixpoint re_sub_from (pat : list re_item) (repl : str) (skip : nat) (s : str) : str :=
  match s with
  | [] => []
  | c :: s' =>
      match skip with
      | S k => re_sub_from pat repl k s'
      | O =>
          match match_here pat s with
          | Some (S n) => repl ++ re_sub_from pat repl n s'
          | _ => c :: re_sub_from pat repl 0 s'
          end
      end
  end.

Definition re_sub (pat : list re_item) (repl s : str) : str :=
  re_sub_from pat repl 0 s.

(** [re.sub('^' + pat, repl, s)] without [re.MULTILINE]: the anchor only
    holds at the start of the text, so at most one match is replaced. *)
Definition re_sub_at_start (pat : list re_item) (repl s : str) : str :=
  match match_here pat s with
  | Some n => repl ++ skipn n s
  | None => s
  end.

(** ** Truncation before the embedding request *)

Definition MAX_CHARS : nat := 30 * 1000.

Definition TRUNCATED_MARK : str := lit "... [TRUNCATED]".

(** The first statements of [EmbeddingGenerator.generate_embedding], the same
    in the four scripts: the text handed to the API. *)
Definition truncate_text (text : str) : str :=
  if MAX_CHARS <? length text
  then firstn MAX_CHARS text ++ TRUNCATED_MARK
  else text.

(** ** The platform

    What the scripts take from Python, the libraries and the database
    schema without fixing it: the type of floats, and the columns of the two
    tables that no script names (identifiers, creation times, ...). *)

Class Platform := {
  Float : Type;
  float_truthy : Float -> bool;
  DocExtra : Type;
  SrcExtra : Type;
}.

Definition timestamp := nat.

(** Exceptions: [Exception kind] is any subclass of [Exception];
    [SystemExit] is raised by [sys.exit] and passes [except Exception]. *)
Inductive exn :=
| Exception (kind : string)
| SystemExit (code : nat).

Inductive outcome (A : Type) :=
| Ok (a : A)
| Raise (e : exn).
Arguments Ok {A} a.
Arguments Raise {A} e.

Section Model.
Context `{P : Platform}.

(** ** Python values decoded from JSON *)

Inductive json :=
| JNull
| JBool (b : bool)
| JInt (n : Z)
| JFloat (f : Float)
| JStr (s : str)
| JArr (l : list json)
| JObj (items : list (str * json)).

(** Truth value of a Python value ([if v:]). *)
Definition truthy (v : json) : bool :=
  match v with
  | JNull => false
  | JBool b => b
  | JInt n => negb (Z.eqb n 0)
  | JFloat f => float_truthy f
  | JStr s => negb (Nat.eqb (length s) 0)
  | JArr l => negb (Nat.eqb (length l) 0)
  | JObj items => negb (Nat.eqb (length items) 0)
  end.

(** Lookup in the items of a dict.  A decoded JSON object has distinct
    keys, so the first binding is the only one. *)
Fixpoint assoc (k : str) (items : list (str * json)) : option json :=
  match items with
  | [] => None
  | (k', v) :: rest => if str_eqb k k' then Some v else assoc k rest
  end.

Definition is_json_str (k : str) (v : json) : bool :=
  match v with
  | JStr s => str_eqb k s
  | _ => false
  end.

(** [k in v] *)
Definition py_in (k : str) (v : json) : outcome bool :=
  match v with
  | JObj items => Ok (match assoc k items with Some _ => true | None => false end)
  | JArr l => Ok (existsb (is_json_str k) l)
  | JStr s => Ok (contains k s)
  | _ => Raise (Exception "TypeError")
  end.

(** [v[k]] with a string key *)
Definition py_getitem (v : json) (k : str) : outcome json :=
  match v with
  | JObj items =>
      match assoc k items with
      | Some x => Ok x
      | None => Raise (Exception "KeyError")
      end
  | _ => Raise (Exception "TypeError")
  end.

(** [v.get(k, default)] *)
Definition py_get (v : json) (k : str) (default : json) : outcome json :=
  match v with
  | JObj items =>
      Ok (match assoc k items with Some x => x | None => default end)
  | _ => Raise (Exception "AttributeError")
  end.

(** [v.items()] *)
Definition py_items (v : json) : outcome (list (str * json)) :=
  match v with
  | JObj items => Ok items
  | _ => Raise (Exception "AttributeError")
  end.

(** [v.upper()], [v.replace(old, new)]: string methods on a value that may
    not be a string. *)
Definition py_upper (v : json) : outcome str :=
  match v with
  | JStr s => Ok (upper s)
  | _ => Raise (Exception "AttributeError")
  end.

Definition py_replace (v : json) (old new : str) : outcome str :=
  match v with
  | JStr s => Ok (replace old new s)
  | _ => Raise (Exception "AttributeError")
  end.

(** ** The documents and document_sources tables *)

Record doc_row := mk_doc_row {
  doc_type : str;
  source_name : str;
  doc_path : str;
  content : str;
  metadata : str;
  embedding : list Float;
  token_count : nat;
  updated_at : timestamp;
  doc_extra : DocExtra;
}.

Record src_row := mk_src_row {
  src_doc_type : str;
  src_source_name : str;
  src_version : str;
  src_config : str;
  src_enabled : bool;
  total_docs : nat;
  total_tokens : nat;
  src_updated_at : timestamp;
  src_extra : SrcExtra;
}.

Record database := mk_database {
  documents : list doc_row;
  document_sources : list src_row;
}.

(** What Postgres supplies when it executes one statement: the value of
    [CURRENT_TIMESTAMP] and the schema defaults of the columns an [INSERT]
    leaves out. *)
Record pg_env := mk_pg_env {
  current_timestamp : timestamp;
  default_updated_at : timestamp;
  default_doc_extra : DocExtra;
  default_total_docs : nat;
  default_total_tokens : nat;
  default_src_extra : SrcExtra;
}.

(** The seven values of [INSERT INTO documents (...) VALUES (...)]. *)
Record doc_values := mk_doc_values {
  v_doc_type : str;
  v_source_name : str;
  v_doc_path : str;
  v_content : str;
  v_metadata : str;
  v_embedding : list Float;
  v_token_count : nat;
}.

Definition doc_key : Type := str * str * str.

Definition key_of_row (r : doc_row) : doc_key :=
  (doc_type r, source_name r, doc_path r).

Definition key_of_values (v : doc_values) : doc_key :=
  (v_doc_type v, v_source_name v, v_doc_path v).

Definition key_eqb (a b : doc_key) : bool :=
  let '(a1, a2, a3) := a in
  let '(b1, b2, b3) := b in
  str_eqb a1 b1 && str_eqb a2 b2 && str_eqb a3 b3.

(** The row an [INSERT] adds when there is no conflict. *)
Definition inserted_row (env : pg_env) (v : doc_values) : doc_row :=
  {| doc_type := v_doc_type v;
     source_name := v_source_name v;
     doc_path := v_doc_path v;
     content := v_content v;
     metadata := v_metadata v;
     embedding := v_embedding v;
     token_count := v_token_count v;
     updated_at := default_updated_at env;
     doc_extra := default_doc_extra env |}.

(** [DO UPDATE SET content = .., metadata = .., embedding = ..,
    token_count = .., updated_at = CURRENT_TIMESTAMP] on the conflicting
    row. *)
Definition do_update (env : pg_env) (v : doc_values) (r : doc_row) : doc_row :=
  {| doc_type := doc_type r;
     source_name := source_name r;
     doc_path := doc_path r;
     content := v_content v;
     metadata := v_metadata v;
     embedding := v_embedding v;
     token_count := v_token_count v;
     updated_at := current_timestamp env;
     doc_extra := doc_extra r |}.

Definition update_if_conflict (env : pg_env) (v : doc_values) (r : doc_row) : doc_row :=
  if key_eqb (key_of_row r) (key_of_values v) then do_update env v r else r.

(** [INSERT INTO documents ... ON CONFLICT (doc_type, source_name, doc_path)
    DO UPDATE SET ...]: the statement of [store_document],
    [store_endpoints] and [store_documents]. *)
Definition upsert_document (env : pg_env) (v : doc_values) (t : list doc_row) : list doc_row :=
  if existsb (fun r => key_eqb (key_of_row r) (key_of_values v)) t
  then map (update_if_conflict env v) t
  else t ++ [inserted_row env v].

Definition is_birdeye_source (r : src_row) : bool :=
  str_eqb (src_doc_type r) (lit "birdeye") && str_eqb (src_source_name r) (lit "birdeye-api").

(** [INSERT INTO document_sources ... ON CONFLICT (doc_type, source_name)
    DO UPDATE SET config = $1, updated_at = CURRENT_TIMESTAMP] *)
Definition upsert_birdeye_source (env : pg_env) (cfg : str) (t : list src_row) : list src_row :=
  if existsb is_birdeye_source t
  then map (fun r =>
              if is_birdeye_source r
              then {| src_doc_type := src_doc_type r;
                      src_source_name := src_source_name r;
                      src_version := src_version r;
                      src_config := cfg;
                      src_enabled := src_enabled r;
                      total_docs := total_docs r;
                      total_tokens := total_tokens r;
                      src_updated_at := current_timestamp env;
                      src_extra := src_extra r |}
              else r) t
  else t ++ [ {| src_doc_type := lit "birdeye";
                 src_source_name := lit "birdeye-api";
                 src_version := lit "latest";
                 src_config := cfg;
                 src_enabled := true;
                 total_docs := default_total_docs env;
                 total_tokens := default_total_tokens env;
                 src_updated_at := default_updated_at env;
                 src_extra := default_src_extra env |} ].

Definition is_birdeye_doc (r : doc_row) : bool :=
  str_eqb (doc_type r) (lit "birdeye") && str_eqb (source_name r) (lit "birdeye-api").

(** [UPDATE document_sources SET total_docs = (SELECT COUNT( * ) ...),
    total_tokens = (SELECT COALESCE(SUM(token_count), 0) ...) WHERE ...] *)
Definition update_birdeye_stats (docs : list doc_row) (t : list src_row) : list src_row :=
  let mine := List.filter is_birdeye_doc docs in
  map (fun r =>
         if is_birdeye_source r
         then {| src_doc_type := src_doc_type r;
                 src_source_name := src_source_name r;
                 src_version := src_version r;
                 src_config := src_config r;
                 src_enabled := src_enabled r;
                 total_docs := length mine;
                 total_tokens := list_sum (map token_count mine);
                 src_updated_at := src_updated_at r;
                 src_extra := src_extra r |}
         else r) t.

Inductive sql_stmt :=
| SqlUpsertDocument (v : doc_values)
| SqlUpsertBirdeyeSource (cfg : str)
| SqlUpdateBirdeyeStats.

Definition run_sql (env : pg_env) (s : sql_stmt) (d : database) : database :=
  match s with
  | SqlUpsertDocument v =>
      {| documents := upsert_document env v (documents d);
         document_sources := document_sources d |}
  | SqlUpsertBirdeyeSource cfg =>
      {| documents := documents d;
         document_sources := upsert_birdeye_source env cfg (document_sources d) |}
  | SqlUpdateBirdeyeStats =>
      {| documents := documents d;
         document_sources := update_birdeye_stats (documents d) (document_sources d) |}
  end.

(** [len(v)] *)
Definition py_len (v : json) : outcome nat :=
  match v with
  | JObj items => Ok (length items)
  | JArr l => Ok (length l)
  | JStr s => Ok (length s)
  | _ => Raise (Exception "TypeError")
  end.

(** [for x in v]: the elements of a list, the keys of a dict, the
    characters of a string. *)
Definition py_iter (v : json) : outcome (list json) :=
  match v with
  | JArr l => Ok l
  | JObj items => Ok (map (fun kv => JStr (fst kv)) items)
  | JStr s => Ok (map (fun c => JStr [c]) s)
  | _ => Raise (Exception "TypeError")
  end.

(** ** Paths

    A [pathlib.Path] is the list of its components. *)

Definition path : Type := list str.

Definition SLASH : str := lit "/".
Definition NL : str := [chr_of "010"%char].

(** [str(p)] *)
Definition path_str (p : path) : str :=
  match p with
  | [] => lit "."
  | _ => join SLASH p
  end.

(** [p.relative_to(base)], which raises [ValueError] when [base] is not a
    prefix of [p]. *)
Fixpoint relative_to (p base : path) {struct base} : outcome path :=
  match base with
  | [] => Ok p
  | b :: base' =>
      match p with
      | c :: p' =>
          if str_eqb b c then relative_to p' base'
          else Raise (Exception "ValueError")
      | [] => Raise (Exception "ValueError")
      end
  end.

(** [p.name] *)
Definition path_name (p : path) : str := List.last p [].

(** The components of [Path(s)] for a POSIX path given as a string: what
    stands between slashes, other than the empty string and [.]. *)
Definition path_components (s : str) : list str :=
  List.filter (fun c => negb (str_eqb c [] || str_eqb c (lit ".")))
              (split SLASH s).

(** [Path(s).parts]: the root, if any, and the components. *)
Definition path_parts (s : str) : list str :=
  let components := path_components s in
  if startswith (lit "//") s && negb (startswith (lit "///") s)
  then lit "//" :: components
  else if startswith SLASH s then SLASH :: components
  else components.

(** [Path(s).name]: the last component, the root not being one. *)
Definition str_path_name (s : str) : str := List.last (path_components s) [].

(** The part of a file name after its last dot, as [Path.suffix] sees it:
    there is a suffix only if the last dot is neither the first nor the
    last character of the name.  [rev_after] is that part in reverse. *)
Fixpoint until_dot (s : str) : option (str * str) :=
  match s with
  | [] => None
  | c :: s' =>
      if chr_eqb c (chr_of "."%char) then Some ([], s')
      else match until_dot s' with
           | Some (a, b) => Some (c :: a, b)
           | None => None
           end
  end.

(** [p.suffix[1:]] *)
Definition suffix_without_dot (name : str) : str :=
  match until_dot (rev name) with
  | Some (rev_after, rev_before) =>
      match rev_after, rev_before with
      | _ :: _, _ :: _ => rev rev_after
      | _, _ => []
      end
  | None => []
  end.

(** ** The outside world and the monad of the scripts *)

Inductive event :=
| EvHttpGet (url : str)
| EvSleep (secs : nat)
| EvEmbed (input : str)
| EvConnect
| EvRegisterVector
| EvSql (s : sql_stmt)
| EvClose
| EvRglob (root : path) (pattern : str)
| EvReadText (p : path)
| EvReadBytes (p : path)
| EvWriteFile (name : str).

Record http_response := mk_http_response {
  status_code : nat;
  body : str;
}.

(** The oracles answer from the trace of the external calls made so far,
    the call being answered included. *)
Record World := mk_World {
  getenv : str -> option str;
  path_exists : path -> bool;
  http_get : list event -> str -> option http_response;
  json_loads : str -> option json;
  json_dumps : json -> str;
  json_dumps_indent : json -> str;
  py_str : json -> str;
  utcnow_iso : list event -> str;
  embeddings_create : list event -> str -> option (list Float);
  pg_reachable : list event -> bool;
  vector_registered : list event -> bool;
  pg : list event -> pg_env;
  fs_walk : list event -> path -> list path;
  read_text : list event -> path -> option str;
  read_bytes_len : list event -> path -> option nat;
}.

Record state := mk_state {
  trace : list event;
  db : database;
}.

Definition M (A : Type) : Type := state -> outcome A * state.

Definition ret {A} (a : A) : M A := fun st => (Ok a, st).

Definition bind {A B} (m : M A) (k : A -> M B) : M B :=
  fun st =>
    match m st with
    | (Ok a, st') => k a st'
    | (Raise e, st') => (Raise e, st')
    end.

Definition raise {A} (e : exn) : M A := fun st => (Raise e, st).

Definition lift {A} (o : outcome A) : M A := fun st => (o, st).

(** [try: m except Exception: h] *)
Definition try_except {A} (m : M A) (h : M A) : M A :=
  fun st =>
    match m st with
    | (Raise (Exception _), st') => h st'
    | r => r
    end.

(** [try: m finally: f] *)
Definition try_finally {A} (m : M A) (f : M unit) : M A :=
  fun st =>
    match m st with
    | (r, st') =>
        match f st' with
        | (Ok _, st'') => (r, st'')
        | (Raise e, st'') => (Raise e, st'')
        end
    end.

Definition emit (e : event) : M unit :=
  fun st => (Ok tt, {| trace := trace st ++ [e]; db := db st |}).

Definition ask {A} (f : list event -> A) : M A :=
  fun st => (Ok (f (trace st)), st).

(** [for x in l: body(x)] *)
Fixpoint for_each {A} (l : list A) (body : A -> M unit) : M unit :=
  match l with
  | [] => ret tt
  | x :: l' => bind (body x) (fun _ => for_each l' body)
  end.

(** A loop that appends to a list it carries. *)
Fixpoint for_acc {A B} (l : list A) (acc : B) (body : B -> A -> M B) : M B :=
  match l with
  | [] => ret acc
  | x :: l' => bind (body acc x) (fun acc' => for_acc l' acc' body)
  end.

End Model.

Arguments ret {P A} a.
Arguments raise {P A} e.
Arguments lift {P A} o.

Notation "'let*' x := m 'in' k" := (bind m (fun x => k))
  (at level 10, x pattern, m at level 100, k at level 200, only parsing).

Section Shared.
Context `{P : Platform} (W : World).

(** How an f-string renders a value: a string as itself, anything else
    through [str()]. *)
Definition fmt (v : json) : str :=
  match v with
  | JStr s => s
  | _ => py_str W v
  end.

(** [response = session.get(url, timeout=30)] *)
Definition session_get (url : str) : M http_response :=
  let* _ := emit (EvHttpGet url) in
  let* r := ask (fun tr => http_get W tr url) in
  match r with
  | Some resp => ret resp
  | None => raise (Exception "RequestException")
  end.

(** [response.raise_for_status()] *)
Definition raise_for_status (r : http_response) : M unit :=
  if (400 <=? status_code r) && (status_code r <? 600)
  then raise (Exception "HTTPError")
  else ret tt.

(** [response.json()] *)
Definition response_json (r : http_response) : M json :=
  match json_loads W (body r) with
  | Some j => ret j
  | None => raise (Exception "JSONDecodeError")
  end.

(** [EmbeddingGenerator.generate_embedding]: truncate, then one request to
    the embedding API; a failed request raises. *)
Definition generate_embedding (text : str) : M (list Float) :=
  let text := truncate_text text in
  let* _ := emit (EvEmbed text) in
  let* r := ask (fun tr => embeddings_create W tr text) in
  match r with
  | Some v => ret v
  | None => raise (Exception "EmbeddingError")
  end.

(** [conn = await asyncpg.connect(database_url)] *)
Definition connect : M unit :=
  let* _ := emit EvConnect in
  let* up := ask (pg_reachable W) in
  if up then ret tt else raise (Exception "PostgresError").

(** [await register_vector(conn)], which raises when the database does not
    know the [vector] type. *)
Definition register_vector : M unit :=
  let* _ := emit EvRegisterVector in
  let* known := ask (vector_registered W) in
  if known then ret tt else raise (Exception "ValueError").

(** [await conn.close()] *)
Definition close : M unit := emit EvClose.

(** [await conn.execute(stmt, ...)]: outside a transaction, so every
    statement that succeeds is committed. *)
Definition execute (s : sql_stmt) : M unit :=
  let* _ := emit (EvSql s) in
  let* up := ask (pg_reachable W) in
  if up
  then (fun st => (Ok tt, {| trace := trace st;
                             db := run_sql (pg W (trace st)) s (db st) |}))
  else raise (Exception "PostgresError").

(** The environment checks that open every [main]. *)
Definition env_set (name : str) : bool :=
  match getenv W name with
  | Some (_ :: _) => true
  | _ => false
  end.

(** [root.rglob("*" + ext)]: the entries below [root] whose name ends in
    [ext], as paths that start with [root]. *)
Definition rglob (root : path) (ext : str) : M (list path) :=
  let* _ := emit (EvRglob root (lit "*" ++ ext)) in
  let* tree := ask (fun tr => fs_walk W tr root) in
  ret (map (fun rel => root ++ rel)
           (List.filter (fun rel => endswith ext (path_name rel)) tree)).

(** [open(p, 'r', encoding='utf-8', errors='ignore').read()] *)
Definition read_file (p : path) : M str :=
  let* _ := emit (EvReadText p) in
  let* r := ask (fun tr => read_text W tr p) in
  match r with
  | Some s => ret s
  | None => raise (Exception "OSError")
  end.

(** [len(open(p, 'rb').read())] *)
Definition read_file_size (p : path) : M nat :=
  let* _ := emit (EvReadBytes p) in
  let* r := ask (fun tr => read_bytes_len W tr p) in
  match r with
  | Some n => ret n
  | None => raise (Exception "OSError")
  end.

End Shared.

(** The files neither Solana script wants. *)
Definition skip_patterns : list str :=
  map lit ["node_modules/"; ".git/"; "target/"; "build/"; "dist/";
           "CODEOWNERS"; "NOTICE"]%string.

(** [any(pattern in relative_path for pattern in skip_patterns)] *)
Definition skipped (relative_path : str) : bool :=
  existsb (fun pattern => contains pattern relative_path) skip_patterns.

(** [\n\s*\n\s*\n] and [\s*\n] *)
Definition blank_lines_re : list re_item :=
  [One is_nl; Many is_space; One is_nl; Many is_space; One is_nl].

Definition leading_blank_re : list re_item := [Many is_space; One is_nl].

(** [clean_markdown_content], and [clean_content] on markdown. *)
Definition clean_markdown_content (content : str) : str :=
  let content := re_sub blank_lines_re (NL ++ NL) content in
  let content := re_sub_at_start leading_blank_re [] content in
  strip content.


(** ** [ingest_birdeye.py] *)

Module Birdeye.
Section Script.
Context `{P : Platform} (W : World).

(** The dataclass declares [title] and [path] as [str]; they hold
    whatever the JSON response has under those keys. *)
Record BirdEyeEndpoint := mk_endpoint {
  url : str;
  title : json;
  method : str;
  path : json;
  content : str;
  metadata : json;
}.

Definition discover_all_endpoints : list str := map lit [
    "https://docs.birdeye.so/reference/get-defi-price";
    "https://docs.birdeye.so/reference/get-defi-multi_price";
    "https://docs.birdeye.so/reference/post-defi-multi_price";
    "https://docs.birdeye.so/reference/get-defi-historical_price_unix";
    "https://docs.birdeye.so/reference/get-defi-history_price";
    "https://docs.birdeye.so/reference/get-defi-price_volume-single";
    "https://docs.birdeye.so/reference/post-defi-price_volume-multi";
    "https://docs.birdeye.so/reference/get-defi-txs-token";
    "https://docs.birdeye.so/reference/get-defi-txs-pair";
    "https://docs.birdeye.so/reference/get-defi-txs-token-seek_by_time";
    "https://docs.birdeye.so/reference/get-defi-txs-pair-seek_by_time";
    "https://docs.birdeye.so/reference/get-defi-v3-txs";
    "https://docs.birdeye.so/reference/get-defi-v3-token-txs";
    "https://docs.birdeye.so/reference/get-defi-v3-txs-recent";
    "https://docs.birdeye.so/reference/get-defi-ohlcv";
    "https://docs.birdeye.so/reference/get-defi-ohlcv-pair";
    "https://docs.birdeye.so/reference/get-defi-ohlcv-base_quote";
    "https://docs.birdeye.so/reference/get-defi-v3-ohlcv";
    "https://docs.birdeye.so/reference/get-defi-v3-ohlcv-pair";
    "https://docs.birdeye.so/reference/get-defi-token_overview";
    "https://docs.birdeye.so/reference/get-defi-token_security";
    "https://docs.birdeye.so/reference/get-defi-token_creation_info";
    "https://docs.birdeye.so/reference/get-defi-tokenlist";
    "https://docs.birdeye.so/reference/get-defi-token_trending";
    "https://docs.birdeye.so/reference/get-defi-v3-token-list";
    "https://docs.birdeye.so/reference/get-defi-v3-token-list-scroll";
    "https://docs.birdeye.so/reference/get-defi-v3-token-meta-data-single";
    "https://docs.birdeye.so/reference/get-defi-v3-token-meta-data-multiple";
    "https://docs.birdeye.so/reference/get-defi-v3-token-market-data";
    "https://docs.birdeye.so/reference/get-defi-v3-token-market-data-multiple";
    "https://docs.birdeye.so/reference/get-defi-v3-token-trade-data-single";
    "https://docs.birdeye.so/reference/get-defi-v3-token-trade-data-multiple";
    "https://docs.birdeye.so/reference/get-trader-gainers-losers";
    "https://docs.birdeye.so/reference/get-trader-txs-seek_by_time";
    "https://docs.birdeye.so/reference/get-v1-wallet-balance_change";
    "https://docs.birdeye.so/reference/get-v1-wallet-portfolio";
    "https://docs.birdeye.so/reference/get-v1-wallet-token_balance";
    "https://docs.birdeye.so/reference/get-v1-wallet-tx_list";
    "https://docs.birdeye.so/reference/get-v1-wallet-net_worth";
    "https://docs.birdeye.so/reference/get-defi-v3-search";
    "https://docs.birdeye.so/reference/get-defi-networks";
    "https://docs.birdeye.so/reference/get-v1-wallet-list_supported_chain"
  ]%string.

Definition api_url_of (slug : str) : str :=
  lit "https://docs.birdeye.so/birdeyedotso/api-next/v2/branches/1.0/reference/"
    ++ slug ++ lit "?dereference=true&reduce=false".

(** The [api] section: method, path and OpenAPI schema, with their
    defaults when the section is absent. *)
Definition read_api_section (data_section : json) : M (str * json * json) :=
  let* has_api := lift (py_in (lit "api") data_section) in
  if has_api then
    let* api_info := lift (py_getitem data_section (lit "api")) in
    let* m := lift (py_get api_info (lit "method") (JStr (lit "GET"))) in
    let* method := lift (py_upper m) in
    let* path := lift (py_get api_info (lit "path") (JStr (lit "/unknown"))) in
    let* has_schema := lift (py_in (lit "schema") api_info) in
    if has_schema then
      let* api_spec := lift (py_getitem api_info (lit "schema")) in
      ret (method, path, api_spec)
    else ret (method, path, JObj [])
  else ret (lit "GET", JStr (lit "/unknown"), JObj []).

(** The description: [data_section['content']['body']] when both keys are
    there. *)
Definition read_content_body (data_section : json) : M (option json) :=
  let* has_content := lift (py_in (lit "content") data_section) in
  if has_content then
    let* c := lift (py_getitem data_section (lit "content")) in
    let* has_body := lift (py_in (lit "body") c) in
    if has_body then
      let* b := lift (py_getitem c (lit "body")) in
      ret (Some b)
    else ret None
  else ret None.

Definition metadata_line (kv : str * json) : list str :=
  if truthy (snd kv)
  then [lit "**" ++ title_case (fst kv) ++ lit ":** " ++ fmt W (snd kv)]
  else [].

Definition read_metadata_lines (data_section : json) : M (list str) :=
  let* has_meta := lift (py_in (lit "metadata") data_section) in
  if has_meta then
    let* metadata_info := lift (py_getitem data_section (lit "metadata")) in
    if truthy metadata_info then
      let* items := lift (py_items metadata_info) in
      ret ([lit "## Metadata"] ++ flat_map metadata_line items ++ [[]])
    else ret []
  else ret [].

(** The body of the [try] block of [extract_endpoint_data]. *)
Definition extract_endpoint_body (url : str) : M (option BirdEyeEndpoint) :=
  if negb (contains (lit "/reference/") url) then ret None
  else
    let slug := last_piece (lit "/reference/") url in
    let api_url := api_url_of slug in
    let* response := session_get W api_url in
    let* _ := raise_for_status response in
    let* data := response_json W response in
    let* has_data := lift (py_in (lit "data") data) in
    if negb has_data then ret None
    else
      let* data_section := lift (py_getitem data (lit "data")) in
      let* title := lift (py_get data_section (lit "title")
                                 (JStr (lit "Unknown Endpoint"))) in
      let* api := read_api_section data_section in
      let '(method, path, api_spec) := api in
      let head_parts :=
        [lit "# " ++ fmt W title;
         lit "**Method:** " ++ method;
         lit "**Path:** " ++ fmt W path;
         []] in
      let* body := read_content_body data_section in
      let content_body := match body with Some b => b | None => JStr [] end in
      let body_parts :=
        match body with
        | Some b => [lit "**Description:**" ++ NL ++ fmt W b; []]
        | None => []
        end in
      let spec_parts :=
        if truthy api_spec
        then [lit "## OpenAPI Specification"; lit "```json";
              json_dumps_indent W api_spec; lit "```"; []]
        else [] in
      let* metadata_parts := read_metadata_lines data_section in
      let full_content :=
        join NL (head_parts ++ body_parts ++ spec_parts ++ metadata_parts) in
      let* now := ask (utcnow_iso W) in
      ret (Some {| url := url;
                   title := title;
                   method := method;
                   path := path;
                   content := full_content;
                   metadata := JObj [
                     (lit "source_url", JStr url);
                     (lit "api_url", JStr api_url);
                     (lit "api_method", JStr method);
                     (lit "api_path", path);
                     (lit "title", title);
                     (lit "openapi_spec", api_spec);
                     (lit "content_body", content_body);
                     (lit "extracted_at", JStr now)] |}).

(** [BirdEyeExtractor.extract_endpoint_data]: the body under
    [try: ... except Exception: return None]. *)
Definition extract_endpoint_data (url : str) : M (option BirdEyeEndpoint) :=
  try_except (extract_endpoint_body url) (ret None).

(** [DatabaseManager.ensure_document_source] *)
Definition ensure_document_source : M unit :=
  let* now := ask (utcnow_iso W) in
  execute W (SqlUpsertBirdeyeSource
    (json_dumps W (JObj [
       (lit "base_url", JStr (lit "https://docs.birdeye.so"));
       (lit "extraction_method", JStr (lit "data-initial-props scraping"));
       (lit "last_ingestion", JStr now)]))).

(** The values [store_document] binds to [$1 .. $5]. *)
Definition document_values (doc_path : str) (endpoint : BirdEyeEndpoint)
    (embedding : list Float) : doc_values :=
  {| v_doc_type := lit "birdeye";
     v_source_name := lit "birdeye-api";
     v_doc_path := doc_path;
     v_content := content endpoint;
     v_metadata := json_dumps W (metadata endpoint);
     v_embedding := embedding;
     v_token_count := count_words (content endpoint) |}.

(** [DatabaseManager.store_document] *)
Definition store_document (endpoint : BirdEyeEndpoint) (embedding : list Float) : M unit :=
  let* replaced := lift (py_replace (path endpoint) (lit "/") (lit "_")) in
  let doc_path := lower (method endpoint) ++ replaced in
  execute W (SqlUpsertDocument (document_values doc_path endpoint embedding)).

(** [DatabaseManager.update_source_stats] *)
Definition update_source_stats : M unit := execute W SqlUpdateBirdeyeStats.

(** [DatabaseManager.store_endpoints] *)
Definition store_endpoints (endpoints : list BirdEyeEndpoint)
    (embeddings : list (list Float)) : M unit :=
  let* _ := connect W in
  try_finally
    (let* _ := ensure_document_source in
     let* _ := for_each (combine endpoints embeddings)
                        (fun ee => store_document (fst ee) (snd ee)) in
     update_source_stats)
    close.

(** The extraction loop of [main]: one call of [extract_endpoint_data] per
    URL, a pause between two URLs. *)
Fixpoint extract_loop (total i : nat) (urls : list str)
    (endpoints : list BirdEyeEndpoint) : M (list BirdEyeEndpoint) :=
  match urls with
  | [] => ret endpoints
  | url :: rest =>
      let* endpoint := extract_endpoint_data url in
      let endpoints' :=
        match endpoint with
        | Some e => endpoints ++ [e]
        | None => endpoints
        end in
      let* _ := (if i <? total - 1
                 then emit (EvSleep (if 20 <? total then 15 else 10))
                 else ret tt) in
      extract_loop total (S i) rest endpoints'
  end.

(** The embedding loop of [main]. *)
Definition embed_step (embeddings : list (list Float)) (endpoint : BirdEyeEndpoint)
    : M (list (list Float)) :=
  let* embedding := generate_embedding W (content endpoint) in
  let* _ := emit (EvSleep 1) in
  ret (embeddings ++ [embedding]).

(** [main] from the extraction loop on, for the URLs selected. *)
Definition ingest (endpoints_to_extract : list str) : M unit :=
  let* endpoints := extract_loop (length endpoints_to_extract) 0 endpoints_to_extract [] in
  match endpoints with
  | [] => raise (SystemExit 1)
  | _ =>
      let* embeddings := for_acc endpoints [] embed_step in
      store_endpoints endpoints embeddings
  end.

(** [main]; [test_mode] is set, so only the first three URLs are taken. *)
Definition main : M unit :=
  if negb (env_set W (lit "DATABASE_URL")) then raise (SystemExit 1)
  else if negb (env_set W (lit "OPENAI_API_KEY")) then raise (SystemExit 1)
  else ingest (firstn 3 discover_all_endpoints).

End Script.
End Birdeye.

(** ** [ingest_birdeye_simple.py] *)

Module BirdeyeSimple.
Section Script.
Context `{P : Platform} (W : World).

(** [path] and [method] are keys of JSON objects, hence strings; [title]
    and [description] are whatever the specification has. *)
Record BirdEyeEndpoint := mk_endpoint {
  path : str;
  method : str;
  title : json;
  description : json;
  content : str;
  metadata : json;
}.

Definition spec_url : str :=
  lit "https://docs.birdeye.so/birdeyedotso/api-next/v2/branches/1.0/reference/get-defi-price?dereference=true&reduce=false".

(** ['data' not in data or 'api' not in data['data'] or
    'schema' not in data['data']['api']] *)
Definition schema_missing (data : json) : M bool :=
  let* has_data := lift (py_in (lit "data") data) in
  if negb has_data then ret true
  else
    let* d := lift (py_getitem data (lit "data")) in
    let* has_api := lift (py_in (lit "api") d) in
    if negb has_api then ret true
    else
      let* a := lift (py_getitem d (lit "api")) in
      let* has_schema := lift (py_in (lit "schema") a) in
      ret (negb has_schema).

(** [BirdEyeProcessor.download_openapi_spec] *)
Definition download_openapi_spec (output_file : str) : M json :=
  let* response := session_get W spec_url in
  let* _ := raise_for_status response in
  let* data := response_json W response in
  let* missing := schema_missing data in
  if missing then raise (Exception "Exception")
  else
    let* d := lift (py_getitem data (lit "data")) in
    let* a := lift (py_getitem d (lit "api")) in
    let* openapi_spec := lift (py_getitem a (lit "schema")) in
    let* _ := emit (EvWriteFile output_file) in
    let* paths := lift (py_get openapi_spec (lit "paths") (JObj [])) in
    let* _ := lift (py_len paths) in
    ret openapi_spec.

Definition http_methods : list str :=
  map lit ["GET"; "POST"; "PUT"; "DELETE"; "PATCH"]%string.

(** One line of the parameter list. *)
Definition parameter_line (param : json) : outcome str :=
  match py_get param (lit "name") (JStr (lit "unknown")) with
  | Raise e => Raise e
  | Ok param_name =>
  match py_get param (lit "description") (JStr (lit "No description")) with
  | Raise e => Raise e
  | Ok param_desc =>
  match py_get param (lit "required") (JBool false) with
  | Raise e => Raise e
  | Ok param_required =>
  match py_get param (lit "in") (JStr (lit "unknown")) with
  | Raise e => Raise e
  | Ok param_location =>
      let required_text :=
        if truthy param_required then lit " (required)" else lit " (optional)" in
      Ok (lit "- **" ++ fmt W param_name ++ lit "** (" ++ fmt W param_location
            ++ lit ")" ++ required_text ++ lit ": " ++ fmt W param_desc)
  end end end end.

Fixpoint parameter_lines (params : list json) : outcome (list str) :=
  match params with
  | [] => Ok []
  | p :: rest =>
      match parameter_line p with
      | Raise e => Raise e
      | Ok l =>
          match parameter_lines rest with
          | Raise e => Raise e
          | Ok ls => Ok (l :: ls)
          end
      end
  end.

Definition response_line (kv : str * json) : outcome str :=
  match py_get (snd kv) (lit "description") (JStr (lit "No description")) with
  | Raise e => Raise e
  | Ok response_desc =>
      Ok (lit "- **" ++ fst kv ++ lit "**: " ++ fmt W response_desc)
  end.

Fixpoint response_lines (items : list (str * json)) : outcome (list str) :=
  match items with
  | [] => Ok []
  | kv :: rest =>
      match response_line kv with
      | Raise e => Raise e
      | Ok l =>
          match response_lines rest with
          | Raise e => Raise e
          | Ok ls => Ok (l :: ls)
          end
      end
  end.

Definition parameters_section (endpoint_data : json) : M (list str) :=
  let* has := lift (py_in (lit "parameters") endpoint_data) in
  if has then
    let* ps := lift (py_getitem endpoint_data (lit "parameters")) in
    let* params := lift (py_iter ps) in
    let* ls := lift (parameter_lines params) in
    ret ([lit "## Parameters"; []] ++ ls ++ [[]])
  else ret [].

Definition responses_section (endpoint_data : json) : M (list str) :=
  let* has := lift (py_in (lit "responses") endpoint_data) in
  if has then
    let* rs := lift (py_getitem endpoint_data (lit "responses")) in
    let* items := lift (py_items rs) in
    let* ls := lift (response_lines items) in
    ret ([lit "## Responses"; []] ++ ls ++ [[]])
  else ret [].

Definition schema_json (endpoint_data : json) : str :=
  let endpoint_json := json_dumps_indent W endpoint_data in
  if 20 * 1000 <? length endpoint_json
  then firstn (20 * 1000) endpoint_json ++ lit "... [TRUNCATED]"
  else endpoint_json.

(** The body of the inner loop of [extract_endpoints_from_spec] for one
    [(method, endpoint_data)] under one [path]. *)
Definition extract_method (path : str) (endpoints : list BirdEyeEndpoint)
    (item : str * json) : M (list BirdEyeEndpoint) :=
  let method := fst item in
  let endpoint_data := snd item in
  if existsb (str_eqb (upper method)) http_methods then
    let* title := lift (py_get endpoint_data (lit "summary")
                               (JStr (upper method ++ lit " " ++ path))) in
    let* description := lift (py_get endpoint_data (lit "description") (JStr [])) in
    let head_parts :=
      [lit "# " ++ fmt W title;
       lit "**Method:** " ++ upper method;
       lit "**Path:** " ++ path;
       []] in
    let description_parts :=
      if truthy description
      then [lit "**Description:** " ++ fmt W description; []]
      else [] in
    let* parameter_parts := parameters_section endpoint_data in
    let* response_parts := responses_section endpoint_data in
    let schema_parts :=
      [lit "## Complete Schema"; lit "```json"; schema_json endpoint_data;
       lit "```"; []] in
    let full_content :=
      join NL (head_parts ++ description_parts ++ parameter_parts
                 ++ response_parts ++ schema_parts) in
    let* now := ask (utcnow_iso W) in
    ret (endpoints ++ [ {| path := path;
                           method := upper method;
                           title := title;
                           description := description;
                           content := full_content;
                           metadata := JObj [
                             (lit "source", JStr (lit "birdeye_openapi"));
                             (lit "extracted_at", JStr now);
                             (lit "endpoint_data", endpoint_data)] |} ])
  else ret endpoints.

Definition extract_path (endpoints : list BirdEyeEndpoint) (item : str * json)
    : M (list BirdEyeEndpoint) :=
  let* methods := lift (py_items (snd item)) in
  for_acc methods endpoints (extract_method (fst item)).

(** [BirdEyeProcessor.extract_endpoints_from_spec] *)
Definition extract_endpoints_from_spec (openapi_spec : json) : M (list BirdEyeEndpoint) :=
  let* paths := lift (py_get openapi_spec (lit "paths") (JObj [])) in
  let* items := lift (py_items paths) in
  for_acc items [] extract_path.

(** The values [store_endpoints] binds to [$1 .. $7]. *)
Definition document_values (endpoint : BirdEyeEndpoint) (embedding : list Float)
    : doc_values :=
  {| v_doc_type := lit "birdeye";
     v_source_name := lit "BirdEye API";
     v_doc_path := method endpoint ++ lit " " ++ path endpoint;
     v_content := content endpoint;
     v_metadata := json_dumps W (metadata endpoint);
     v_embedding := embedding;
     v_token_count := length (content endpoint) / 4 |}.

(** [DatabaseManager.store_endpoints] *)
Definition store_endpoints (endpoints : list BirdEyeEndpoint)
    (embeddings : list (list Float)) : M unit :=
  let* _ := connect W in
  let* _ := register_vector W in
  try_finally
    (for_each (combine endpoints embeddings)
       (fun ee => execute W (SqlUpsertDocument (document_values (fst ee) (snd ee)))))
    close.

Definition embed_step (embeddings : list (list Float)) (endpoint : BirdEyeEndpoint)
    : M (list (list Float)) :=
  let* embedding := generate_embedding W (content endpoint) in
  ret (embeddings ++ [embedding]).

(** [main] *)
Definition main : M unit :=
  if negb (env_set W (lit "DATABASE_URL")) then raise (SystemExit 1)
  else if negb (env_set W (lit "OPENAI_API_KEY")) then raise (SystemExit 1)
  else
    let* openapi_spec := download_openapi_spec (lit "birdeye_openapi.json") in
    let* endpoints := extract_endpoints_from_spec openapi_spec in
    let* embeddings := for_acc endpoints [] embed_step in
    store_endpoints endpoints embeddings.

End Script.
End BirdeyeSimple.

(** ** [ingest_solana.py] *)

Module Solana.

(** The title and category heuristics of [SolanaDocProcessor]: total
    functions on strings, left abstract. *)
Record Heuristics := mk_Heuristics {
  extract_title_from_content : str -> path -> str;
  categorize_document : str -> str;
}.

Section Script.
Context `{P : Platform} (W : World) (H : Heuristics).

Record SolanaDocument := mk_document {
  file_path : path;
  relative_path : str;
  title : str;
  content : str;
  category : str;
  metadata : json;
}.

(** [SolanaDocProcessor()] *)
Definition default_repo_path : path := [lit "solana-agave"].

Definition discover_step (repo_path : path) (md_files : list path) (md_file : path)
    : M (list path) :=
  let* rel := lift (relative_to md_file repo_path) in
  let relative_path := path_str rel in
  if skipped relative_path then ret md_files
  else ret (md_files ++ [md_file]).

(** [SolanaDocProcessor.discover_markdown_files] *)
Definition discover_markdown_files (repo_path : path) : M (list path) :=
  let* found := rglob W repo_path (lit ".md") in
  for_acc found [] (discover_step repo_path).

(** The body of the [try] block of [process_markdown_file]. *)
Definition process_markdown_body (repo_path file_path : path)
    : M (option SolanaDocument) :=
  let* rel := lift (relative_to file_path repo_path) in
  let relative_path := path_str rel in
  let* raw_content := read_file W file_path in
  match strip raw_content with
  | [] => ret None
  | _ :: _ =>
      let content := clean_markdown_content raw_content in
      let title := extract_title_from_content H content file_path in
      let category := categorize_document H relative_path in
      let* now := ask (utcnow_iso W) in
      ret (Some {| file_path := file_path;
                   relative_path := relative_path;
                   title := title;
                   content := content;
                   category := category;
                   metadata := JObj [
                     (lit "source_type", JStr (lit "markdown"));
                     (lit "file_path", JStr relative_path);
                     (lit "category", JStr category);
                     (lit "file_size", JInt (Z.of_nat (length content)));
                     (lit "extracted_at", JStr now);
                     (lit "repository", JStr (lit "anza-xyz/agave"))] |})
  end.

(** [SolanaDocProcessor.process_markdown_file] *)
Definition process_markdown_file (repo_path file_path : path)
    : M (option SolanaDocument) :=
  try_except (process_markdown_body repo_path file_path) (ret None).

(** One turn of the loop of [process_all_files]; the progress line it
    prints first computes the relative path, outside any [try]. *)
Definition process_step (repo_path : path) (documents : list SolanaDocument)
    (file_path : path) : M (list SolanaDocument) :=
  let* _ := lift (relative_to file_path repo_path) in
  let* doc := process_markdown_file repo_path file_path in
  match doc with
  | Some d => ret (documents ++ [d])
  | None => ret documents
  end.

(** [SolanaDocProcessor.process_all_files] *)
Definition process_all_files (repo_path : path) : M (list SolanaDocument) :=
  let* md_files := discover_markdown_files repo_path in
  for_acc md_files [] (process_step repo_path).

(** The values [store_documents] binds to [$1 .. $7]. *)
Definition document_values (doc : SolanaDocument) (embedding : list Float) : doc_values :=
  {| v_doc_type := lit "solana";
     v_source_name := lit "Solana Agave";
     v_doc_path := relative_path doc;
     v_content := content doc;
     v_metadata := json_dumps W (metadata doc);
     v_embedding := embedding;
     v_token_count := length (content doc) / 4 |}.

(** [DatabaseManager.store_documents] *)
Definition store_documents (documents : list SolanaDocument)
    (embeddings : list (list Float)) : M unit :=
  let* _ := connect W in
  let* _ := register_vector W in
  try_finally
    (for_each (combine documents embeddings)
       (fun de => execute W (SqlUpsertDocument (document_values (fst de) (snd de)))))
    close.

Definition embed_step (embeddings : list (list Float)) (doc : SolanaDocument)
    : M (list (list Float)) :=
  let* embedding := generate_embedding W (content doc) in
  ret (embeddings ++ [embedding]).

(** [main] *)
Definition main : M unit :=
  if negb (env_set W (lit "DATABASE_URL")) then raise (SystemExit 1)
  else if negb (env_set W (lit "OPENAI_API_KEY")) then raise (SystemExit 1)
  else if negb (path_exists W default_repo_path) then raise (SystemExit 1)
  else
    let* documents := process_all_files default_repo_path in
    match documents with
    | [] => ret tt
    | _ :: _ =>
        let* embeddings := for_acc documents [] embed_step in
        store_documents documents embeddings
    end.

End Script.
End Solana.

(** ** [ingest_solana_comprehensive.py] *)

Module SolanaComprehensive.

Record Heuristics := mk_Heuristics {
  extract_title_from_content : str -> path -> str -> str;
  categorize_document : str -> str -> str;
}.

Section Script.
Context `{P : Platform} (W : World) (H : Heuristics).

Record SolanaDocument := mk_document {
  file_path : path;
  relative_path : str;
  title : str;
  content : str;
  file_type : str;
  category : str;
  metadata : json;
}.

(** [ComprehensiveSolanaProcessor()] *)
Definition default_repo_path : path := [lit "solana-agave-full"].

Definition supported_extensions : list str :=
  map lit [".md"; ".mdx"; ".bob"; ".msc"; ".pdf"]%string.

Definition is_markdown (file_type : str) : bool :=
  str_eqb file_type (lit "md") || str_eqb file_type (lit "mdx").

(** [ComprehensiveSolanaProcessor.clean_content] *)
Definition clean_content (content file_type : str) : str :=
  if is_markdown file_type then clean_markdown_content content
  else if str_eqb file_type (lit "bob") || str_eqb file_type (lit "msc")
  then strip content
  else if str_eqb file_type (lit "pdf")
  then lit "[PDF Document: " ++ str_path_name content
         ++ lit "]" ++ NL ++ NL
         ++ lit "This is a PDF technical specification. Content requires PDF reader to view."
  else strip content.

Definition discover_step (repo_path : path) (doc_files : list path) (doc_file : path)
    : M (list path) :=
  let* rel := lift (relative_to doc_file repo_path) in
  let relative_path := path_str rel in
  if skipped relative_path then ret doc_files
  else ret (doc_files ++ [doc_file]).

Definition discover_extension (repo_path : path) (doc_files : list path) (ext : str)
    : M (list path) :=
  let* found := rglob W repo_path ext in
  for_acc found doc_files (discover_step repo_path).

(** [ComprehensiveSolanaProcessor.discover_documentation_files] *)
Definition discover_documentation_files (repo_path : path) : M (list path) :=
  for_acc supported_extensions [] (discover_extension repo_path).

(** The description that stands for the content of a PDF. *)
Definition pdf_description (title relative_path : str) : str :=
  lit "# " ++ title ++ NL ++ NL
  ++ lit "**File Type:** PDF Technical Specification" ++ NL
  ++ lit "**Location:** " ++ relative_path ++ NL
  ++ lit "**Repository:** anza-xyz/agave" ++ NL ++ NL
  ++ lit "This is a PDF document containing technical specifications for Solana's "
  ++ lower title
  ++ lit ". The PDF contains detailed mathematical proofs, algorithms, and implementation details."
  ++ NL ++ NL
  ++ lit "**To access the full content:** This document requires a PDF reader. The file is located at `"
  ++ relative_path ++ lit "` in the Agave repository." ++ NL ++ NL
  ++ lit "**Category:** Technical specification document" ++ NL
  ++ lit "**Format:** Portable Document Format (PDF)" ++ NL.

(** [Path(file_path).suffix[1:].lower()] *)
Definition file_extension_of (file_path : path) : str :=
  lower (suffix_without_dot (path_name file_path)).

(** The body of the [try] block of [process_documentation_file]. *)
Definition process_documentation_body (repo_path file_path : path)
    : M (option SolanaDocument) :=
  let* rel := lift (relative_to file_path repo_path) in
  let relative_path := path_str rel in
  let file_extension := file_extension_of file_path in
  let is_pdf := str_eqb file_extension (lit "pdf") in
  let* read :=
    (if is_pdf then
       let* file_size := read_file_size W file_path in
       ret (Some (path_str file_path, file_size))
     else
       let* raw_content := read_file W file_path in
       match strip raw_content with
       | [] => ret None
       | _ :: _ =>
           let content := clean_content raw_content file_extension in
           ret (Some (content, length content))
       end) in
  match read with
  | None => ret None
  | Some (content, file_size) =>
      let title := extract_title_from_content H content file_path file_extension in
      let category := categorize_document H relative_path file_extension in
      let* now := ask (utcnow_iso W) in
      let base_metadata :=
        [(lit "source_type", JStr file_extension);
         (lit "file_path", JStr relative_path);
         (lit "category", JStr category);
         (lit "file_size", JInt (Z.of_nat file_size));
         (lit "extracted_at", JStr now);
         (lit "repository", JStr (lit "anza-xyz/agave"));
         (lit "file_extension", JStr file_extension)] in
      let metadata :=
        if is_pdf
        then base_metadata ++ [(lit "is_pdf", JBool true);
                               (lit "pdf_path", JStr relative_path)]
        else base_metadata in
      let content := if is_pdf then pdf_description title relative_path else content in
      ret (Some {| file_path := file_path;
                   relative_path := relative_path;
                   title := title;
                   content := content;
                   file_type := file_extension;
                   category := category;
                   metadata := JObj metadata |})
  end.

(** [ComprehensiveSolanaProcessor.process_documentation_file] *)
Definition process_documentation_file (repo_path file_path : path)
    : M (option SolanaDocument) :=
  try_except (process_documentation_body repo_path file_path) (ret None).

(** One turn of the loop of [process_all_files]; the progress line it
    prints first computes the relative path, outside any [try]. *)
Definition process_step (repo_path : path) (documents : list SolanaDocument)
    (file_path : path) : M (list SolanaDocument) :=
  let* _ := lift (relative_to file_path repo_path) in
  let* doc := process_documentation_file repo_path file_path in
  match doc with
  | Some d => ret (documents ++ [d])
  | None => ret documents
  end.

(** [ComprehensiveSolanaProcessor.process_all_files] *)
Definition process_all_files (repo_path : path) : M (list SolanaDocument) :=
  let* doc_files := discover_documentation_files repo_path in
  for_acc doc_files [] (process_step repo_path).

(** The values [store_documents] binds to [$1 .. $7]. *)
Definition document_values (doc : SolanaDocument) (embedding : list Float) : doc_values :=
  {| v_doc_type := lit "solana";
     v_source_name := lit "Solana Agave";
     v_doc_path := relative_path doc;
     v_content := content doc;
     v_metadata := json_dumps W (metadata doc);
     v_embedding := embedding;
     v_token_count := length (content doc) / 4 |}.

(** [DatabaseManager.store_documents] *)
Definition store_documents (documents : list SolanaDocument)
    (embeddings : list (list Float)) : M unit :=
  let* _ := connect W in
  let* _ := register_vector W in
  try_finally
    (for_each (combine documents embeddings)
       (fun de => execute W (SqlUpsertDocument (document_values (fst de) (snd de)))))
    close.

Definition embed_step (embeddings : list (list Float)) (doc : SolanaDocument)
    : M (list (list Float)) :=
  let* embedding := generate_embedding W (content doc) in
  ret (embeddings ++ [embedding]).

(** [main] *)
Definition main : M unit :=
  if negb (env_set W (lit "DATABASE_URL")) then raise (SystemExit 1)
  else if negb (env_set W (lit "OPENAI_API_KEY")) then raise (SystemExit 1)
  else if negb (path_exists W default_repo_path) then raise (SystemExit 1)
  else
    let* documents := process_all_files default_repo_path in
    match documents with
    | [] => ret tt
    | _ :: _ =>
        let* embeddings := for_acc documents [] embed_step in
        store_documents documents embeddings
    end.

End Script.
End SolanaComprehensive.

(** ** Vocabulary of the specification *)

Section Vocabulary.
Context `{P : Platform}.

(** No two rows share [(doc_type, source_name, doc_path)]. *)
Definition unique_keys (t : list doc_row) : Prop :=
  NoDup (map key_of_row t).

Definition forget_updated_at (r : doc_row) : doc_row :=
  {| doc_type := doc_type r;
     source_name := source_name r;
     doc_path := doc_path r;
     content := content r;
     metadata := metadata r;
     embedding := embedding r;
     token_count := token_count r;
     updated_at := 0;
     doc_extra := doc_extra r |}.

(** The same rows in the same order, except for [updated_at]. *)
Definition same_up_to_updated_at (t1 t2 : list doc_row) : Prop :=
  map forget_updated_at t1 = map forget_updated_at t2.

(** The payload columns of [r] hold the values of [v]. *)
Definition payload_is (v : doc_values) (r : doc_row) : Prop :=
  content r = v_content v /\ metadata r = v_metadata v /\
  embedding r = v_embedding v /\ token_count r = v_token_count v.

(** A sequence of executions of the upsert statement, each with what
    Postgres supplied for it. *)
Definition run_steps (steps : list (pg_env * doc_values)) (t : list doc_row)
    : list doc_row :=
  fold_left (fun t s => upsert_document (fst s) (snd s) t) steps t.

(** The last step of a sequence that writes key [k]. *)
Fixpoint final_step (steps : list (pg_env * doc_values)) (k : doc_key)
    : option (pg_env * doc_values) :=
  match steps with
  | [] => None
  | s :: rest =>
      match final_step rest k with
      | Some x => Some x
      | None => if key_eqb k (key_of_values (snd s)) then Some s else None
      end
  end.

Definition apply_final (steps : list (pg_env * doc_values)) (r : doc_row) : doc_row :=
  match final_step steps (key_of_row r) with
  | Some s => do_update (fst s) (snd s) r
  | None => r
  end.

(** One document handed to the upsert statement, or the exception raised
    while its values were computed. *)
Definition try_upsert (W : World) (o : outcome doc_values) : M unit :=
  match o with
  | Ok v => execute W (SqlUpsertDocument v)
  | Raise e => raise e
  end.

(** The characters of a text that are not white space. *)
Definition visible (s : str) : str :=
  List.filter (fun c => negb (is_space c)) s.

(** A pattern every character class of which is within [\s]. *)
Definition space_item (it : re_item) : Prop :=
  match it with
  | One p | Many p => forall c, p c = true -> is_space c = true
  end.

(** The relative paths discovery keeps. *)
Definition kept (rel : path) : bool := negb (skipped (path_str rel)).

(** What a discovered file is: under the repository, not skipped, with a
    name that ends in the extension searched for. *)
Definition discovered (repo : path) (exts : list str) (f : path) : Prop :=
  exists rel ext,
    f = repo ++ rel /\
    relative_to f repo = Ok rel /\
    skipped (path_str rel) = false /\
    In ext exts /\
    endswith ext (path_name rel) = true.

(** ['/'] becomes ['_'], every other character stays. *)
Definition slash_to_underscore (c : chr) : chr :=
  if chr_eqb (chr_of "/"%char) c then (chr_of "_"%char) else c.

(** What [Birdeye.store_document] hands to the statement. *)
Definition birdeye_values (W : World) (endpoint : Birdeye.BirdEyeEndpoint)
    (embedding : list Float) : outcome doc_values :=
  match py_replace (Birdeye.path endpoint) (lit "/") (lit "_") with
  | Ok replaced =>
      Ok (Birdeye.document_values W
            (lower (Birdeye.method endpoint) ++ replaced) endpoint embedding)
  | Raise e => Raise e
  end.

(** The store operations of the four scripts. *)
Inductive store_op :=
| BirdeyeStoreDocument
    (endpoint : Birdeye.BirdEyeEndpoint) (embedding : list Float)
| BirdeyeStoreEndpoints
    (endpoints : list Birdeye.BirdEyeEndpoint) (embeddings : list (list Float))
| SimpleStoreEndpoints
    (endpoints : list BirdeyeSimple.BirdEyeEndpoint) (embeddings : list (list Float))
| SolanaStoreDocuments
    (documents : list Solana.SolanaDocument) (embeddings : list (list Float))
| ComprehensiveStoreDocuments
    (documents : list SolanaComprehensive.SolanaDocument)
    (embeddings : list (list Float)).

Definition run_store (W : World) (op : store_op) : M unit :=
  match op with
  | BirdeyeStoreDocument e emb => Birdeye.store_document W e emb
  | BirdeyeStoreEndpoints es embs => Birdeye.store_endpoints W es embs
  | SimpleStoreEndpoints es embs => BirdeyeSimple.store_endpoints W es embs
  | SolanaStoreDocuments ds embs => Solana.store_documents W ds embs
  | ComprehensiveStoreDocuments ds embs => SolanaComprehensive.store_documents W ds embs
  end.

(** The documents of an operation, in the order it stores them. *)
Definition op_values (W : World) (op : store_op) : list (outcome doc_values) :=
  match op with
  | BirdeyeStoreDocument e emb => [birdeye_values W e emb]
  | BirdeyeStoreEndpoints es embs =>
      map (fun ee => birdeye_values W (fst ee) (snd ee)) (combine es embs)
  | SimpleStoreEndpoints es embs =>
      map (fun ee => Ok (BirdeyeSimple.document_values W (fst ee) (snd ee)))
          (combine es embs)
  | SolanaStoreDocuments ds embs =>
      map (fun de => Ok (Solana.document_values W (fst de) (snd de)))
          (combine ds embs)
  | ComprehensiveStoreDocuments ds embs =>
      map (fun de => Ok (SolanaComprehensive.document_values W (fst de) (snd de)))
          (combine ds embs)
  end.

(** The documents an operation is given, each waiting for its embedding,
    and the embeddings it is given. *)
Definition op_documents (W : World) (op : store_op)
    : list (list Float -> outcome doc_values) :=
  match op with
  | BirdeyeStoreDocument e _ => [birdeye_values W e]
  | BirdeyeStoreEndpoints es _ => map (birdeye_values W) es
  | SimpleStoreEndpoints es _ =>
      map (fun e emb => Ok (BirdeyeSimple.document_values W e emb)) es
  | SolanaStoreDocuments ds _ =>
      map (fun d emb => Ok (Solana.document_values W d emb)) ds
  | ComprehensiveStoreDocuments ds _ =>
      map (fun d emb => Ok (SolanaComprehensive.document_values W d emb)) ds
  end.

Definition op_embeddings (op : store_op) : list (list Float) :=
  match op with
  | BirdeyeStoreDocument _ emb => [emb]
  | BirdeyeStoreEndpoints _ embs
  | SimpleStoreEndpoints _ embs
  | SolanaStoreDocuments _ embs
  | ComprehensiveStoreDocuments _ embs => embs
  end.


(** [effect D Q m]: whatever [m] returns or raises, it extends the trace
    by events in [Q] and takes the database to one related by [D]. *)
Definition effect {A} (D : database -> database -> Prop) (Q : event -> Prop)
    (m : M A) : Prop :=
  forall st, exists evs,
    trace (snd (m st)) = trace st ++ evs /\
    Forall Q evs /\
    D (db st) (db (snd (m st))).

(** [returns R m]: every value [m] returns satisfies [R]. *)
Definition returns {A} (R : A -> Prop) (m : M A) : Prop :=
  forall st a st', m st = (Ok a, st') -> R a.

(** [total m]: [m] returns, it does not raise. *)
Definition total {A} (m : M A) : Prop :=
  forall st, exists a, fst (m st) = Ok a.

(** The three phases of a run, by the external calls they make. *)
Definition is_fetch (e : event) : Prop :=
  match e with
  | EvHttpGet _ | EvSleep _ | EvRglob _ _ | EvReadText _ | EvReadBytes _
  | EvWriteFile _ => True
  | _ => False
  end.

Definition is_embed (e : event) : Prop :=
  match e with
  | EvEmbed _ | EvSleep _ => True
  | _ => False
  end.

Definition is_store (e : event) : Prop :=
  match e with
  | EvConnect | EvRegisterVector | EvSql _ | EvClose => True
  | _ => False
  end.

(** A trace extension in three phases: fetching and extracting, then
    embedding, then storing. *)
Definition three_phases (before after : list event) : Prop :=
  exists fetched embedded stored,
    after = before ++ fetched ++ embedded ++ stored /\
    Forall is_fetch fetched /\ Forall is_embed embedded /\ Forall is_store stored.

Definition two_phases (before after : list event) : Prop :=
  exists embedded stored,
    after = before ++ embedded ++ stored /\
    Forall is_embed embedded /\ Forall is_store stored.

Definition runs_in_three_phases {A} (m : M A) : Prop :=
  forall st, three_phases (trace st) (trace (snd (m st))).

Definition runs_in_two_phases {A} (m : M A) : Prop :=
  forall st, two_phases (trace st) (trace (snd (m st))).

(** The pipeline one document at a time: the upsert of a document comes
    before the fetch of every later document.  [fetch_of n] and
    [upsert_of n] are the fetch and the upsert of the [n]-th document. *)
Definition per_document_pipeline (tr : list event) (fetch_of upsert_of : nat -> event)
    : Prop :=
  forall a b i j,
    a < b ->
    tr !! i = Some (upsert_of a) ->
    tr !! j = Some (fetch_of b) ->
    i < j.

(** An outcome that is a value or a subclass of [Exception]. *)
Definition plain_failure {A} (o : outcome A) : Prop :=
  forall e, o = Raise e -> exists kind, e = Exception kind.

(** The request [extract_endpoint_data] makes for a documentation URL. *)
Definition request_of (url : str) : str :=
  Birdeye.api_url_of (last_piece (lit "/reference/") url).

(** [m] raises nothing but subclasses of [Exception]. *)
Definition raises_only_exceptions {A} (m : M A) : Prop :=
  forall st e st', m st = (Raise e, st') -> exists kind, e = Exception kind.

(** No event at all. *)
Definition no_event (e : event) : Prop := False.

(** The HTTP requests of a trace, in order. *)
Definition http_requests (tr : list event) : list str :=
  flat_map (fun e => match e with EvHttpGet url => [url] | _ => [] end) tr.

(** Any event. *)
Definition any_event (e : event) : Prop := True.

(** Any database. *)
Definition any_db (d d' : database) : Prop := True.

(** No row of the documents table has an empty content. *)
Definition no_empty_content (d : database) : Prop :=
  forall r, In r (documents d) -> content r <> [].

Definition keeps_no_empty_content (d d' : database) : Prop :=
  no_empty_content d -> no_empty_content d'.

(** A sequence of store operations; one that raises does not stop the
    next from being run. *)
Fixpoint run_stores (W : World) (ops : list store_op) (st : state) : state :=
  match ops with
  | [] => st
  | op :: rest => run_stores W rest (snd (run_store W op st))
  end.

End Vocabulary.

(** ** A small world for the examples *)

Definition demo_platform : Platform :=
  {| Float := Z;
     float_truthy := fun f => negb (Z.eqb f 0);
     DocExtra := nat;
     SrcExtra := nat |}.

Section Demo.
#[local] Existing Instance demo_platform.

(** Every page of the demo site describes the endpoint [GET <url>]. *)
Definition demo_page (url : str) : json :=
  JObj [(lit "data",
         JObj [(lit "title", JStr (lit "Price"));
               (lit "api", JObj [(lit "method", JStr (lit "get"));
                                 (lit "path", JStr url)])])].

Definition demo_tree : list path :=
  [[lit "README.md"];
   [lit "docs"; lit "intro.md"];
   [lit "docs"; lit "blank.md"];
   [lit "node_modules"; lit "pkg.md"];
   [lit "docs"; lit "spec.pdf"];
   [lit "notes.txt"]].

Definition demo_text (p : path) : option str :=
  if str_eqb (path_name p) (lit "blank.md")
  then Some (lit " " ++ [160; 8195; 133]%N ++ NL ++ lit " ")
  else Some (lit "# Intro" ++ NL ++ NL ++ NL ++ lit "Text.").

Definition demo_world : World :=
  {| getenv := fun _ => Some (lit "set");
     path_exists := fun _ => true;
     http_get := fun _ url => Some {| status_code := 200; body := url |};
     json_loads := fun s => Some (demo_page s);
     json_dumps := fun _ => lit "{}";
     json_dumps_indent := fun _ => lit "{}";
     py_str := fun _ => lit "?";
     utcnow_iso := fun _ => lit "2025-01-01T00:00:00";
     embeddings_create := fun _ _ => Some [1%Z; 2%Z];
     pg_reachable := fun _ => true;
     vector_registered := fun _ => true;
     pg := fun tr => {| current_timestamp := length tr;
                        default_updated_at := length tr;
                        default_doc_extra := length tr;
                        default_total_docs := 0;
                        default_total_tokens := 0;
                        default_src_extra := length tr |};
     fs_walk := fun _ _ => demo_tree;
     read_text := fun _ p => demo_text p;
     read_bytes_len := fun _ _ => Some 1024 |}.

(** The demo site when it is down: every request fails. *)
Definition offline_world : World :=
  {| getenv := getenv demo_world;
     path_exists := path_exists demo_world;
     http_get := fun _ _ => None;
     json_loads := json_loads demo_world;
     json_dumps := json_dumps demo_world;
     json_dumps_indent := json_dumps_indent demo_world;
     py_str := py_str demo_world;
     utcnow_iso := utcnow_iso demo_world;
     embeddings_create := embeddings_create demo_world;
     pg_reachable := pg_reachable demo_world;
     vector_registered := vector_registered demo_world;
     pg := pg demo_world;
     fs_walk := fs_walk demo_world;
     read_text := read_text demo_world;
     read_bytes_len := read_bytes_len demo_world |}.

(** The demo world with a database that does not know the [vector]
    type. *)
Definition vector_unknown_world : World :=
  {| getenv := getenv demo_world;
     path_exists := path_exists demo_world;
     http_get := http_get demo_world;
     json_loads := json_loads demo_world;
     json_dumps := json_dumps demo_world;
     json_dumps_indent := json_dumps_indent demo_world;
     py_str := py_str demo_world;
     utcnow_iso := utcnow_iso demo_world;
     embeddings_create := embeddings_create demo_world;
     pg_reachable := pg_reachable demo_world;
     vector_registered := fun _ => false;
     pg := pg demo_world;
     fs_walk := fs_walk demo_world;
     read_text := read_text demo_world;
     read_bytes_len := read_bytes_len demo_world |}.

(** The demo world with a repository that holds files whose whole name
    is an extension. *)
Definition bare_extension_world : World :=
  {| getenv := getenv demo_world;
     path_exists := path_exists demo_world;
     http_get := http_get demo_world;
     json_loads := json_loads demo_world;
     json_dumps := json_dumps demo_world;
     json_dumps_indent := json_dumps_indent demo_world;
     py_str := py_str demo_world;
     utcnow_iso := utcnow_iso demo_world;
     embeddings_create := embeddings_create demo_world;
     pg_reachable := pg_reachable demo_world;
     vector_registered := vector_registered demo_world;
     pg := pg demo_world;
     fs_walk := fun _ _ => [[lit ".md"]; [lit "docs"; lit "intro.md"];
                            [lit "docs"; lit ".pdf"]];
     read_text := read_text demo_world;
     read_bytes_len := read_bytes_len demo_world |}.

(** [Path(f).suffix] is one of the five supported extensions. *)
Definition has_supported_extension (f : path) : Prop :=
  In (suffix_without_dot (path_name f))
     (map lit ["md"; "mdx"; "bob"; "msc"; "pdf"]%string).

(** Every file [discover_documentation_files] returns has a supported
    extension. *)
Definition discovery_selects_supported (W : World) (repo : path) (st : state)
    : Prop :=
  forall files st' f,
    @SolanaComprehensive.discover_documentation_files demo_platform W repo st
    = (Ok files, st') ->
    In f files -> has_supported_extension f.

Definition empty_state : state :=
  {| trace := []; db := {| documents := []; document_sources := [] |} |}.

Definition demo_solana_doc : Solana.SolanaDocument :=
  {| Solana.file_path := [lit "solana-agave"; lit "docs"; lit "intro.md"];
     Solana.relative_path := lit "docs/intro.md";
     Solana.title := lit "Intro";
     Solana.content := lit "# Intro";
     Solana.category := lit "module-docs";
     Solana.metadata := JObj [] |}.

Definition demo_solana_readme : Solana.SolanaDocument :=
  {| Solana.file_path := [lit "solana-agave"; lit "README.md"];
     Solana.relative_path := lit "README.md";
     Solana.title := lit "Agave";
     Solana.content := lit "# Agave";
     Solana.category := lit "overview";
     Solana.metadata := JObj [] |}.

Definition demo_endpoint : Birdeye.BirdEyeEndpoint :=
  {| Birdeye.url := lit "https://docs.birdeye.so/reference/get-defi-price";
     Birdeye.title := JStr (lit "Price");
     Birdeye.method := lit "GET";
     Birdeye.path := JStr (lit "/defi/price");
     Birdeye.content := lit "# Price";
     Birdeye.metadata := JObj [] |}.

(** The run of [ingest_birdeye.main] in the demo world: its trace, the
    endpoints it extracts, and the fetch and the upsert of each. *)
Definition demo_birdeye_trace : list event :=
  trace (snd (Birdeye.main demo_world empty_state)).

Definition demo_extracted : list Birdeye.BirdEyeEndpoint :=
  match fst (Birdeye.extract_loop demo_world 3 0
               (firstn 3 Birdeye.discover_all_endpoints) [] empty_state) with
  | Ok endpoints => endpoints
  | Raise _ => []
  end.

Definition demo_fetch_of (n : nat) : event :=
  EvHttpGet (Birdeye.api_url_of
               (last_piece (lit "/reference/")
                  (nth n Birdeye.discover_all_endpoints []))).

Definition demo_upsert_of (n : nat) : event :=
  match nth_error demo_extracted n with
  | Some e =>
      match birdeye_values demo_world e [1%Z; 2%Z] with
      | Ok v => EvSql (SqlUpsertDocument v)
      | Raise _ => EvClose
      end
  | None => EvClose
  end.

Definition demo_heuristics : Solana.Heuristics :=
  {| Solana.extract_title_from_content := fun _ _ => lit "Intro";
     Solana.categorize_document := fun _ => lit "core-docs" |}.

Definition demo_comprehensive_heuristics : SolanaComprehensive.Heuristics :=
  {| SolanaComprehensive.extract_title_from_content := fun _ _ _ => lit "Intro";
     SolanaComprehensive.categorize_document := fun _ _ => lit "core-docs" |}.

Definition demo_spec : json :=
  JObj [(lit "paths",
         JObj [(lit "/defi/price",
                JObj [(lit "get", JObj [(lit "summary", JStr (lit "Price"))]);
                      (lit "parameters", JArr [])])])].

(** A specification with two method keys under one path that differ only
    in case. *)
Definition demo_spec_two_cases : json :=
  JObj [(lit "paths",
         JObj [(lit "/defi/price",
                JObj [(lit "get", JObj [(lit "summary", JStr (lit "Price"))]);
                      (lit "GET", JObj [(lit "summary", JStr (lit "Price again"))])])])].

Definition demo_simple_endpoint : BirdeyeSimple.BirdEyeEndpoint :=
  {| BirdeyeSimple.path := lit "/defi/price";
     BirdeyeSimple.method := lit "GET";
     BirdeyeSimple.title := JStr (lit "Price");
     BirdeyeSimple.description := JStr [];
     BirdeyeSimple.content := lit "# Price";
     BirdeyeSimple.metadata := JObj [] |}.

End Demo.

(** ** Further vocabulary *)

Section MoreVocabulary.
Context `{P : Platform}.

(** The store operations that open a connection of their own;
    [store_document] is handed one. *)
Definition opens_connection (op : store_op) : bool :=
  match op with
  | BirdeyeStoreDocument _ _ => false
  | _ => true
  end.

(** The store operations that register the vector type on their
    connection, before their [try]: those of [ingest_birdeye_simple.py] and
    of the two Solana scripts. *)
Definition registers_vector (op : store_op) : bool :=
  match op with
  | BirdeyeStoreDocument _ _ | BirdeyeStoreEndpoints _ _ => false
  | _ => true
  end.

(** A statement sent over an open connection. *)
Definition is_statement (e : event) : Prop :=
  match e with
  | EvSql _ => True
  | _ => False
  end.

End MoreVocabulary.

Section SourceVocabulary.
Context `{P : Platform}.

(** The [(doc_type, source_name)] under which a script stores. *)
Definition op_source (op : store_op) : str * str :=
  match op with
  | BirdeyeStoreDocument _ _ | BirdeyeStoreEndpoints _ _ =>
      (lit "birdeye", lit "birdeye-api")
  | SimpleStoreEndpoints _ _ => (lit "birdeye", lit "BirdEye API")
  | SolanaStoreDocuments _ _ | ComprehensiveStoreDocuments _ _ =>
      (lit "solana", lit "Solana Agave")
  end.

(** The statements a store operation can send. *)
Definition statement_of (op : store_op) (s : sql_stmt) : Prop :=
  match s with
  | SqlUpsertDocument v => (v_doc_type v, v_source_name v) = op_source op
  | SqlUpsertBirdeyeSource _ | SqlUpdateBirdeyeStats =>
      match op with
      | BirdeyeStoreEndpoints _ _ => True
      | _ => False
      end
  end.

Definition src_key (r : src_row) : str * str :=
  (src_doc_type r, src_source_name r).

(** The rows of the registry that are not the [birdeye-api] source. *)
Definition other_sources (t : list src_row) : list src_row :=
  List.filter (fun r => negb (is_birdeye_source r)) t.

(** The registry keeps its keys distinct and its other rows. *)
Definition keeps_registry (d d' : database) : Prop :=
  (NoDup (map src_key (document_sources d)) ->
   NoDup (map src_key (document_sources d'))) /\
  other_sources (document_sources d') = other_sources (document_sources d).

(** The rows of the documents table under another source stay where and
    as they are. *)
Definition keeps_other_documents (src : str * str) (d d' : database) : Prop :=
  forall i r,
    documents d !! i = Some r ->
    (doc_type r, source_name r) <> src ->
    documents d' !! i = Some r.

End SourceVocabulary.


(** ** Operations of an OpenAPI specification *)

Section SpecVocabulary.
Context `{P : Platform}.



End SpecVocabulary.

(** ** Pauses of a run *)

Section PauseVocabulary.
Context `{P : Platform}.

(** The arguments of the [time.sleep] calls of a trace, in order. *)
Definition pauses (tr : list event) : list nat :=
  flat_map (fun e => match e with EvSleep secs => [secs] | _ => [] end) tr.

(** What the extraction loop of [main] does for a list of URLs: a request
    for each URL of the expected form and, after every URL but the last,
    a pause. *)
Fixpoint extraction_events (delay : nat) (urls : list str) : list event :=
  match urls with
  | [] => []
  | url :: rest =>
      (if contains (lit "/reference/") url
       then [EvHttpGet (request_of url)] else [])
      ++ match rest with [] => [] | _ :: _ => [EvSleep delay] end
      ++ extraction_events delay rest
  end.

End PauseVocabulary.

(** ** Failed embedding requests *)

Section EmbeddingVocabulary.
Context `{P : Platform} (W : World).

(** [m] stops at an embedding request the API fails: the request is the
    last event of the run, the run raises the error of
    [generate_embedding], and the database is as it was before the run. *)
Definition stops_at_failed_embedding {A} (m : M A) : Prop :=
  forall st, exists added,
    trace (snd (m st)) = trace st ++ added /\
    forall before input after,
      added = before ++ EvEmbed input :: after ->
      embeddings_create W (trace st ++ before ++ [EvEmbed input]) input = None ->
      after = [] /\
      fst (m st) = Raise (Exception "EmbeddingError") /\
      db (snd (m st)) = db st.

End EmbeddingVocabulary.

(** The demo world with the embedding API down. *)
Definition embedding_down_world : @World demo_platform :=
  {| getenv := getenv demo_world;
     path_exists := path_exists demo_world;
     http_get := http_get demo_world;
     json_loads := json_loads demo_world;
     json_dumps := json_dumps demo_world;
     json_dumps_indent := json_dumps_indent demo_world;
     py_str := py_str demo_world;
     utcnow_iso := utcnow_iso demo_world;
     embeddings_create := fun _ _ => None;
     pg_reachable := pg_reachable demo_world;
     vector_registered := vector_registered demo_world;
     pg := pg demo_world;
     fs_walk := fs_walk demo_world;
     read_text := read_text demo_world;
     read_bytes_len := read_bytes_len demo_world |}.

(** ** What discovery finds *)

(** The files of a walk that discovery keeps for one extension, in the
    order of the walk. *)
Definition found_for (repo : path) (tree : list path) (ext : str) : list path :=
  map (app repo)
      (List.filter kept (List.filter (fun rel => endswith ext (path_name rel)) tree)).

(** ** [validate_migration.py]: the queries on the documents table *)

Module Validate.
Section Queries.
Context `{P : Platform}.

(** [GROUP BY] with the number of rows of each group: one more row for the
    group of [k], a new group when there is none. *)
Fixpoint bump {K} (eqb : K -> K -> bool) (k : K) (groups : list (K * nat))
    : list (K * nat) :=
  match groups with
  | [] => [(k, 1)]
  | g :: groups' =>
      if eqb (fst g) k then (fst g, S (snd g)) :: groups'
      else g :: bump eqb k groups'
  end.

Fixpoint group_count {K} (eqb : K -> K -> bool) (keys : list K) : list (K * nat) :=
  match keys with
  | [] => []
  | k :: keys' => bump eqb k (group_count eqb keys')
  end.

(** The number of occurrences of [k], and the size recorded for its
    group. *)
Definition occurrences {K} (eqb : K -> K -> bool) (k : K) (keys : list K) : nat :=
  length (List.filter (eqb k) keys).

Definition count_of {K} (eqb : K -> K -> bool) (k : K) (groups : list (K * nat)) : nat :=
  match find (fun g => eqb (fst g) k) groups with
  | Some g => snd g
  | None => 0
  end.

(** [ORDER BY document_count DESC]; the order among groups of the same
    size is left to Postgres, and no property below depends on the one
    taken here. *)
Fixpoint insert_desc {K} (g : K * nat) (sorted : list (K * nat)) : list (K * nat) :=
  match sorted with
  | [] => [g]
  | h :: sorted' =>
      if snd h <? snd g then g :: h :: sorted' else h :: insert_desc g sorted'
  end.

Definition order_by_count_desc {K} (groups : list (K * nat)) : list (K * nat) :=
  fold_right insert_desc [] groups.

(** A list of counts with the largest first. *)
Fixpoint largest_first (counts : list nat) : Prop :=
  match counts with
  | [] => True
  | n :: rest => List.Forall (fun m => m <= n) rest /\ largest_first rest
  end.

(** The query under "Count documents by type": the groups of [doc_type]
    with their sizes, the largest first. *)
Definition doc_counts (t : list doc_row) : list (str * nat) :=
  order_by_count_desc (group_count str_eqb (map doc_type t)).

(** [total_docs = sum([count[1] for count in doc_counts])] *)
Definition total_docs (t : list doc_row) : nat :=
  list_sum (map snd (doc_counts t)).

(** The query under "Check for duplicates": the groups of
    [(doc_type, source_name, doc_path)] that have more than one row. *)
Definition duplicates (t : list doc_row) : list (doc_key * nat) :=
  List.filter (fun g => 1 <? snd g) (group_count key_eqb (map key_of_row t)).

End Queries.
End Validate.

(** ** The title and category heuristics of [ingest_solana.py] *)

(** [Path(name).stem]: the name without its suffix. *)
Definition stem (name : str) : str :=
  match until_dot (rev name) with
  | Some (rev_after, rev_before) =>
      match rev_after, rev_before with
      | _ :: _, _ :: _ => rev rev_before
      | _, _ => name
      end
  | None => name
  end.

(** [s.count(sub)]: the occurrences of [sub] that do not overlap. *)
Definition count (sub s : str) : nat := length (split sub s) - 1.

(** The characters of a path that names nothing. *)
Definition dot_or_slash (c : chr) : Prop := c = (chr_of "."%char) \/ c = (chr_of "/"%char).

Module SolanaDocProcessor.

(** The two loops of [extract_title_from_content]: the text of the first
    line that starts with [marker] once stripped. *)
Fixpoint header_title (marker : str) (n : nat) (lines : list str) : option str :=
  match lines with
  | [] => None
  | line :: rest =>
      let line := strip line in
      if startswith marker line then Some (strip (skipn n line))
      else header_title marker n rest
  end.

(** The title taken from the file name. *)
Definition filename_title (file_path : path) : str :=
  let filename := stem (path_name file_path) in
  if str_eqb (lower filename) (lit "readme")
  then title_case (path_name (removelast file_path)) ++ lit " Module"
  else title_case (replace (lit "_") (lit " ") (replace (lit "-") (lit " ") filename)).

(** [SolanaDocProcessor.extract_title_from_content] *)
Definition extract_title_from_content (content : str) (file_path : path) : str :=
  let lines := split NL (strip content) in
  match header_title (lit "# ") 2 lines with
  | Some t => t
  | None =>
      match header_title (lit "## ") 3 lines with
      | Some t => t
      | None => filename_title file_path
      end
  end.

(** [SolanaDocProcessor.categorize_document]; [parts[0]] raises on a path
    without parts. *)
Definition categorize_document (relative_path : str) : outcome str :=
  let path_lower := lower relative_path in
  if contains (lit "docs/src/consensus") path_lower then Ok (lit "consensus")
  else if contains (lit "docs/src/cli") path_lower then Ok (lit "cli")
  else if contains (lit "docs/src/validator") path_lower then Ok (lit "validator")
  else if contains (lit "docs/src/runtime") path_lower then Ok (lit "runtime")
  else if contains (lit "docs/src/proposals") path_lower then Ok (lit "proposals")
  else if contains (lit "docs/src/operations") path_lower then Ok (lit "operations")
  else if contains (lit "docs/src") path_lower then Ok (lit "core-docs")
  else if contains (lit "readme.md") path_lower then
    let parts := path_parts relative_path in
    if 1 <? length parts
    then Ok (lit "module-" ++ nth (length parts - 2) parts [])
    else Ok (lit "module-readme")
  else if count SLASH relative_path =? 0 then Ok (lit "project-root")
  else
    match path_parts relative_path with
    | first_dir :: _ => Ok (lit "module-" ++ first_dir)
    | [] => Raise (Exception "IndexError")
    end.

End SolanaDocProcessor.

Module ComprehensiveSolanaProcessor.

(** [ComprehensiveSolanaProcessor.categorize_document] *)
Definition categorize_document (relative_path file_type : str) : outcome str :=
  let path_lower := lower relative_path in
  if str_eqb file_type (lit "bob") then Ok (lit "architecture-diagrams")
  else if str_eqb file_type (lit "msc") then Ok (lit "sequence-diagrams")
  else if str_eqb file_type (lit "pdf") then
    if contains (lit "zk-docs") path_lower then Ok (lit "zk-cryptography")
    else Ok (lit "technical-specs")
  else
    if contains (lit "docs/src/consensus") path_lower then Ok (lit "consensus")
    else if contains (lit "docs/src/cli") path_lower then Ok (lit "cli")
    else if contains (lit "docs/src/validator") path_lower then Ok (lit "validator")
    else if contains (lit "docs/src/runtime") path_lower then Ok (lit "runtime")
    else if contains (lit "docs/src/proposals") path_lower then Ok (lit "proposals")
    else if contains (lit "docs/src/operations") path_lower then Ok (lit "operations")
    else if contains (lit "docs/src") path_lower then Ok (lit "core-docs")
    else if contains (lit "readme.md") path_lower then
      let parts := path_parts relative_path in
      if 1 <? length parts
      then Ok (lit "module-" ++ nth (length parts - 2) parts [])
      else Ok (lit "module-readme")
    else if count SLASH relative_path =? 0 then Ok (lit "project-root")
    else
      match path_parts relative_path with
      | first_dir :: _ => Ok (lit "module-" ++ first_dir)
      | [] => Raise (Exception "IndexError")
      end.

End ComprehensiveSolanaProcessor.

(** ** What the embedding phase returns *)

Section EmbeddingResults.
Context `{P : Platform} (W : World).

(** [embedding] is what the API answered to the request for [text], sent
    after the calls of [before]. *)
Definition answer_for (text : str) (embedding : list Float) : Prop :=
  exists before,
    embeddings_create W (before ++ [EvEmbed (truncate_text text)]) (truncate_text text)
    = Some embedding.

(** The requests of the embedding phase for [texts], each followed by the
    calls of [pause]. *)
Definition embedding_requests (pause : list event) (texts : list str) : list event :=
  flat_map (fun text => EvEmbed (truncate_text text) :: pause) texts.

End EmbeddingResults.


(** ** Reading the discovered files *)

Section ReadVocabulary.
Context `{P : Platform}.

(** The read [process_documentation_file] makes of a file: its bytes when
    it is a PDF, its text otherwise. *)
Definition read_event (file_path : path) : event :=
  if str_eqb (SolanaComprehensive.file_extension_of file_path) (lit "pdf")
  then EvReadBytes file_path
  else EvReadText file_path.

(** [not raw_content.strip()] *)
Definition blank (raw_content : str) : bool :=
  match strip raw_content with [] => true | _ :: _ => false end.

(** Whether [process_markdown_file] makes a document of a file: the file
    can be read and is not blank.  [tr] is the trace at the read. *)
Definition markdown_gives_document (W : World) (tr : list event) (f : path) : bool :=
  match read_text W tr f with
  | Some raw_content => negb (blank raw_content)
  | None => false
  end.

(** The same for [process_documentation_file]: a PDF has to be readable,
    another file readable and not blank. *)
Definition documentation_gives_document (W : World) (tr : list event) (f : path)
    : bool :=
  if str_eqb (SolanaComprehensive.file_extension_of f) (lit "pdf")
  then match read_bytes_len W tr f with Some _ => true | None => false end
  else markdown_gives_document W tr f.

(** The files of a list that give a document when they are read one after
    the other, starting from trace [tr]. *)
Fixpoint files_with_documents (gives : list event -> path -> bool)
    (read : path -> event) (tr : list event) (files : list path) : list path :=
  match files with
  | [] => []
  | f :: rest =>
      (if gives (tr ++ [read f]) f then [f] else [])
      ++ files_with_documents gives read (tr ++ [read f]) rest
  end.

End ReadVocabulary.

(* ================================================================== *)
(** * Part II. Properties                                              *)
(* ================================================================== *)

Example split_reference :
  split (lit "/reference/") (lit "https://docs.birdeye.so/reference/get-defi-price")
  = [lit "https://docs.birdeye.so"; lit "get-defi-price"].
Proof. reflexivity. Qed.

Example replace_slash : replace (lit "/") (lit "_") (lit "/defi/price") = lit "_defi_price".
Proof. reflexivity. Qed.

Example title_example : title_case (lit "hello wORLD-foo") = lit "Hello World-Foo".
Proof. reflexivity. Qed.

(** White space is that of Unicode: the no-break space U+00A0, the em
    space U+2003 and the next-line character U+0085 are stripped. *)
Example is_space_example :
  map is_space [160; 8195; 133; 32; 10; 97; 8203]%N
  = [true; true; true; true; true; false; false].
Proof. reflexivity. Qed.

Example strip_example :
  strip ([160]%N ++ lit " a b" ++ [8195; 133]%N) = lit "a b".
Proof. reflexivity. Qed.

Example path_name_examples :
  map str_path_name (map lit ["docs/spec.pdf/"; "docs/spec.pdf"; "spec.pdf"; "a/./"; "/"]%string)
  = map lit ["spec.pdf"; "spec.pdf"; "spec.pdf"; "a"; ""]%string.
Proof. reflexivity. Qed.

Example count_words_example : count_words (lit "  a bc   d ") = 3.
Proof. reflexivity. Qed.

(** ** Strings *)

Lemma chr_eqb_eq (a b : chr) : chr_eqb a b = true <-> a = b.
Proof. unfold chr_eqb. apply N.eqb_eq. Qed.

Lemma chr_eqb_refl (a : chr) : chr_eqb a a = true.
Proof. by apply chr_eqb_eq. Qed.

Lemma str_eqb_eq (a b : str) : str_eqb a b = true <-> a = b.
Proof.
  revert b. induction a as [|x a IH]; intros [|y b]; simpl; try (split; congruence).
  rewrite andb_true_iff, chr_eqb_eq, IH. split.
  - intros [-> ->]. reflexivity.
  - intros [= -> ->]. done.
Qed.

Lemma str_eqb_refl (a : str) : str_eqb a a = true.
Proof. by apply str_eqb_eq. Qed.

Lemma str_eqb_neq (a b : str) : str_eqb a b = false <-> a <> b.
Proof.
  destruct (str_eqb a b) eqn:E.
  - apply str_eqb_eq in E. split; [discriminate | contradiction].
  - split; [|done]. intros _ ->. by rewrite str_eqb_refl in E.
Qed.

(** ** The truncation of [generate_embedding] *)

Lemma length_TRUNCATED_MARK : length TRUNCATED_MARK = 15.
Proof. reflexivity. Qed.

Lemma truncate_text_short (text : str) :
  length text <= MAX_CHARS -> truncate_text text = text.
Proof.
  intros Hle. unfold truncate_text.
  destruct (Nat.ltb_spec MAX_CHARS (length text)); [lia | reflexivity].
Qed.

Lemma truncate_text_long (text : str) :
  MAX_CHARS < length text ->
  truncate_text text = firstn MAX_CHARS text ++ TRUNCATED_MARK.
Proof.
  intros Hlt. unfold truncate_text.
  destruct (Nat.ltb_spec MAX_CHARS (length text)); [reflexivity | lia].
Qed.

Lemma length_truncate_text_long (text : str) :
  MAX_CHARS < length text -> length (truncate_text text) = MAX_CHARS + 15.
Proof.
  intros Hlt. rewrite truncate_text_long by done.
  rewrite length_app, length_take_le, length_TRUNCATED_MARK by lia. reflexivity.
Qed.

(** C8.  Truncating twice is truncating once: a text within the budget is
    kept, and a longer one becomes its first [MAX_CHARS] characters followed
    by the mark, which the second pass cuts and appends again. *)
Theorem truncate_text_idempotent (text : str) :
  truncate_text (truncate_text text) = truncate_text text.
Proof.
  destruct (Nat.le_gt_cases (length text) MAX_CHARS) as [Hle | Hlt].
  - rewrite (truncate_text_short text Hle). by apply truncate_text_short.
  - pose proof (length_truncate_text_long text Hlt) as Hlen.
    rewrite (truncate_text_long (truncate_text text)) by lia.
    rewrite (truncate_text_long text Hlt).
    rewrite take_app_length' by (rewrite length_take_le; lia).
    reflexivity.
Qed.

(** ** Running the monad *)

Ltac run_monad :=
  unfold bind, ret, raise, lift, emit, ask, try_except, try_finally in *;
  simpl in *.

Section EmbeddingFacts.
Context `{P : Platform} (W : World).

(** Whatever the API answers, the request carries the truncated text. *)
Lemma generate_embedding_submits (text : str) (st : state) :
  trace (snd (generate_embedding W text st))
  = trace st ++ [EvEmbed (truncate_text text)].
Proof.
  unfold generate_embedding. run_monad.
  destruct (embeddings_create W _ _); reflexivity.
Qed.

End EmbeddingFacts.

(** A text one character over the budget. *)
Example over_budget_text_length : length (repeat (chr_of "a"%char) (MAX_CHARS + 1)) = MAX_CHARS + 1.
Proof. apply repeat_length. Qed.

(** C4.  The budget is missed: for a text of [MAX_CHARS + 1] characters the
    string submitted to the embedding API has [MAX_CHARS + 15] characters,
    the kept prefix and the mark appended to it. *)
Theorem generate_embedding_over_budget `{P : Platform} (W : World) (st : state) :
  exists submitted,
    trace (snd (generate_embedding W (repeat (chr_of "a"%char) (MAX_CHARS + 1)) st))
    = trace st ++ [EvEmbed submitted] /\
    length submitted = MAX_CHARS + 15 /\
    MAX_CHARS < length submitted.
Proof.
  exists (truncate_text (repeat (chr_of "a"%char) (MAX_CHARS + 1))).
  split; [apply generate_embedding_submits|].
  rewrite length_truncate_text_long; [lia|].
  rewrite repeat_length. lia.
Qed.

(** ** The upsert statement on the documents table *)

Section DatabaseFacts.
Context `{P : Platform}.

Implicit Types (t : list doc_row) (v : doc_values) (env : pg_env) (r : doc_row).
Implicit Types (steps : list (pg_env * doc_values)) (k : doc_key).

Lemma key_eqb_eq (a b : doc_key) : key_eqb a b = true <-> a = b.
Proof.
  destruct a as [[a1 a2] a3], b as [[b1 b2] b3]. simpl.
  rewrite !andb_true_iff, !str_eqb_eq. split.
  - intros [[-> ->] ->]. reflexivity.
  - intros [= -> -> ->]. done.
Qed.

Lemma key_eqb_refl (a : doc_key) : key_eqb a a = true.
Proof. by apply key_eqb_eq. Qed.

Lemma key_eqb_refl' (a b : doc_key) : a = b -> key_eqb a b = true.
Proof. apply key_eqb_eq. Qed.

Lemma key_eqb_neq (a b : doc_key) : key_eqb a b = false <-> a <> b.
Proof.
  destruct (key_eqb a b) eqn:E.
  - apply key_eqb_eq in E. split; [discriminate | contradiction].
  - split; [|done]. intros _ ->. by rewrite key_eqb_refl in E.
Qed.

Lemma key_update_if_conflict env v r :
  key_of_row (update_if_conflict env v r) = key_of_row r.
Proof. unfold update_if_conflict. by destruct (key_eqb _ _). Qed.

Lemma conflict_elem_of v t :
  existsb (fun r => key_eqb (key_of_row r) (key_of_values v)) t = true
  <-> elem_of (key_of_values v) (map key_of_row t).
Proof.
  induction t as [|r t IH]; cbn [existsb map].
  - split; [discriminate | intros H; inversion H].
  - rewrite orb_true_iff, IH, key_eqb_eq, elem_of_cons.
    split; (intros [H | H]; [left; congruence | by right]).
Qed.

Lemma no_conflict_not_elem_of v t :
  existsb (fun r => key_eqb (key_of_row r) (key_of_values v)) t = false
  <-> ~ elem_of (key_of_values v) (map key_of_row t).
Proof.
  rewrite <- conflict_elem_of. by destruct (existsb _ _).
Qed.

Lemma key_present_or_absent v t :
  elem_of (key_of_values v) (map key_of_row t)
  \/ ~ elem_of (key_of_values v) (map key_of_row t).
Proof.
  destruct (existsb (fun r => key_eqb (key_of_row r) (key_of_values v)) t) eqn:E.
  - left. by apply conflict_elem_of.
  - right. by apply no_conflict_not_elem_of.
Qed.

(** With the key present the statement rewrites rows in place ... *)
Lemma upsert_present env v t :
  elem_of (key_of_values v) (map key_of_row t) ->
  upsert_document env v t = map (update_if_conflict env v) t.
Proof.
  intros Hin. unfold upsert_document.
  apply conflict_elem_of in Hin. by rewrite Hin.
Qed.

(** ... and with the key absent it appends one row. *)
Lemma upsert_absent env v t :
  ~ elem_of (key_of_values v) (map key_of_row t) ->
  upsert_document env v t = t ++ [inserted_row env v].
Proof.
  intros Hin. unfold upsert_document.
  apply no_conflict_not_elem_of in Hin. by rewrite Hin.
Qed.

Lemma keys_map_update env v t :
  map key_of_row (map (update_if_conflict env v) t) = map key_of_row t.
Proof.
  rewrite map_map. apply map_ext. intros r. apply key_update_if_conflict.
Qed.

Lemma keys_upsert_present env v t :
  elem_of (key_of_values v) (map key_of_row t) ->
  map key_of_row (upsert_document env v t) = map key_of_row t.
Proof. intros Hin. rewrite upsert_present by done. apply keys_map_update. Qed.

Lemma keys_upsert_absent env v t :
  ~ elem_of (key_of_values v) (map key_of_row t) ->
  map key_of_row (upsert_document env v t) = map key_of_row t ++ [key_of_values v].
Proof. intros Hin. rewrite upsert_absent by done. by rewrite map_app. Qed.

Lemma keys_upsert_mono env v t k :
  elem_of k (map key_of_row t) ->
  elem_of k (map key_of_row (upsert_document env v t)).
Proof.
  intros Hk.
  destruct (key_present_or_absent v t) as [Hin | Hin].
  - by rewrite keys_upsert_present.
  - rewrite keys_upsert_absent by done. apply elem_of_app. by left.
Qed.

Lemma keys_upsert_self env v t :
  elem_of (key_of_values v) (map key_of_row (upsert_document env v t)).
Proof.
  destruct (key_present_or_absent v t) as [Hin | Hin].
  - by rewrite keys_upsert_present.
  - rewrite keys_upsert_absent by done. apply elem_of_app. right. constructor.
Qed.

Lemma upsert_unique_keys env v t :
  unique_keys t -> unique_keys (upsert_document env v t).
Proof.
  unfold unique_keys. intros Hnd.
  destruct (key_present_or_absent v t) as [Hin | Hin].
  - by rewrite keys_upsert_present.
  - rewrite keys_upsert_absent by done.
    apply NoDup_app. split; [done|]. split.
    + intros k Hk Hk'. apply list_elem_of_singleton in Hk'. by subst.
    + apply NoDup_singleton.
Qed.

Lemma run_steps_unique_keys steps t :
  unique_keys t -> unique_keys (run_steps steps t).
Proof.
  revert t. induction steps as [|s steps IH]; intros t Hnd; simpl; [done|].
  apply IH. by apply upsert_unique_keys.
Qed.

Lemma run_steps_app steps1 steps2 t :
  run_steps (steps1 ++ steps2) t = run_steps steps2 (run_steps steps1 t).
Proof. unfold run_steps. apply fold_left_app. Qed.

Lemma keys_run_steps_mono steps t k :
  elem_of k (map key_of_row t) ->
  elem_of k (map key_of_row (run_steps steps t)).
Proof.
  revert t. induction steps as [|s steps IH]; intros t Hk; simpl; [done|].
  apply IH. by apply keys_upsert_mono.
Qed.

(** Every key a sequence writes is in the table afterwards. *)
Lemma keys_run_steps_cover steps t s :
  elem_of s steps ->
  elem_of (key_of_values (snd s)) (map key_of_row (run_steps steps t)).
Proof.
  revert t. induction steps as [|s0 steps IH]; intros t Hs; [inversion Hs|].
  apply elem_of_cons in Hs as [-> | Hs]; simpl.
  - apply keys_run_steps_mono, keys_upsert_self.
  - by apply IH.
Qed.

Lemma upsert_in env v t r' :
  In r' (upsert_document env v t) ->
  (exists r, In r t /\ r' = update_if_conflict env v r)
  \/ (r' = inserted_row env v /\ ~ elem_of (key_of_values v) (map key_of_row t)).
Proof.
  destruct (key_present_or_absent v t) as [Hin | Hin].
  - rewrite upsert_present by done. intros Hr.
    apply List.in_map_iff in Hr as (r & <- & Hr). left. eauto.
  - rewrite upsert_absent by done. intros Hr.
    apply List.in_app_iff in Hr as [Hr | [<- | []]].
    + left. exists r'. split; [done|].
      unfold update_if_conflict.
      destruct (key_eqb (key_of_row r') (key_of_values v)) eqn:E; [|done].
      apply key_eqb_eq in E. exfalso. apply Hin. rewrite <- E.
      apply list_elem_of_In, List.in_map, Hr.
    + by right.
Qed.

Lemma payload_do_update env v r : payload_is v (do_update env v r).
Proof. by repeat split. Qed.

(** After the statement, the rows under its key carry its values. *)
Lemma upsert_payload env v t r' :
  In r' (upsert_document env v t) ->
  key_of_row r' = key_of_values v -> payload_is v r'.
Proof.
  intros Hr Hk. apply upsert_in in Hr as [(r & Hr & ->) | [-> _]].
  - revert Hk. unfold update_if_conflict.
    destruct (key_eqb (key_of_row r) (key_of_values v)) eqn:E.
    + intros _. apply payload_do_update.
    + intros Hk. apply key_eqb_neq in E. contradiction.
  - by repeat split.
Qed.

(** The statement leaves the rows under every other key as they are. *)
Lemma upsert_other env v t k (Q : doc_row -> Prop) :
  key_of_values v <> k ->
  (forall r, In r t -> key_of_row r = k -> Q r) ->
  forall r', In r' (upsert_document env v t) -> key_of_row r' = k -> Q r'.
Proof.
  intros Hne HQ r' Hr Hk. apply upsert_in in Hr as [(r & Hr & ->) | [-> _]].
  - revert Hk. unfold update_if_conflict.
    destruct (key_eqb (key_of_row r) (key_of_values v)) eqn:E.
    + apply key_eqb_eq in E. cbn. intros Hk.
      exfalso. apply Hne. rewrite <- E. exact Hk.
    + by apply HQ.
  - cbn in Hk. contradiction.
Qed.

Lemma final_step_none_cons s steps k :
  final_step (s :: steps) k = None ->
  key_of_values (snd s) <> k /\ final_step steps k = None.
Proof.
  cbn [final_step]. destruct (final_step steps k); [discriminate|].
  destruct (key_eqb k (key_of_values (snd s))) eqn:E; [discriminate|].
  apply key_eqb_neq in E. intros _. split; [congruence | done].
Qed.

Lemma run_steps_other steps t k (Q : doc_row -> Prop) :
  final_step steps k = None ->
  (forall r, In r t -> key_of_row r = k -> Q r) ->
  forall r', In r' (run_steps steps t) -> key_of_row r' = k -> Q r'.
Proof.
  revert t. induction steps as [|s steps IH]; intros t Hnone HQ; [done|].
  apply final_step_none_cons in Hnone as [Hne Hnone].
  cbn [run_steps fold_left]. apply IH; [done|].
  by apply upsert_other.
Qed.

(** After a sequence of statements every row carries the values of the
    last statement that wrote its key. *)
Lemma run_steps_payload steps t r s :
  In r (run_steps steps t) ->
  final_step steps (key_of_row r) = Some s ->
  payload_is (snd s) r.
Proof.
  revert t. induction steps as [|s0 steps IH]; intros t Hr Hfin; [discriminate|].
  cbn [final_step] in Hfin. cbn [run_steps fold_left] in Hr.
  destruct (final_step steps (key_of_row r)) as [s'|] eqn:E.
  - injection Hfin as ->. by eapply IH.
  - destruct (key_eqb (key_of_row r) (key_of_values (snd s0))) eqn:Ek; [|discriminate].
    injection Hfin as <-. apply key_eqb_eq in Ek.
    eapply (run_steps_other steps _ (key_of_row r)); [done| |exact Hr|done].
    intros r0 Hr0 Hk0. apply (upsert_payload (fst s0) (snd s0) t); [done|congruence].
Qed.

Lemma do_update_update_if_conflict env1 v1 env2 v2 r :
  do_update env2 v2 (update_if_conflict env1 v1 r) = do_update env2 v2 r.
Proof. unfold update_if_conflict. by destruct (key_eqb _ _). Qed.

(** A sequence all of whose keys are already in the table rewrites each
    row with the last statement for its key, and adds none. *)
Lemma run_steps_present steps t :
  (forall s, elem_of s steps ->
             elem_of (key_of_values (snd s)) (map key_of_row t)) ->
  run_steps steps t = map (apply_final steps) t.
Proof.
  revert t. induction steps as [|s steps IH]; intros t Hall.
  - cbn. symmetry. apply map_id.
  - cbn [run_steps fold_left].
    rewrite upsert_present by (apply Hall; left).
    change (fold_left _ steps ?x) with (run_steps steps x).
    rewrite IH.
    2:{ intros s' Hs'. rewrite keys_map_update. apply Hall. by right. }
    rewrite map_map. apply map_ext. intros r.
    unfold apply_final. rewrite key_update_if_conflict. cbn [final_step].
    destruct (final_step steps (key_of_row r)) as [s'|].
    + apply do_update_update_if_conflict.
    + unfold update_if_conflict. by destruct (key_eqb _ _).
Qed.

Lemma final_step_same_values steps1 steps2 k s2 :
  map snd steps1 = map snd steps2 ->
  final_step steps2 k = Some s2 ->
  exists s1, final_step steps1 k = Some s1 /\ snd s1 = snd s2.
Proof.
  revert steps2. induction steps1 as [|a steps1 IH]; intros [|b steps2] Hmap Hfin;
    try discriminate.
  injection Hmap as Hab Hmap. cbn [final_step] in *.
  destruct (final_step steps2 k) as [x|] eqn:E.
  - injection Hfin as ->. destruct (IH _ Hmap E) as (s1 & -> & Hs1). eauto.
  - destruct (key_eqb k (key_of_values (snd b))) eqn:Ek; [|discriminate].
    injection Hfin as <-.
    destruct (final_step steps1 k) as [y|] eqn:E1.
    + exfalso. clear IH.
      assert (Hnone : forall st1 st2 : list (pg_env * doc_values),
                 map snd st1 = map snd st2 ->
                 final_step st2 k = None -> final_step st1 k = None).
      { induction st1 as [|c st1 IHs]; intros [|d st2] Hm Hn; try discriminate; [done|].
        injection Hm as Hcd Hm. cbn [final_step] in *.
        destruct (final_step st2 k) eqn:E2; [discriminate|].
        rewrite (IHs _ Hm E2). rewrite Hcd.
        by destruct (key_eqb k (key_of_values (snd d))). }
      rewrite (Hnone _ _ Hmap E) in E1. discriminate.
    + rewrite Hab, Ek. eauto.
Qed.

Lemma forget_do_update env v r :
  payload_is v r -> forget_updated_at (do_update env v r) = forget_updated_at r.
Proof.
  intros (H1 & H2 & H3 & H4). unfold forget_updated_at, do_update. cbn.
  by rewrite H1, H2, H3, H4.
Qed.

(** The heart of C1: running the same values a second time changes at
    most the [updated_at] column. *)
Lemma run_steps_twice steps1 steps2 t :
  map snd steps1 = map snd steps2 ->
  same_up_to_updated_at (run_steps steps2 (run_steps steps1 t)) (run_steps steps1 t).
Proof.
  intros Hmap. unfold same_up_to_updated_at.
  rewrite run_steps_present.
  - rewrite map_map. apply map_ext_in. intros r Hr.
    unfold apply_final.
    destruct (final_step steps2 (key_of_row r)) as [s2|] eqn:E; [|done].
    destruct (final_step_same_values steps1 steps2 _ _ Hmap E) as (s1 & E1 & Hs).
    apply forget_do_update. rewrite <- Hs. by eapply run_steps_payload.
  - intros s2 Hs2.
    assert (elem_of (snd s2) (map snd steps1)) as Hin.
    { rewrite Hmap. apply list_elem_of_In, List.in_map, list_elem_of_In, Hs2. }
    apply list_elem_of_In, List.in_map_iff in Hin as (s1 & Hs & Hin).
    rewrite <- Hs. apply keys_run_steps_cover. by apply list_elem_of_In.
Qed.

Lemma map_update_absent env v t :
  ~ elem_of (key_of_values v) (map key_of_row t) ->
  map (update_if_conflict env v) t = t.
Proof.
  induction t as [|r t IH]; intros Hnin; [done|]. cbn [map] in *.
  rewrite IH by (intros H; apply Hnin; by right). f_equal.
  unfold update_if_conflict.
  destruct (key_eqb (key_of_row r) (key_of_values v)) eqn:E; [|done].
  apply key_eqb_eq in E. exfalso. apply Hnin. rewrite E. by left.
Qed.

(** The heart of C7: on a conflict exactly one row is replaced, by itself
    with the five columns of [DO UPDATE SET] rewritten. *)
Lemma upsert_conflict_frame env v t :
  unique_keys t ->
  elem_of (key_of_values v) (map key_of_row t) ->
  exists i r,
    t !! i = Some r /\ key_of_row r = key_of_values v /\
    upsert_document env v t = <[i := do_update env v r]> t.
Proof.
  intros Hnd Hin. rewrite upsert_present by done.
  revert Hnd Hin. unfold unique_keys.
  induction t as [|r t IH]; intros Hnd Hin; [inversion Hin|].
  cbn [map] in *. apply NoDup_cons in Hnd as [Hr Hnd].
  destruct (key_eqb (key_of_row r) (key_of_values v)) eqn:E.
  - exists 0, r. apply key_eqb_eq in E. split; [done|]. split; [done|].
    cbn. unfold update_if_conflict at 1. rewrite key_eqb_refl' by done.
    rewrite map_update_absent; [done|]. by rewrite <- E.
  - apply key_eqb_neq in E.
    apply elem_of_cons in Hin as [Hin | Hin]; [congruence|].
    destruct (IH Hnd Hin) as (i & r0 & Hi & Hk & Heq).
    exists (S i), r0. split; [done|]. split; [done|].
    cbn. rewrite Heq. f_equal.
    unfold update_if_conflict.
    destruct (key_eqb (key_of_row r) (key_of_values v)) eqn:E'; [|done].
    apply key_eqb_eq in E'. contradiction.
Qed.

End DatabaseFacts.

(** ** The store operations *)

Section StoreFacts.
Context `{P : Platform} (W : World).

Lemma for_each_ext {A} (l : list A) (f g : A -> M unit) (st : state) :
  (forall x st0, f x st0 = g x st0) ->
  for_each l f st = for_each l g st.
Proof.
  intros Hfg. revert st. induction l as [|x l IH]; intros st; [done|].
  cbn [for_each]. unfold bind. rewrite Hfg.
  destruct (g x st) as [[[]|e] st1]; [apply IH | done].
Qed.

Lemma execute_upsert_run (v : doc_values) (st : state) :
  exists steps,
    documents (db (snd (execute W (SqlUpsertDocument v) st)))
    = run_steps steps (documents (db st)) /\
    document_sources (db (snd (execute W (SqlUpsertDocument v) st)))
    = document_sources (db st) /\
    (fst (execute W (SqlUpsertDocument v) st) = Ok tt ->
     exists env, steps = [(env, v)]).
Proof.
  unfold execute. run_monad.
  destruct (pg_reachable W _).
  - eexists [(_, v)]. cbn. eauto.
  - exists []. cbn. repeat split. discriminate.
Qed.

Lemma try_upsert_run (o : outcome doc_values) (st : state) :
  exists steps,
    documents (db (snd (try_upsert W o st))) = run_steps steps (documents (db st)) /\
    document_sources (db (snd (try_upsert W o st))) = document_sources (db st) /\
    (fst (try_upsert W o st) = Ok tt -> exists env v, o = Ok v /\ steps = [(env, v)]).
Proof.
  destruct o as [v | e]; cbn [try_upsert].
  - destruct (execute_upsert_run v st) as (steps & H1 & H2 & H3).
    exists steps. repeat split; [done..|].
    intros Hok. destruct (H3 Hok) as (env & ->). eauto.
  - exists []. cbn. repeat split. discriminate.
Qed.

(** A loop of upserts is a run of the statement over the documents it
    reached, all of them if it did not raise. *)
Lemma for_each_upsert_run {A} (g : A -> outcome doc_values) (l : list A) (st : state) :
  exists steps,
    documents (db (snd (for_each l (fun x => try_upsert W (g x)) st)))
    = run_steps steps (documents (db st)) /\
    document_sources (db (snd (for_each l (fun x => try_upsert W (g x)) st)))
    = document_sources (db st) /\
    (fst (for_each l (fun x => try_upsert W (g x)) st) = Ok tt ->
     Forall2 (fun o s => o = Ok (snd s)) (map g l) steps).
Proof.
  revert st. induction l as [|x l IH]; intros st.
  - exists []. cbn. repeat split. constructor.
  - cbn [for_each]. unfold bind.
    destruct (try_upsert_run (g x) st) as (steps1 & H1 & H2 & H3).
    destruct (try_upsert W (g x) st) as [[[]|e] st1]; cbn [fst snd] in *.
    + destruct (IH st1) as (steps2 & H4 & H5 & H6).
      exists (steps1 ++ steps2). rewrite run_steps_app, <- H1, H4, H5, H2.
      repeat split. intros Hok.
      destruct (H3 eq_refl) as (env & v & Hg & ->).
      cbn. constructor; [done | by apply H6].
    + exists steps1. repeat split; [done..|discriminate].
Qed.

End StoreFacts.

Section StoreRuns.
Context `{P : Platform} (W : World).

Lemma store_document_try_upsert e emb st :
  Birdeye.store_document W e emb st = try_upsert W (birdeye_values W e emb) st.
Proof.
  unfold Birdeye.store_document, birdeye_values, bind, lift.
  by destruct (py_replace _ _ _).
Qed.

(** The shape shared by [store_endpoints] of the simple script and the two
    [store_documents]: connect, register the vector type, upsert each
    document, close. *)
Lemma batch_store_run {A} (g : A -> outcome doc_values) (body : A -> M unit)
    (l : list A) (st : state) :
  (forall x st0, body x st0 = try_upsert W (g x) st0) ->
  let m := (let* _ := connect W in
            let* _ := register_vector W in
            try_finally (for_each l body) close) in
  exists steps,
    documents (db (snd (m st))) = run_steps steps (documents (db st)) /\
    (fst (m st) = Ok tt ->
     Forall2 (fun o s => o = Ok (snd s)) (map g l) steps).
Proof.
  intros Hbody m. subst m.
  unfold connect, register_vector, close.
  unfold bind, ask, emit, try_finally, ret, raise. cbn [trace db fst snd].
  destruct (pg_reachable W (trace st ++ [EvConnect])).
  - cbn [trace db]. destruct (vector_registered W _).
    + cbn [trace db].
      match goal with |- context [for_each l body ?s] => set (st1 := s) end.
      rewrite (for_each_ext l body _ st1 Hbody).
      destruct (for_each_upsert_run W g l st1) as (steps & H1 & _ & H3).
      destruct (for_each l _ st1) as [r st2]. cbn [fst snd trace db] in *.
      exists steps. split; [exact H1 | exact H3].
    + exists []. cbn. split; [done | discriminate].
  - exists []. cbn. split; [done | discriminate].
Qed.

Lemma birdeye_store_endpoints_run es embs st :
  exists steps,
    documents (db (snd (Birdeye.store_endpoints W es embs st)))
    = run_steps steps (documents (db st)) /\
    (fst (Birdeye.store_endpoints W es embs st) = Ok tt ->
     Forall2 (fun o s => o = Ok (snd s))
       (op_values W (BirdeyeStoreEndpoints es embs)) steps).
Proof.
  unfold Birdeye.store_endpoints, Birdeye.ensure_document_source,
    Birdeye.update_source_stats, connect, close, execute.
  unfold bind, ask, emit, try_finally, ret, raise. cbn [trace db fst snd].
  destruct (pg_reachable W (trace st ++ [EvConnect])).
  2:{ exists []. cbn. split; [done | discriminate]. }
  cbn [trace db].
  destruct (pg_reachable W _).
  2:{ exists []. cbn. split; [done | discriminate]. }
  cbn [trace db run_sql].
  match goal with |- context [for_each ?l ?b ?s] => set (st1 := s); set (body := b) end.
  rewrite (for_each_ext _ body
             (fun ee => try_upsert W (birdeye_values W (fst ee) (snd ee))) st1)
    by (intros; apply store_document_try_upsert).
  destruct (for_each_upsert_run W (fun ee => birdeye_values W (fst ee) (snd ee))
              (combine es embs) st1) as (steps & H1 & _ & H3).
  destruct (for_each _ _ st1) as [[[]|e] st2]; cbn [fst snd trace db] in *.
  - destruct (pg_reachable W _); cbn [fst snd trace db run_sql documents].
    + exists steps. split; [exact H1 | intros _; by apply H3].
    + exists steps. split; [exact H1 | discriminate].
  - exists steps. split; [exact H1 | discriminate].
Qed.

(** Every store operation is a run of the upsert statement on the
    documents table, over all its documents when it does not raise. *)
Lemma run_store_run (op : store_op) (st : state) :
  exists steps,
    documents (db (snd (run_store W op st))) = run_steps steps (documents (db st)) /\
    (fst (run_store W op st) = Ok tt ->
     Forall2 (fun o s => o = Ok (snd s)) (op_values W op) steps).
Proof.
  destruct op as [e emb | es embs | es embs | ds embs | ds embs];
    cbn [run_store op_values].
  - rewrite store_document_try_upsert.
    destruct (try_upsert_run W (birdeye_values W e emb) st) as (steps & H1 & _ & H3).
    exists steps. split; [done|]. intros Hok.
    destruct (H3 Hok) as (env & v & -> & ->). by repeat constructor.
  - apply birdeye_store_endpoints_run.
  - apply (batch_store_run
             (fun ee => Ok (BirdeyeSimple.document_values W (fst ee) (snd ee)))).
    done.
  - apply (batch_store_run
             (fun de => Ok (Solana.document_values W (fst de) (snd de)))).
    done.
  - apply (batch_store_run
             (fun de => Ok (SolanaComprehensive.document_values W (fst de) (snd de)))).
    done.
Qed.

Lemma same_values_steps (os : list (outcome doc_values))
    (steps1 steps2 : list (pg_env * doc_values)) :
  Forall2 (fun o s => o = Ok (snd s)) os steps1 ->
  Forall2 (fun o s => o = Ok (snd s)) os steps2 ->
  map snd steps1 = map snd steps2.
Proof.
  intros H1. revert steps2. induction H1 as [|o s1 os steps1 Ho _ IH];
    intros steps2 H2; inversion H2 as [|? s2 ? steps2' Ho2 H2']; subst; [done|].
  cbn. f_equal; [congruence | by apply IH].
Qed.

End StoreRuns.

(** ** C1, C2, C7: the upsert as the scripts run it *)

Ltac concrete_not_elem_of :=
  let H := fresh in
  intros H;
  repeat (apply elem_of_cons in H as [H | H]; [discriminate|]);
  inversion H.

Ltac concrete_elem_of :=
  apply list_elem_of_In; cbn;
  repeat ((left; reflexivity) || right).

(** C1.  The document upsert is idempotent: on a documents table with
    distinct keys, a store operation of any of the scripts
    ([store_document], [store_endpoints], [store_documents]) executed twice
    with the same inputs leaves the table it left the first time, up to
    [updated_at]. *)
Theorem store_idempotent `{P : Platform} (W : World) (op : store_op) (st : state) :
  unique_keys (documents (db st)) ->
  fst (run_store W op st) = Ok tt ->
  fst (run_store W op (snd (run_store W op st))) = Ok tt ->
  same_up_to_updated_at
    (documents (db (snd (run_store W op (snd (run_store W op st))))))
    (documents (db (snd (run_store W op st)))).
Proof.
  intros _ Hok1 Hok2.
  destruct (run_store_run W op st) as (steps1 & H1 & F1).
  destruct (run_store_run W op (snd (run_store W op st))) as (steps2 & H2 & F2).
  rewrite H2, H1. apply run_steps_twice.
  eapply same_values_steps; [apply F1 | apply F2]; assumption.
Qed.

Lemma store_idempotent_witness :
  let op := SolanaStoreDocuments [demo_solana_doc; demo_solana_doc] [[1%Z]; [2%Z]] in
  same_up_to_updated_at
    (documents (db (snd (run_store demo_world op
                           (snd (run_store demo_world op empty_state))))))
    (documents (db (snd (run_store demo_world op empty_state)))).
Proof.
  intros op. apply (store_idempotent demo_world op empty_state).
  - constructor.
  - reflexivity.
  - reflexivity.
Defined.

Lemma run_stores_run `{P : Platform} (W : World) (ops : list store_op) (st : state) :
  exists steps,
    documents (db (run_stores W ops st)) = run_steps steps (documents (db st)).
Proof.
  revert st. induction ops as [|op ops IH]; intros st; cbn [run_stores].
  - by exists [].
  - destruct (run_store_run W op st) as (steps1 & H1 & _).
    destruct (IH (snd (run_store W op st))) as (steps2 & H2).
    exists (steps1 ++ steps2). by rewrite run_steps_app, <- H1.
Qed.

Section FrameFacts.
Context `{P : Platform}.

Lemma lookup_map {A B} (f : A -> B) (l : list A) (i : nat) (x : A) :
  l !! i = Some x -> map f l !! i = Some (f x).
Proof.
  revert i. induction l as [|y l IH]; intros [|i]; cbn; try done.
  - by intros [= ->].
  - apply IH.
Qed.

(** The statement never moves a row: the row at an index stays there,
    rewritten if its key is the one stored. *)
Lemma upsert_lookup (env : pg_env) (v : doc_values) (t : list doc_row)
    (i : nat) (r : doc_row) :
  t !! i = Some r ->
  upsert_document env v t !! i = Some (update_if_conflict env v r).
Proof.
  intros Hi. destruct (key_present_or_absent v t) as [Hin | Hin].
  - rewrite upsert_present by done. by apply lookup_map.
  - rewrite upsert_absent by done.
    rewrite lookup_app_l by (by eapply lookup_lt_Some).
    rewrite Hi. f_equal. unfold update_if_conflict.
    destruct (key_eqb (key_of_row r) (key_of_values v)) eqn:E; [|done].
    apply key_eqb_eq in E. exfalso. apply Hin. rewrite <- E.
    apply list_elem_of_In, List.in_map. apply list_elem_of_In.
    by eapply list_elem_of_lookup_2.
Qed.

Lemma run_steps_lookup (steps : list (pg_env * doc_values)) (t : list doc_row)
    (i : nat) (r : doc_row) :
  t !! i = Some r ->
  exists r',
    run_steps steps t !! i = Some r' /\
    key_of_row r' = key_of_row r /\
    doc_extra r' = doc_extra r /\
    ((forall s, In s steps -> key_of_values (snd s) <> key_of_row r) -> r' = r).
Proof.
  revert t r. induction steps as [|s steps IH]; intros t r Hi.
  - exists r. by repeat split.
  - cbn [run_steps fold_left].
    pose proof (upsert_lookup (fst s) (snd s) t i r Hi) as H1.
    destruct (IH _ _ H1) as (r' & Hr' & Hk & He & Hsame).
    exists r'. split; [exact Hr'|].
    rewrite key_update_if_conflict in Hk. split; [exact Hk|]. split.
    + rewrite He. unfold update_if_conflict. by destruct (key_eqb _ _).
    + intros Hother.
      assert (update_if_conflict (fst s) (snd s) r = r) as Hr.
      { unfold update_if_conflict.
        destruct (key_eqb (key_of_row r) (key_of_values (snd s))) eqn:E; [|done].
        apply key_eqb_eq in E. exfalso. apply (Hother s); [by left | done]. }
      etrans; [|exact Hr]. apply Hsame. intros s' Hs'.
      rewrite key_update_if_conflict. apply Hother. by right.
Qed.

Lemma values_of_steps (os : list (outcome doc_values))
    (steps : list (pg_env * doc_values)) (s : pg_env * doc_values) :
  Forall2 (fun o s => o = Ok (snd s)) os steps ->
  In s steps -> In (Ok (snd s)) os.
Proof.
  induction 1 as [|o s0 os steps Ho _ IH]; intros Hin; [done|].
  destruct Hin as [-> | Hin]; [left; done | right; by apply IH].
Qed.


End FrameFacts.



Example demo_run_has_three_rows :
  length (documents (db (run_stores demo_world
       [SolanaStoreDocuments [demo_solana_doc; demo_solana_doc] [[1%Z]; [2%Z]];
        BirdeyeStoreDocument demo_endpoint [3%Z];
        SimpleStoreEndpoints [demo_simple_endpoint] [[4%Z]];
        BirdeyeStoreEndpoints [demo_endpoint] [[5%Z]]]
       empty_state))) = 3.
Proof. reflexivity. Qed.


(** C7.  When the key of a stored document is already in the table, the
    store operation changes one row, and in it the columns [content],
    [metadata], [embedding], [token_count] and [updated_at]: the key
    columns and the other columns of that row, and every other row, stay.
    For an operation that stores several documents: no row moves or
    changes its key or its other columns, and a row whose key is not among
    the documents stored is left as it was. *)
Theorem upsert_conflict_changes_payload_only `{P : Platform} (W : World)
    (op : store_op) (st : state) :
  unique_keys (documents (db st)) ->
  fst (run_store W op st) = Ok tt ->
  (forall v,
      op_values W op = [Ok v] ->
      elem_of (key_of_values v) (map key_of_row (documents (db st))) ->
      exists i r now,
        documents (db st) !! i = Some r /\
        key_of_row r = key_of_values v /\
        documents (db (snd (run_store W op st)))
        = <[i := {| doc_type := doc_type r;
                    source_name := source_name r;
                    doc_path := doc_path r;
                    content := v_content v;
                    metadata := v_metadata v;
                    embedding := v_embedding v;
                    token_count := v_token_count v;
                    updated_at := now;
                    doc_extra := doc_extra r |}]> (documents (db st))) /\
  (forall i r,
      documents (db st) !! i = Some r ->
      exists r',
        documents (db (snd (run_store W op st))) !! i = Some r' /\
        doc_type r' = doc_type r /\
        source_name r' = source_name r /\
        doc_path r' = doc_path r /\
        doc_extra r' = doc_extra r /\
        ((forall v, In (Ok v) (op_values W op) -> key_of_values v <> key_of_row r) ->
         r' = r)).
Proof.
  intros Hnd Hok.
  destruct (run_store_run W op st) as (steps & H1 & F1).
  specialize (F1 Hok). split.
  - intros v Hv Hin. rewrite Hv in F1.
    inversion F1 as [|o s os steps' Ho Hrest]; subst.
    inversion Hrest; subst. injection Ho as ->.
    destruct (upsert_conflict_frame (fst s) (snd s) _ Hnd Hin) as (i & r & Hi & Hk & Heq).
    exists i, r, (current_timestamp (fst s)).
    split; [done|]. split; [done|]. rewrite H1. exact Heq.
  - intros i r Hi. rewrite H1.
    destruct (run_steps_lookup steps _ i r Hi) as (r' & Hr' & Hk & He & Hsame).
    exists r'. split; [done|].
    injection Hk as Hk1 Hk2 Hk3. repeat split; try done.
    intros Hother. apply Hsame. intros s Hs. apply Hother.
    by apply (values_of_steps _ steps).
Qed.

Lemma upsert_conflict_changes_payload_only_witness :
  let op := BirdeyeStoreDocument demo_endpoint [3%Z] in
  let st := run_stores demo_world
              [SolanaStoreDocuments [demo_solana_doc] [[1%Z]];
               BirdeyeStoreDocument demo_endpoint [7%Z]] empty_state in
  exists i r now,
    documents (db st) !! i = Some r /\
    key_of_row r = (lit "birdeye", lit "birdeye-api", lit "get_defi_price") /\
    documents (db (snd (run_store demo_world op st)))
    = <[i := {| doc_type := doc_type r;
                source_name := source_name r;
                doc_path := doc_path r;
                content := lit "# Price";
                metadata := lit "{}";
                embedding := ([3%Z] : list (@Float demo_platform));
                token_count := 2;
                updated_at := now;
                doc_extra := doc_extra r |}]> (documents (db st)).
Proof.
  intros op st.
  assert (unique_keys (documents (db st))) as Hnd
    by (vm_compute; repeat constructor; concrete_not_elem_of).
  destruct (upsert_conflict_changes_payload_only demo_world op st Hnd eq_refl)
    as [Hone _].
  apply (Hone (Birdeye.document_values demo_world (lit "get_defi_price")
                 demo_endpoint [3%Z])).
  - reflexivity.
  - vm_compute. concrete_elem_of.
Defined.

(** ** C3: how [doc_path] is derived *)

Lemma split_from_nonempty (sep : str) (skip : nat) (cur s : str) :
  split_from sep skip cur s <> [].
Proof.
  revert skip cur. induction s as [|c s IH]; intros skip cur; cbn [split_from]; [done|].
  destruct skip; [|apply IH]. destruct (startswith sep (c :: s)); [done | apply IH].
Qed.

Lemma join_cons (sep p : str) (l : list str) :
  l <> [] -> join sep (p :: l) = p ++ sep ++ join sep l.
Proof. destruct l; [done | reflexivity]. Qed.

Lemma replace_char_from (a b : chr) (cur s : str) :
  join [b] (split_from [a] 0 cur s)
  = rev cur ++ map (fun c => if chr_eqb a c then b else c) s.
Proof.
  revert cur. induction s as [|c s IH]; intros cur.
  - cbn. by rewrite app_nil_r.
  - cbn [split_from startswith map]. rewrite andb_true_r.
    destruct (chr_eqb a c) eqn:E.
    + cbn [length Nat.sub].
      rewrite join_cons by apply split_from_nonempty.
      rewrite IH. reflexivity.
    + rewrite IH. cbn [rev]. by rewrite <- app_assoc.
Qed.

(** [s.replace(a, b)] for two characters is a character-wise map. *)
Lemma replace_char (a b : chr) (s : str) :
  replace [a] [b] s = map (fun c => if chr_eqb a c then b else c) s.
Proof. unfold replace, split. apply replace_char_from. Qed.

Lemma relative_to_app (p base rel : path) :
  relative_to p base = Ok rel <-> p = base ++ rel.
Proof.
  revert p. induction base as [|b base IH]; intros p; cbn [relative_to app].
  - split; [by intros [= ->] | by intros ->].
  - destruct p as [|c p]; [split; discriminate|].
    destruct (str_eqb b c) eqn:E.
    + apply str_eqb_eq in E. subst c. rewrite IH. split; [by intros -> | by intros [= ->]].
    + apply str_eqb_neq in E. split; [discriminate | intros [= -> _]; done].
Qed.

Section DocPathFacts.
Context `{P : Platform} (W : World).



Lemma for_acc_invariant {A B} (I : B -> Prop) (body : B -> A -> M B)
    (l : list A) (acc : B) (st : state) (r : B) (st' : state) :
  (forall acc0 x st0 acc1 st1,
      In x l -> I acc0 -> body acc0 x st0 = (Ok acc1, st1) -> I acc1) ->
  I acc ->
  for_acc l acc body st = (Ok r, st') -> I r.
Proof.
  revert acc st. induction l as [|x l IH]; intros acc st Hbody Hacc; cbn [for_acc].
  - unfold ret. by intros [= <- _].
  - unfold bind. destruct (body acc x st) as [[acc1|e] st1] eqn:E; [|discriminate].
    apply IH.
    + intros acc0 y st0 acc2 st2 Hy. apply Hbody. by right.
    + eapply Hbody; [by left | exact Hacc | exact E].
Qed.





End DocPathFacts.


Example birdeye_doc_path_example :
  lower (lit "GET") ++ map slash_to_underscore (lit "/defi/price") = lit "get_defi_price".
Proof. reflexivity. Qed.


(** ** White space, [strip] and the cleaning of markdown *)

Lemma visible_app (a b : str) : visible (a ++ b) = visible a ++ visible b.
Proof. apply List.filter_app. Qed.

Lemma visible_rev (s : str) : visible (rev s) = rev (visible s).
Proof. apply List.filter_rev. Qed.

Lemma visible_nil_iff (s : str) :
  visible s = [] <-> Forall (fun c => is_space c = true) s.
Proof.
  induction s as [|c s IH]; cbn [visible List.filter].
  - split; [constructor | done].
  - destruct (is_space c) eqn:E; cbn [negb].
    + fold (visible s). rewrite IH. split; [by constructor | by inversion 1].
    + split; [discriminate | inversion 1; congruence].
Qed.

Lemma visible_lstrip (s : str) : visible (lstrip s) = visible s.
Proof.
  induction s as [|c s IH]; [done|]. cbn [lstrip visible List.filter].
  destruct (is_space c) eqn:E; cbn [negb]; [exact IH|].
  cbn [List.filter]. by rewrite E.
Qed.

Lemma visible_strip (s : str) : visible (strip s) = visible s.
Proof.
  unfold strip, rstrip.
  by rewrite visible_rev, visible_lstrip, visible_rev, rev_involutive, visible_lstrip.
Qed.

Lemma lstrip_all_space (s : str) :
  Forall (fun c => is_space c = true) s -> lstrip s = [].
Proof.
  induction 1 as [|c s Hc _ IH]; [done|]. cbn [lstrip]. by rewrite Hc.
Qed.

(** A text of white space only strips to the empty string. *)
Lemma strip_all_space (s : str) :
  Forall (fun c => is_space c = true) s -> strip s = [].
Proof. intros H. unfold strip. by rewrite lstrip_all_space. Qed.

Lemma lstrip_head (s : str) (c : chr) (rest : str) :
  lstrip s = c :: rest -> is_space c = false.
Proof.
  induction s as [|x s IH]; [discriminate|]. cbn [lstrip].
  destruct (is_space x) eqn:E; [exact IH | by intros [= <- _]].
Qed.

Lemma visible_nonempty (s : str) : visible s <> [] -> s <> [].
Proof. by intros H ->. Qed.

Lemma strip_nonempty_visible (s : str) : strip s <> [] -> visible s <> [].
Proof.
  intros Hs Hv. apply Hs. apply strip_all_space. by apply visible_nil_iff.
Qed.

Lemma match_here_space (pat : list re_item) (s : str) (n : nat) :
  Forall space_item pat ->
  match_here pat s = Some n ->
  Forall (fun c => is_space c = true) (firstn n s).
Proof.
  intros Hpat. revert s n.
  induction Hpat as [|it pat Hit _ IH]; intros s n.
  - cbn. intros [= <-]. constructor.
  - destruct it as [p | p]; cbn [match_here].
    + destruct s as [|c s]; [discriminate|].
      destruct (p c) eqn:Hc; [|discriminate].
      destruct (match_here pat s) as [m|] eqn:Hm; [|discriminate].
      cbn. intros [= <-]. cbn [firstn]. constructor; [by apply Hit | by apply IH].
    + revert n. induction s as [|c s IHs]; intros n.
      * apply IH.
      * destruct (p c) eqn:Hc; [|apply IH].
        match goal with |- context [match ?m with Some _ => _ | None => _ end] =>
          destruct m as [k|] eqn:Hk end.
        -- intros [= <-]. cbn [firstn]. constructor; [by apply Hit | by apply IHs].
        -- apply IH.
Qed.

Lemma visible_all_space (s : str) :
  Forall (fun c => is_space c = true) s -> visible s = [].
Proof. apply visible_nil_iff. Qed.

(** Substituting white space for white space keeps the visible text. *)
Lemma visible_re_sub_from (pat : list re_item) (repl : str) (skip : nat) (s : str) :
  Forall space_item pat ->
  visible repl = [] ->
  Forall (fun c => is_space c = true) (firstn skip s) ->
  visible (re_sub_from pat repl skip s) = visible s.
Proof.
  intros Hpat Hrepl. revert skip.
  induction s as [|c s IH]; intros skip Hskip; [done|].
  cbn [re_sub_from]. destruct skip as [|k].
  - destruct (match_here pat (c :: s)) as [[|n]|] eqn:Hm.
    + cbn [visible List.filter]. destruct (negb (is_space c));
        fold (visible s) (visible (re_sub_from pat repl 0 s));
        rewrite IH by constructor; reflexivity.
    + pose proof (match_here_space pat _ _ Hpat Hm) as Hsp.
      cbn [firstn] in Hsp. apply Forall_cons in Hsp as [Hc Hsp].
      rewrite visible_app, Hrepl, IH by done. cbn [app visible List.filter].
      by rewrite Hc.
    + cbn [visible List.filter]. destruct (negb (is_space c));
        fold (visible s) (visible (re_sub_from pat repl 0 s));
        rewrite IH by constructor; reflexivity.
  - cbn [firstn] in Hskip. apply Forall_cons in Hskip as [Hc Hskip].
    rewrite IH by done. cbn [visible List.filter]. by rewrite Hc.
Qed.

Lemma visible_re_sub_at_start (pat : list re_item) (repl s : str) :
  Forall space_item pat ->
  visible repl = [] ->
  visible (re_sub_at_start pat repl s) = visible s.
Proof.
  intros Hpat Hrepl. unfold re_sub_at_start.
  destruct (match_here pat s) as [n|] eqn:Hm; [|done].
  pose proof (match_here_space pat _ _ Hpat Hm) as Hsp.
  rewrite <- (firstn_skipn n s) at 2.
  rewrite !visible_app, Hrepl, (visible_all_space _ Hsp). reflexivity.
Qed.

Lemma is_nl_space (c : chr) : is_nl c = true -> is_space c = true.
Proof. unfold is_nl. intros H. apply chr_eqb_eq in H. by subst. Qed.

Lemma blank_lines_re_space : Forall space_item blank_lines_re.
Proof. repeat constructor; cbn; auto using is_nl_space. Qed.

Lemma leading_blank_re_space : Forall space_item leading_blank_re.
Proof. repeat constructor; cbn; auto using is_nl_space. Qed.

(** Cleaning removes white space only. *)
Lemma visible_clean_markdown_content (s : str) :
  visible (clean_markdown_content s) = visible s.
Proof.
  unfold clean_markdown_content, re_sub.
  rewrite visible_strip.
  rewrite visible_re_sub_at_start by (apply leading_blank_re_space || done).
  apply visible_re_sub_from; [apply blank_lines_re_space | done | constructor].
Qed.

Lemma clean_markdown_content_nonempty (s : str) :
  strip s <> [] -> clean_markdown_content s <> [].
Proof.
  intros H. apply visible_nonempty. rewrite visible_clean_markdown_content.
  by apply strip_nonempty_visible.
Qed.

Example clean_markdown_example :
  clean_markdown_content
    (NL ++ lit "  " ++ NL ++ lit "# A" ++ NL ++ lit " " ++ NL ++ NL ++ NL ++ lit "b  ")
  = lit "# A" ++ NL ++ NL ++ lit "b".
Proof. reflexivity. Qed.

(** A no-break space on a line of its own is white space between two
    line ends. *)
Example clean_markdown_no_break_space :
  clean_markdown_content (lit "a" ++ NL ++ [160]%N ++ NL ++ NL ++ lit "b")
  = lit "a" ++ NL ++ NL ++ lit "b".
Proof. reflexivity. Qed.

(** ** C9: file discovery *)

Section DiscoveryFacts.
Context `{P : Platform} (W : World).

Lemma solana_discover_loop (repo : path) (rels : list path) (acc : list path)
    (st : state) :
  for_acc (map (app repo) rels) acc (Solana.discover_step repo) st
  = (Ok (acc ++ map (app repo) (List.filter kept rels)), st).
Proof.
  revert acc. induction rels as [|rel rels IH]; intros acc;
    cbn [map for_acc List.filter].
  - unfold ret. by rewrite app_nil_r.
  - unfold bind at 1. unfold Solana.discover_step at 1. unfold bind, lift.
    rewrite (proj2 (relative_to_app (repo ++ rel) repo rel) eq_refl).
    unfold kept at 1. destruct (skipped (path_str rel)); cbn [negb]; unfold ret.
    + apply IH.
    + rewrite IH. cbn [map]. by rewrite <- app_assoc.
Qed.

Lemma comprehensive_discover_loop (repo : path) (rels : list path) (acc : list path)
    (st : state) :
  for_acc (map (app repo) rels) acc (SolanaComprehensive.discover_step repo) st
  = (Ok (acc ++ map (app repo) (List.filter kept rels)), st).
Proof.
  revert acc. induction rels as [|rel rels IH]; intros acc;
    cbn [map for_acc List.filter].
  - unfold ret. by rewrite app_nil_r.
  - unfold bind at 1. unfold SolanaComprehensive.discover_step at 1. unfold bind, lift.
    rewrite (proj2 (relative_to_app (repo ++ rel) repo rel) eq_refl).
    unfold kept at 1. destruct (skipped (path_str rel)); cbn [negb]; unfold ret.
    + apply IH.
    + rewrite IH. cbn [map]. by rewrite <- app_assoc.
Qed.

Lemma skipped_false (relative_path : str) :
  skipped relative_path = false <->
  forall pattern, In pattern skip_patterns -> contains pattern relative_path = false.
Proof.
  unfold skipped. split.
  - intros H pattern Hin.
    destruct (contains pattern relative_path) eqn:E; [|done].
    assert (existsb (fun p => contains p relative_path) skip_patterns = true) as Ht
      by (apply List.existsb_exists; eauto).
    congruence.
  - intros H. destruct (existsb _ _) eqn:E; [|done].
    apply List.existsb_exists in E as (p & Hp & Hc). rewrite H in Hc; done.
Qed.

Lemma discovered_filter (repo : path) (ext : str) (exts : list str)
    (tree : list path) (f : path) :
  In ext exts ->
  In f (map (app repo)
          (List.filter kept
             (List.filter (fun rel => endswith ext (path_name rel)) tree))) ->
  discovered repo exts f.
Proof.
  intros Hext Hin. apply List.in_map_iff in Hin as (rel & <- & Hin).
  apply List.filter_In in Hin as [Hin Hkept].
  apply List.filter_In in Hin as [_ Hend].
  exists rel, ext. repeat split; try done.
  - by apply relative_to_app.
  - unfold kept in Hkept. by destruct (skipped _).
Qed.

Lemma discover_markdown_files_run (repo : path) (st : state) :
  exists files st',
    Solana.discover_markdown_files W repo st = (Ok files, st') /\
    db st' = db st /\
    Forall (discovered repo [lit ".md"]) files.
Proof.
  unfold Solana.discover_markdown_files, rglob, bind, emit, ask, ret.
  cbn [trace db]. rewrite solana_discover_loop. cbn [app].
  eexists _, _. split; [reflexivity|]. split; [reflexivity|].
  apply List.Forall_forall. intros f Hin.
  eapply discovered_filter; [|exact Hin]. by left.
Qed.

Lemma discover_extension_run (repo : path) (exts : list str) (acc : list path)
    (ext : str) (st : state) :
  In ext exts ->
  Forall (discovered repo exts) acc ->
  exists files st',
    SolanaComprehensive.discover_extension W repo acc ext st = (Ok files, st') /\
    db st' = db st /\
    Forall (discovered repo exts) files.
Proof.
  intros Hext Hacc.
  unfold SolanaComprehensive.discover_extension, rglob, bind, emit, ask, ret.
  cbn [trace db]. rewrite comprehensive_discover_loop.
  eexists _, _. split; [reflexivity|]. split; [reflexivity|].
  apply Forall_app. split; [done|].
  apply List.Forall_forall. intros f Hin.
  eapply discovered_filter; [exact Hext | exact Hin].
Qed.

Lemma discover_extensions_run (repo : path) (exts todo : list str) (acc : list path)
    (st : state) :
  (forall ext, In ext todo -> In ext exts) ->
  Forall (discovered repo exts) acc ->
  exists files st',
    for_acc todo acc (SolanaComprehensive.discover_extension W repo) st
    = (Ok files, st') /\
    db st' = db st /\
    Forall (discovered repo exts) files.
Proof.
  revert acc st. induction todo as [|ext todo IH]; intros acc st Hsub Hacc;
    cbn [for_acc].
  - unfold ret. by eexists _, _.
  - unfold bind.
    destruct (discover_extension_run repo exts acc ext st) as (fs & st1 & -> & Hdb & Hfs);
      [apply Hsub; by left | done |].
    destruct (IH fs st1) as (files & st' & -> & Hdb' & Hfiles);
      [intros e He; apply Hsub; by right | done |].
    eexists _, _. split; [reflexivity|]. split; [congruence | done].
Qed.

End DiscoveryFacts.

(** ** The file type of a discovered file *)

Section FileTypes.
Context `{P : Platform}.

Lemma startswith_app (p s : str) :
  startswith p s = true -> s = p ++ skipn (length p) s.
Proof.
  revert s. induction p as [|x p IH]; intros s; [done|].
  destruct s as [|y s]; cbn [startswith]; [done|].
  intros H. apply andb_true_iff in H as [Hxy Hp]. apply chr_eqb_eq in Hxy. subst y.
  cbn [length skipn app]. f_equal. by apply IH.
Qed.

Lemma startswith_prefix (p s : str) :
  startswith p s = true -> exists rest, s = p ++ rest.
Proof.
  intros H. exists (skipn (length p) s). by apply startswith_app.
Qed.

Lemma endswith_suffix (e s : str) :
  endswith e s = true -> exists stem, s = stem ++ e.
Proof.
  unfold endswith. intros H. apply startswith_prefix in H as (rest & Hrev).
  exists (rev rest). apply (f_equal (@rev chr)) in Hrev.
  by rewrite rev_involutive, rev_app_distr, rev_involutive in Hrev.
Qed.

Lemma until_dot_app (a b : str) :
  Forall (fun c => chr_eqb c (chr_of "."%char) = false) a ->
  until_dot (a ++ (chr_of "."%char) :: b) = Some (a, b).
Proof.
  induction 1 as [|c a Hc Ha IH]; cbn [app until_dot]; [done|].
  by rewrite Hc, IH.
Qed.

Lemma path_name_app (repo rel : path) :
  rel <> [] -> path_name (repo ++ rel) = path_name rel.
Proof.
  unfold path_name. intros Hrel.
  destruct rel as [|c rel] using rev_ind; [done|].
  by rewrite app_assoc, !last_last.
Qed.

(** [Path.suffix] of a name [stem ++ ext]. *)
Lemma suffix_of_name (name stem ext : str) :
  In ext SolanaComprehensive.supported_extensions ->
  name = stem ++ ext ->
  suffix_without_dot name = match stem with [] => [] | _ :: _ => skipn 1 ext end.
Proof.
  intros Hext ->. unfold suffix_without_dot. rewrite rev_app_distr.
  assert (exists x, ext = (chr_of "."%char) :: x /\ x <> [] /\
                    Forall (fun c => chr_eqb c (chr_of "."%char) = false) (rev x))
    as (x & -> & Hx & Hnodot).
  { cbn in Hext. destruct Hext as [<-|[<-|[<-|[<-|[<-|[]]]]]];
      eexists; (split; [reflexivity|]); (split; [done|]);
      cbn; repeat constructor. }
  cbn [rev skipn]. rewrite <- app_assoc. cbn [app].
  rewrite until_dot_app by done.
  destruct (rev x) as [|c r] eqn:Er.
  { apply (f_equal (@rev chr)) in Er. rewrite rev_involutive in Er. done. }
  destruct stem as [|s0 stem]; [done|].
  destruct (rev (s0 :: stem)) as [|c' r'] eqn:Es.
  { apply (f_equal (@rev chr)) in Es. rewrite rev_involutive in Es. done. }
  by rewrite <- Er, rev_involutive.
Qed.

(** The name of a discovered file: a stem and the extension searched. *)
Lemma discovered_name (repo : path) (exts : list str) (f : path) :
  (forall ext, In ext exts -> In ext SolanaComprehensive.supported_extensions) ->
  discovered repo exts f ->
  exists rel stem ext,
    relative_to f repo = Ok rel /\
    skipped (path_str rel) = false /\
    In ext exts /\
    endswith ext (path_name rel) = true /\
    path_name f = stem ++ ext /\
    suffix_without_dot (path_name f)
    = match stem with [] => [] | _ :: _ => skipn 1 ext end.
Proof.
  intros Hsub (rel & ext & -> & Hrel & Hskip & Hext & Hend).
  pose proof Hend as Hend'.
  apply endswith_suffix in Hend as (stem & Hname).
  assert (rel <> []) as Hne.
  { intros ->. cbn in Hname. symmetry in Hname. apply app_eq_nil in Hname as [_ ->].
    apply Hsub in Hext. cbn in Hext. by repeat destruct Hext as [Hext|Hext]. }
  exists rel, stem, ext. rewrite path_name_app by done.
  repeat (split; [done|]). apply suffix_of_name; [by apply Hsub | done].
Qed.

(** The extension read off a name [stem ++ ext]. *)
Lemma file_extension_of_name (f : path) (stem ext : str) :
  In ext SolanaComprehensive.supported_extensions ->
  path_name f = stem ++ ext ->
  SolanaComprehensive.file_extension_of f
  = match stem with [] => [] | _ :: _ => skipn 1 ext end.
Proof.
  intros Hext Hname. unfold SolanaComprehensive.file_extension_of, suffix_without_dot.
  rewrite Hname, rev_app_distr.
  assert (exists x, ext = (chr_of "."%char) :: x /\ x <> [] /\ lower x = x /\
                    Forall (fun c => chr_eqb c (chr_of "."%char) = false) (rev x))
    as (x & -> & Hx & Hlower & Hnodot).
  { cbn in Hext. destruct Hext as [<-|[<-|[<-|[<-|[<-|[]]]]]];
      eexists; (split; [reflexivity|]); (split; [done|]); (split; [reflexivity|]);
      cbn; repeat constructor. }
  cbn [rev skipn]. rewrite <- app_assoc. cbn [app].
  rewrite until_dot_app by done.
  destruct (rev x) as [|c r] eqn:Er.
  { apply (f_equal (@rev chr)) in Er. rewrite rev_involutive in Er. done. }
  destruct stem as [|s0 stem]; [done|].
  destruct (rev (s0 :: stem)) as [|c' r'] eqn:Es.
  { apply (f_equal (@rev chr)) in Es. rewrite rev_involutive in Es. done. }
  rewrite <- Er, rev_involutive. exact Hlower.
Qed.

End FileTypes.

(** C9.  Discovery returns no excluded path: every file that
    [discover_markdown_files] or [discover_documentation_files] returns lies
    under the repository, its path relative to the repository contains
    none of the skip patterns, and its name ends in [.md], respectively in
    one of the five supported extensions.  [Path.suffix] of the file is
    that extension if something stands before it in the name; a file whose
    whole name is the extension, such as [.md], is returned as well, and
    its [Path.suffix] is empty.  Both functions always return. *)
Theorem discovery_excludes_skipped `{P : Platform} (W : World) (repo : path)
    (st : state) :
  (exists files st',
      Solana.discover_markdown_files W repo st = (Ok files, st') /\
      forall f, In f files ->
        exists rel stem,
          relative_to f repo = Ok rel /\
          (forall pattern, In pattern skip_patterns ->
                           contains pattern (path_str rel) = false) /\
          endswith (lit ".md") (path_name rel) = true /\
          path_name f = stem ++ lit ".md" /\
          suffix_without_dot (path_name f)
          = match stem with [] => [] | _ :: _ => lit "md" end) /\
  (exists files st',
      SolanaComprehensive.discover_documentation_files W repo st = (Ok files, st') /\
      forall f, In f files ->
        exists rel stem ext,
          relative_to f repo = Ok rel /\
          (forall pattern, In pattern skip_patterns ->
                           contains pattern (path_str rel) = false) /\
          In ext (map lit [".md"; ".mdx"; ".bob"; ".msc"; ".pdf"]%string) /\
          endswith ext (path_name rel) = true /\
          path_name f = stem ++ ext /\
          suffix_without_dot (path_name f)
          = match stem with [] => [] | _ :: _ => skipn 1 ext end).
Proof.
  split.
  - destruct (discover_markdown_files_run W repo st) as (files & st' & Hrun & _ & Hall).
    exists files, st'. split; [done|]. intros f Hf.
    eapply List.Forall_forall in Hall; [|exact Hf].
    apply discovered_name in Hall
        as (rel & stem & ext & Hrel & Hskip & Hext & Hend & Hname & Hsuf);
      [|intros ext [<- | []]; by left].
    destruct Hext as [<- | []].
    exists rel, stem. split; [done|]. split; [by apply skipped_false | done].
  - destruct (discover_extensions_run W repo SolanaComprehensive.supported_extensions
                SolanaComprehensive.supported_extensions [] st)
      as (files & st' & Hrun & _ & Hall); [done | constructor |].
    exists files, st'. split; [exact Hrun|]. intros f Hf.
    eapply List.Forall_forall in Hall; [|exact Hf].
    apply discovered_name in Hall
        as (rel & stem & ext & Hrel & Hskip & Hext & Hend & Hname & Hsuf); [|done].
    exists rel, stem, ext. split; [done|]. split; [by apply skipped_false | done].
Qed.

(** Not every file [discover_documentation_files] returns has one of the
    five extensions as its [Path.suffix]: a file named [.md] is returned,
    and its suffix is empty. *)
Lemma discovery_returns_bare_extension :
  ~ discovery_selects_supported bare_extension_world [lit "solana-agave-full"]
      empty_state.
Proof.
  intros Hclaim.
  assert (has_supported_extension [lit "solana-agave-full"; lit ".md"]) as Habsurd.
  { eapply (Hclaim _ _ [lit "solana-agave-full"; lit ".md"]).
    - vm_compute. reflexivity.
    - left. reflexivity. }
  vm_compute in Habsurd. intuition discriminate.
Qed.

Example discover_markdown_demo :
  fst (Solana.discover_markdown_files demo_world [lit "solana-agave"] empty_state)
  = Ok [[lit "solana-agave"; lit "README.md"];
        [lit "solana-agave"; lit "docs"; lit "intro.md"];
        [lit "solana-agave"; lit "docs"; lit "blank.md"]].
Proof. reflexivity. Qed.

Example discover_documentation_demo :
  fst (SolanaComprehensive.discover_documentation_files demo_world
         [lit "solana-agave-full"] empty_state)
  = Ok [[lit "solana-agave-full"; lit "README.md"];
        [lit "solana-agave-full"; lit "docs"; lit "intro.md"];
        [lit "solana-agave-full"; lit "docs"; lit "blank.md"];
        [lit "solana-agave-full"; lit "docs"; lit "spec.pdf"]].
Proof. reflexivity. Qed.

(** ** A small program logic for the scripts *)

Section Effects.
Context `{P : Platform}.
Variable D : database -> database -> Prop.
Variable Q : event -> Prop.
Hypothesis D_refl : forall d, D d d.
Hypothesis D_trans : forall d1 d2 d3, D d1 d2 -> D d2 d3 -> D d1 d3.

Lemma effect_silent {A} (m : M A) :
  (forall st, snd (m st) = st) -> effect D Q m.
Proof using D_refl.
  intros H st. exists []. rewrite H, app_nil_r. repeat split; [constructor | apply D_refl].
Qed.

Lemma effect_ret {A} (a : A) : effect D Q (ret a).
Proof using D_refl. by apply effect_silent. Qed.

Lemma effect_raise {A} (e : exn) : effect D Q (raise e : M A).
Proof using D_refl. by apply effect_silent. Qed.

Lemma effect_lift {A} (o : outcome A) : effect D Q (lift o).
Proof using D_refl. by apply effect_silent. Qed.

Lemma effect_ask {A} (f : list event -> A) : effect D Q (ask f).
Proof using D_refl. by apply effect_silent. Qed.

Lemma effect_emit (e : event) : Q e -> effect D Q (emit e).
Proof using D_refl.
  intros He st. exists [e]. cbn. repeat split; [by repeat constructor | apply D_refl].
Qed.

Lemma effect_bind_returns {A B} (R : A -> Prop) (m : M A) (k : A -> M B) :
  effect D Q m -> returns R m -> (forall a, R a -> effect D Q (k a)) ->
  effect D Q (bind m k).
Proof using D_trans.
  intros Hm HR Hk st. unfold bind.
  destruct (Hm st) as (evs1 & Ht1 & HQ1 & HD1).
  destruct (m st) as [[a|e] st1] eqn:E; cbn [fst snd] in *.
  - destruct (Hk a (HR _ _ _ E) st1) as (evs2 & Ht2 & HQ2 & HD2).
    exists (evs1 ++ evs2). rewrite Ht2, Ht1, app_assoc.
    repeat split; [by apply Forall_app | by eapply D_trans].
  - exists evs1. by repeat split.
Qed.

Lemma effect_bind {A B} (m : M A) (k : A -> M B) :
  effect D Q m -> (forall a, effect D Q (k a)) -> effect D Q (bind m k).
Proof using D_trans.
  intros Hm Hk. apply (effect_bind_returns (fun _ => True)); [done | done | auto].
Qed.

Lemma effect_try_except {A} (m h : M A) :
  effect D Q m -> effect D Q h -> effect D Q (try_except m h).
Proof using D_trans.
  intros Hm Hh st. unfold try_except.
  destruct (Hm st) as (evs1 & Ht1 & HQ1 & HD1).
  destruct (m st) as [[a|[kind|code]] st1]; cbn [fst snd] in *.
  - exists evs1. by repeat split.
  - destruct (Hh st1) as (evs2 & Ht2 & HQ2 & HD2).
    exists (evs1 ++ evs2). rewrite Ht2, Ht1, app_assoc.
    repeat split; [by apply Forall_app | by eapply D_trans].
  - exists evs1. by repeat split.
Qed.

Lemma effect_try_finally {A} (m : M A) (f : M unit) :
  effect D Q m -> effect D Q f -> effect D Q (try_finally m f).
Proof using D_trans.
  intros Hm Hf st. unfold try_finally.
  destruct (Hm st) as (evs1 & Ht1 & HQ1 & HD1).
  destruct (m st) as [r st1]; cbn [fst snd] in *.
  destruct (Hf st1) as (evs2 & Ht2 & HQ2 & HD2).
  exists (evs1 ++ evs2).
  destruct (f st1) as [[[]|e] st2]; cbn [fst snd] in *;
    rewrite Ht2, Ht1, app_assoc;
    (repeat split; [by apply Forall_app | by eapply D_trans]).
Qed.

Lemma effect_for_each {A} (l : list A) (body : A -> M unit) :
  (forall x, In x l -> effect D Q (body x)) -> effect D Q (for_each l body).
Proof using D_refl D_trans.
  induction l as [|x l IH]; intros Hbody; cbn [for_each].
  - apply effect_ret.
  - apply effect_bind; [apply Hbody; by left|].
    intros _. apply IH. intros y Hy. apply Hbody. by right.
Qed.

Lemma effect_for_acc {A B} (l : list A) (acc : B) (body : B -> A -> M B) :
  (forall acc0 x, In x l -> effect D Q (body acc0 x)) ->
  effect D Q (for_acc l acc body).
Proof using D_refl D_trans.
  revert acc. induction l as [|x l IH]; intros acc Hbody; cbn [for_acc].
  - apply effect_ret.
  - apply effect_bind; [apply Hbody; by left|].
    intros acc'. apply IH. intros acc0 y Hy. apply Hbody. by right.
Qed.

End Effects.

Lemma effect_weaken `{P : Platform} {A} (D D' : database -> database -> Prop)
    (Q Q' : event -> Prop) (m : M A) :
  (forall d d', D d d' -> D' d d') -> (forall e, Q e -> Q' e) ->
  effect D Q m -> effect D' Q' m.
Proof.
  intros HD HQ Hm st. destruct (Hm st) as (evs & Ht & Hev & Hd).
  exists evs. repeat split; [done | | by apply HD].
  eapply Forall_impl; [exact Hev | exact HQ].
Qed.

Section Returns.
Context `{P : Platform}.

Lemma returns_ret {A} (R : A -> Prop) (a : A) : R a -> returns R (ret a).
Proof. intros Ha st a' st'. unfold ret. by intros [= <- _]. Qed.

Lemma returns_bind {A B} (R : B -> Prop) (m : M A) (k : A -> M B) :
  (forall a, returns R (k a)) -> returns R (bind m k).
Proof.
  intros Hk st b st'. unfold bind.
  destruct (m st) as [[a|e] st1]; [apply Hk | discriminate].
Qed.

Lemma returns_for_acc {A B} (I : B -> Prop) (l : list A) (acc : B)
    (body : B -> A -> M B) :
  (forall acc0 x, In x l -> I acc0 -> returns I (body acc0 x)) ->
  I acc -> returns I (for_acc l acc body).
Proof.
  intros Hbody Hacc st r st' Hrun.
  eapply (for_acc_invariant I body l acc st r st'); [|exact Hacc|exact Hrun].
  intros acc0 x st0 acc1 st1 Hx Hacc0 E. by eapply Hbody.
Qed.

End Returns.

Ltac effect_step :=
  lazymatch goal with
  | |- effect _ _ (ret _) => apply effect_ret; assumption
  | |- effect _ _ (raise _) => apply effect_raise; assumption
  | |- effect _ _ (lift _) => apply effect_lift; assumption
  | |- effect _ _ (ask _) => apply effect_ask; assumption
  | |- effect _ _ (emit _) => apply effect_emit; [assumption | exact I]
  | |- effect _ _ (bind _ _) => apply effect_bind; [assumption | | intros ?]
  | |- effect _ _ (try_except _ _) => apply effect_try_except; [assumption | |]
  | |- effect _ _ (try_finally _ _) => apply effect_try_finally; [assumption | |]
  | |- effect _ _ (for_each _ _) =>
      apply effect_for_each; [assumption | assumption | intros ? ?]
  | |- effect _ _ (for_acc _ _ _) =>
      apply effect_for_acc; [assumption | assumption | intros ? ? ?]
  | |- effect _ _ (match ?x with _ => _ end) => destruct x
  end.

Ltac effect_auto := repeat effect_step.

(** ** The phases of a run *)

Section ScriptEffects.
Context `{P : Platform} (W : World).
Variable D : database -> database -> Prop.
Hypothesis D_refl : forall d, D d d.
Hypothesis D_trans : forall d1 d2 d3, D d1 d2 -> D d2 d3 -> D d1 d3.

Lemma effect_session_get (url : str) : effect D is_fetch (session_get W url).
Proof using D_refl D_trans. unfold session_get. effect_auto. Qed.

Lemma effect_rglob (root : path) (ext : str) : effect D is_fetch (rglob W root ext).
Proof using D_refl D_trans. unfold rglob. effect_auto. Qed.

Lemma effect_read_file (p : path) : effect D is_fetch (read_file W p).
Proof using D_refl D_trans. unfold read_file. effect_auto. Qed.

Lemma effect_read_file_size (p : path) : effect D is_fetch (read_file_size W p).
Proof using D_refl D_trans. unfold read_file_size. effect_auto. Qed.

Lemma effect_generate_embedding (text : str) :
  effect D is_embed (generate_embedding W text).
Proof using D_refl D_trans. unfold generate_embedding. effect_auto. Qed.

Lemma effect_connect : effect D is_store (connect W).
Proof using D_refl D_trans. unfold connect. effect_auto. Qed.

Lemma effect_execute (s : sql_stmt) :
  (forall env d, D d (run_sql env s d)) -> effect D is_store (execute W s).
Proof using D_refl.
  intros Hs st. exists [EvSql s]. unfold execute, bind, emit, ask, raise. cbn.
  destruct (pg_reachable W _); cbn; (repeat split; [by repeat constructor|]);
    [apply Hs | apply D_refl].
Qed.

(** *** [ingest_birdeye.py] *)

Lemma effect_extract_endpoint_data (url : str) :
  effect D is_fetch (Birdeye.extract_endpoint_data W url).
Proof using D_refl D_trans.
  unfold Birdeye.extract_endpoint_data, Birdeye.extract_endpoint_body,
    Birdeye.read_api_section, Birdeye.read_content_body,
    Birdeye.read_metadata_lines, raise_for_status, response_json.
  effect_auto. all: try apply effect_session_get. all: effect_auto.
Qed.

End ScriptEffects.

Section PhaseFacts.
Context `{P : Platform} (W : World).
Variable D : database -> database -> Prop.
Hypothesis D_refl : forall d, D d d.
Hypothesis D_trans : forall d1 d2 d3, D d1 d2 -> D d2 d3 -> D d1 d3.

Lemma effect_extract_loop (total i : nat) (urls : list str)
    (acc : list Birdeye.BirdEyeEndpoint) :
  effect D is_fetch (Birdeye.extract_loop W total i urls acc).
Proof using D_refl D_trans.
  revert i acc. induction urls as [|url urls IH]; intros i acc;
    cbn [Birdeye.extract_loop].
  - effect_auto.
  - apply effect_bind; [done | by apply effect_extract_endpoint_data | intros r].
    apply effect_bind; [done | | intros _; apply IH].
    effect_auto.
Qed.

Lemma effect_birdeye_embeddings (endpoints : list Birdeye.BirdEyeEndpoint)
    (acc : list (list Float)) :
  effect D is_embed (for_acc endpoints acc (Birdeye.embed_step W)).
Proof using D_refl D_trans.
  apply effect_for_acc; [done | done | intros acc0 e _].
  unfold Birdeye.embed_step.
  apply effect_bind; [done | by apply effect_generate_embedding | intros emb].
  effect_auto.
Qed.

Lemma effect_birdeye_store_endpoints (endpoints : list Birdeye.BirdEyeEndpoint)
    (embeddings : list (list Float)) :
  (forall env s d, D d (run_sql env s d)) ->
  effect D is_store (Birdeye.store_endpoints W endpoints embeddings).
Proof using D_refl D_trans.
  intros Hsql.
  unfold Birdeye.store_endpoints, Birdeye.ensure_document_source,
    Birdeye.update_source_stats, Birdeye.store_document, close.
  apply effect_bind; [done | by apply effect_connect | intros _].
  apply effect_try_finally; [done | | effect_auto].
  apply effect_bind; [done | | intros _].
  { apply effect_bind; [done | effect_auto | intros now]. by apply effect_execute. }
  apply effect_bind; [done | | intros _; by apply effect_execute].
  apply effect_for_each; [done | done | intros [e emb] _].
  apply effect_bind; [done | effect_auto | intros p]. by apply effect_execute.
Qed.

(** The shape of the other three store operations. *)
Lemma effect_batch_store {A} (f : A -> doc_values) (l : list A) :
  (forall env d x, In x l -> D d (run_sql env (SqlUpsertDocument (f x)) d)) ->
  effect D is_store
    (let* _ := connect W in
     let* _ := register_vector W in
     try_finally (for_each l (fun x => execute W (SqlUpsertDocument (f x)))) close).
Proof using D_refl D_trans.
  intros Hsql. unfold register_vector, close.
  apply effect_bind; [done | by apply effect_connect | intros _].
  apply effect_bind; [done | effect_auto | intros _].
  apply effect_try_finally; [done | | effect_auto].
  apply effect_for_each; [done | done | intros x Hx].
  apply effect_execute; [done|]. intros env d. by apply Hsql.
Qed.

(** *** [ingest_birdeye_simple.py] *)

Lemma effect_download_openapi_spec (output_file : str) :
  effect D is_fetch (BirdeyeSimple.download_openapi_spec W output_file).
Proof using D_refl D_trans.
  unfold BirdeyeSimple.download_openapi_spec, BirdeyeSimple.schema_missing,
    raise_for_status, response_json.
  apply effect_bind; [done | by apply effect_session_get | intros r].
  effect_auto.
Qed.

Lemma effect_extract_endpoints_from_spec (openapi_spec : json) :
  effect D is_fetch (BirdeyeSimple.extract_endpoints_from_spec W openapi_spec).
Proof using D_refl D_trans.
  unfold BirdeyeSimple.extract_endpoints_from_spec, BirdeyeSimple.extract_path,
    BirdeyeSimple.extract_method, BirdeyeSimple.parameters_section,
    BirdeyeSimple.responses_section.
  effect_auto.
Qed.

Lemma effect_simple_embeddings (endpoints : list BirdeyeSimple.BirdEyeEndpoint)
    (acc : list (list Float)) :
  effect D is_embed (for_acc endpoints acc (BirdeyeSimple.embed_step W)).
Proof using D_refl D_trans.
  apply effect_for_acc; [done | done | intros acc0 e _].
  unfold BirdeyeSimple.embed_step.
  apply effect_bind; [done | by apply effect_generate_embedding | intros emb].
  effect_auto.
Qed.

(** *** [ingest_solana.py] and [ingest_solana_comprehensive.py] *)

Lemma effect_solana_process_all_files (H : Solana.Heuristics) (repo : path) :
  effect D is_fetch (Solana.process_all_files W H repo).
Proof using D_refl D_trans.
  unfold Solana.process_all_files, Solana.discover_markdown_files,
    Solana.discover_step, Solana.process_step, Solana.process_markdown_file,
    Solana.process_markdown_body.
  apply effect_bind; [done | | intros files].
  { apply effect_bind; [done | by apply effect_rglob | intros found]. effect_auto. }
  apply effect_for_acc; [done | done | intros acc f _].
  apply effect_bind; [done | effect_auto | intros _].
  apply effect_bind; [done | | intros doc; effect_auto].
  apply effect_try_except; [done | | effect_auto].
  apply effect_bind; [done | effect_auto | intros rel].
  apply effect_bind; [done | by apply effect_read_file | intros raw].
  effect_auto.
Qed.

Lemma effect_solana_embeddings (documents : list Solana.SolanaDocument)
    (acc : list (list Float)) :
  effect D is_embed (for_acc documents acc (Solana.embed_step W)).
Proof using D_refl D_trans.
  apply effect_for_acc; [done | done | intros acc0 e _].
  unfold Solana.embed_step.
  apply effect_bind; [done | by apply effect_generate_embedding | intros emb].
  effect_auto.
Qed.

Lemma effect_comprehensive_process_all_files (H : SolanaComprehensive.Heuristics)
    (repo : path) :
  effect D is_fetch (SolanaComprehensive.process_all_files W H repo).
Proof using D_refl D_trans.
  unfold SolanaComprehensive.process_all_files,
    SolanaComprehensive.discover_documentation_files,
    SolanaComprehensive.discover_extension,
    SolanaComprehensive.discover_step, SolanaComprehensive.process_step,
    SolanaComprehensive.process_documentation_file,
    SolanaComprehensive.process_documentation_body.
  apply effect_bind; [done | | intros files].
  { apply effect_for_acc; [done | done | intros acc ext _].
    apply effect_bind; [done | by apply effect_rglob | intros found]. effect_auto. }
  apply effect_for_acc; [done | done | intros acc f _].
  apply effect_bind; [done | effect_auto | intros _].
  apply effect_bind; [done | | intros doc; effect_auto].
  apply effect_try_except; [done | | effect_auto].
  apply effect_bind; [done | effect_auto | intros rel].
  apply effect_bind; [done | | intros read; effect_auto].
  destruct (str_eqb _ _).
  - apply effect_bind; [done | by apply effect_read_file_size | intros n]. effect_auto.
  - apply effect_bind; [done | by apply effect_read_file | intros raw]. effect_auto.
Qed.

Lemma effect_comprehensive_embeddings
    (documents : list SolanaComprehensive.SolanaDocument) (acc : list (list Float)) :
  effect D is_embed (for_acc documents acc (SolanaComprehensive.embed_step W)).
Proof using D_refl D_trans.
  apply effect_for_acc; [done | done | intros acc0 e _].
  unfold SolanaComprehensive.embed_step.
  apply effect_bind; [done | by apply effect_generate_embedding | intros emb].
  effect_auto.
Qed.

End PhaseFacts.

Section Phases.
Context `{P : Platform}.

Lemma any_db_refl (d : database) : any_db d d.
Proof. exact I. Qed.

Lemma any_db_trans (d1 d2 d3 : database) : any_db d1 d2 -> any_db d2 d3 -> any_db d1 d3.
Proof. intros _ _. exact I. Qed.

Lemma three_phases_silent {A} (m : M A) :
  (forall st, snd (m st) = st) -> runs_in_three_phases m.
Proof.
  intros H st. exists [], [], []. rewrite H, !app_nil_r. by repeat split.
Qed.

Lemma two_phases_silent {A} (m : M A) :
  (forall st, snd (m st) = st) -> runs_in_two_phases m.
Proof.
  intros H st. exists [], []. rewrite H, !app_nil_r. by repeat split.
Qed.

Lemma fetch_then_two_phases {A B} (m : M A) (k : A -> M B) :
  effect any_db is_fetch m ->
  (forall a, runs_in_two_phases (k a)) ->
  runs_in_three_phases (bind m k).
Proof.
  intros Hm Hk st. unfold bind.
  destruct (Hm st) as (l1 & Ht & HQ & _).
  destruct (m st) as [[a|e] st1]; cbn [fst snd] in *.
  - destruct (Hk a st1) as (l2 & l3 & Ht2 & H2 & H3).
    exists l1, l2, l3. rewrite Ht2, Ht, <- app_assoc. by repeat split.
  - exists l1, [], []. rewrite Ht, !app_nil_r. by repeat split.
Qed.

Lemma embed_then_store {A B} (m : M A) (k : A -> M B) :
  effect any_db is_embed m ->
  (forall a, effect any_db is_store (k a)) ->
  runs_in_two_phases (bind m k).
Proof.
  intros Hm Hk st. unfold bind.
  destruct (Hm st) as (l2 & Ht & HQ & _).
  destruct (m st) as [[a|e] st1]; cbn [fst snd] in *.
  - destruct (Hk a st1) as (l3 & Ht3 & H3 & _).
    exists l2, l3. rewrite Ht3, Ht, <- app_assoc. by repeat split.
  - exists l2, []. rewrite Ht, !app_nil_r. by repeat split.
Qed.

End Phases.

(** C5.  A run is sequential, in three phases: all the fetching and text
    extraction, then all the truncation and embedding requests, then all
    the upserts.  This holds for the [main] of each of the four scripts,
    whatever the outside world answers and wherever the run stops. *)
Theorem runs_are_three_phases `{P : Platform} (W : World)
    (H1 : Solana.Heuristics) (H2 : SolanaComprehensive.Heuristics) :
  runs_in_three_phases (Birdeye.main W) /\
  runs_in_three_phases (BirdeyeSimple.main W) /\
  runs_in_three_phases (Solana.main W H1) /\
  runs_in_three_phases (SolanaComprehensive.main W H2).
Proof.
  pose proof (@any_db_refl P) as Hr. pose proof (@any_db_trans P) as Ht.
  repeat split.
  - unfold Birdeye.main, Birdeye.ingest.
    repeat (destruct (negb _); [by apply three_phases_silent|]).
    apply fetch_then_two_phases; [by apply effect_extract_loop|].
    intros [|e es]; [by apply two_phases_silent|].
    apply embed_then_store; [by apply effect_birdeye_embeddings|].
    intros embs. by apply effect_birdeye_store_endpoints.
  - unfold BirdeyeSimple.main.
    repeat (destruct (negb _); [by apply three_phases_silent|]).
    intros st. unfold bind at 1.
    destruct (effect_download_openapi_spec W any_db Hr Ht (lit "birdeye_openapi.json") st)
      as (l0 & Ht0 & H0 & _).
    destruct (BirdeyeSimple.download_openapi_spec W _ st) as [[spec|e] st0];
      cbn [fst snd] in *.
    2:{ exists l0, [], []. rewrite Ht0, !app_nil_r. by repeat split. }
    destruct (fetch_then_two_phases
                (BirdeyeSimple.extract_endpoints_from_spec W spec)
                (fun endpoints =>
                   let* embeddings := for_acc endpoints [] (BirdeyeSimple.embed_step W) in
                   BirdeyeSimple.store_endpoints W endpoints embeddings)
                (effect_extract_endpoints_from_spec W any_db Hr Ht spec)) with (st := st0)
      as (l1 & l2 & l3 & Ht1 & HQ1 & HQ2 & HQ3).
    { intros endpoints. apply embed_then_store; [by apply effect_simple_embeddings|].
      intros embs. unfold BirdeyeSimple.store_endpoints.
      by apply (effect_batch_store W any_db Hr Ht
                  (fun ee => BirdeyeSimple.document_values W (fst ee) (snd ee))). }
    exists (l0 ++ l1), l2, l3. rewrite Ht1, Ht0, <- !app_assoc.
    repeat split; [by apply Forall_app | done | done].
  - unfold Solana.main.
    repeat (destruct (negb _); [by apply three_phases_silent|]).
    apply fetch_then_two_phases; [by apply effect_solana_process_all_files|].
    intros [|d ds]; [by apply two_phases_silent|].
    apply embed_then_store; [by apply effect_solana_embeddings|].
    intros embs. unfold Solana.store_documents.
    by apply (effect_batch_store W any_db Hr Ht
                (fun de => Solana.document_values W (fst de) (snd de))).
  - unfold SolanaComprehensive.main.
    repeat (destruct (negb _); [by apply three_phases_silent|]).
    apply fetch_then_two_phases; [by apply effect_comprehensive_process_all_files|].
    intros [|d ds]; [by apply two_phases_silent|].
    apply embed_then_store; [by apply effect_comprehensive_embeddings|].
    intros embs. unfold SolanaComprehensive.store_documents.
    by apply (effect_batch_store W any_db Hr Ht
                (fun de => SolanaComprehensive.document_values W (fst de) (snd de))).
Qed.

(** In the demo world the run of [ingest_birdeye.main] fetches its three
    pages (events 0, 2, 4), then embeds, then stores (events 13, 14, 15). *)
Example demo_birdeye_trace_steps :
  demo_birdeye_trace !! 0 = Some (demo_fetch_of 0) /\
  demo_birdeye_trace !! 2 = Some (demo_fetch_of 1) /\
  demo_birdeye_trace !! 4 = Some (demo_fetch_of 2) /\
  demo_birdeye_trace !! 13 = Some (demo_upsert_of 0) /\
  demo_birdeye_trace !! 14 = Some (demo_upsert_of 1) /\
  demo_birdeye_trace !! 15 = Some (demo_upsert_of 2).
Proof. vm_compute. repeat split. Qed.

(** C5, as stated, fails: the second document is fetched (event 2) before
    the first one is upserted (event 13). *)
Lemma per_document_pipeline_fails :
  ~ per_document_pipeline demo_birdeye_trace demo_fetch_of demo_upsert_of.
Proof.
  intros Hclaim.
  assert (13 < 2) as Habsurd; [|lia].
  apply (Hclaim 0 1 13 2); [lia | |]; vm_compute; reflexivity.
Qed.

(** ** C6: extraction never raises and never retries *)

Section Exceptions.
Context `{P : Platform}.

Lemma py_in_plain (k : str) (v : json) : plain_failure (py_in k v).
Proof. destruct v; cbn; intros e [= <-] || intros e; try discriminate; eauto. Qed.

Lemma py_getitem_plain (v : json) (k : str) : plain_failure (py_getitem v k).
Proof.
  destruct v; cbn; try (intros e [= <-]; eauto).
  destruct (assoc k items); intros e; [discriminate | intros [= <-]; eauto].
Qed.

Lemma py_get_plain (v : json) (k : str) (d : json) : plain_failure (py_get v k d).
Proof. destruct v; cbn; intros e; try discriminate; intros [= <-]; eauto. Qed.

Lemma py_items_plain (v : json) : plain_failure (py_items v).
Proof. destruct v; cbn; intros e; try discriminate; intros [= <-]; eauto. Qed.

Lemma py_upper_plain (v : json) : plain_failure (py_upper v).
Proof. destruct v; cbn; intros e; try discriminate; intros [= <-]; eauto. Qed.

Lemma roe_ret {A} (a : A) : raises_only_exceptions (ret a).
Proof. intros st e st'. unfold ret. discriminate. Qed.

Lemma roe_ask {A} (f : list event -> A) : raises_only_exceptions (ask f).
Proof. intros st e st'. unfold ask. discriminate. Qed.

Lemma roe_emit (ev : event) : raises_only_exceptions (emit ev).
Proof. intros st e st'. unfold emit. discriminate. Qed.

Lemma roe_raise {A} (kind : string) : raises_only_exceptions (raise (Exception kind) : M A).
Proof. intros st e st'. unfold raise. intros [= <- _]. eauto. Qed.

Lemma roe_lift {A} (o : outcome A) : plain_failure o -> raises_only_exceptions (lift o).
Proof. intros Ho st e st'. unfold lift. intros [= -> _]. by apply Ho. Qed.

Lemma roe_bind {A B} (m : M A) (k : A -> M B) :
  raises_only_exceptions m -> (forall a, raises_only_exceptions (k a)) ->
  raises_only_exceptions (bind m k).
Proof.
  intros Hm Hk st e st'. unfold bind.
  destruct (m st) as [[a|e0] st1] eqn:E.
  - apply Hk.
  - intros [= <- _]. by eapply Hm.
Qed.

End Exceptions.

Ltac roe_step :=
  lazymatch goal with
  | |- raises_only_exceptions (ret _) => apply roe_ret
  | |- raises_only_exceptions (raise (Exception _)) => apply roe_raise
  | |- raises_only_exceptions (ask _) => apply roe_ask
  | |- raises_only_exceptions (emit _) => apply roe_emit
  | |- raises_only_exceptions (lift _) =>
      apply roe_lift;
      first [apply py_in_plain | apply py_getitem_plain | apply py_get_plain
            | apply py_items_plain | apply py_upper_plain]
  | |- raises_only_exceptions (bind _ _) => apply roe_bind; [|intros ?]
  | |- raises_only_exceptions (match ?x with _ => _ end) => destruct x
  end.

Section ExtractionFacts.
Context `{P : Platform} (W : World).

Lemma extract_endpoint_body_roe (url : str) :
  raises_only_exceptions (Birdeye.extract_endpoint_body W url).
Proof.
  unfold Birdeye.extract_endpoint_body, Birdeye.read_api_section,
    Birdeye.read_content_body, Birdeye.read_metadata_lines, session_get,
    raise_for_status, response_json.
  repeat roe_step.
Qed.

(** [extract_endpoint_data] returns: an exception of the body becomes
    [None]. *)
Lemma extract_endpoint_data_total (url : str) :
  total (Birdeye.extract_endpoint_data W url).
Proof.
  intros st. unfold Birdeye.extract_endpoint_data, try_except.
  destruct (Birdeye.extract_endpoint_body W url st) as [[r|e] st1] eqn:E.
  - by exists r.
  - destruct (extract_endpoint_body_roe url st e st1 E) as (kind & ->).
    by exists None.
Qed.

Lemma extract_endpoint_data_raise (url : str) (st : state) (e : exn) (st' : state) :
  Birdeye.extract_endpoint_body W url st = (Raise e, st') ->
  Birdeye.extract_endpoint_data W url st = (Ok None, st').
Proof.
  intros E. unfold Birdeye.extract_endpoint_data, try_except. rewrite E.
  destruct (extract_endpoint_body_roe url st e st' E) as (kind & ->). reflexivity.
Qed.

Lemma silent_state {A} (m : M A) (st : state) :
  effect eq no_event m -> snd (m st) = st.
Proof.
  intros Hm. destruct (Hm st) as (evs & Ht & Hev & Hd).
  destruct evs as [|e evs]; [|by inversion Hev].
  rewrite app_nil_r in Ht. destruct (snd (m st)), st; cbn in *. congruence.
Qed.

Lemma snd_bind {A B} (m : M A) (k : A -> M B) (st : state) :
  snd (bind m k st)
  = match m st with
    | (Ok a, st1) => snd (k a st1)
    | (Raise _, st1) => st1
    end.
Proof. unfold bind. by destruct (m st) as [[a|e] st1]. Qed.

Lemma session_get_state (url : str) (st : state) :
  snd (session_get W url st)
  = {| trace := trace st ++ [EvHttpGet url]; db := db st |}.
Proof.
  unfold session_get, bind, emit, ask, ret, raise. cbn.
  by destruct (http_get W _ _).
Qed.

(** After the request the extraction only computes. *)
Lemma after_request_silent (url api_url : str) (response : http_response) :
  effect eq no_event
    (let* _ := raise_for_status response in
     let* data := response_json W response in
     let* has_data := lift (py_in (lit "data") data) in
     if negb has_data then ret None
     else
       let* data_section := lift (py_getitem data (lit "data")) in
       let* title := lift (py_get data_section (lit "title")
                                  (JStr (lit "Unknown Endpoint"))) in
       let* api := Birdeye.read_api_section data_section in
       let '(method, path, api_spec) := api in
       let* body := Birdeye.read_content_body data_section in
       let* metadata_parts := Birdeye.read_metadata_lines W data_section in
       let* now := ask (utcnow_iso W) in
       ret (Some (Birdeye.mk_endpoint url title method path
                    (join NL
                       ([lit "# " ++ fmt W title;
                         lit "**Method:** " ++ method;
                         lit "**Path:** " ++ fmt W path;
                         []]
                        ++ match body with
                           | Some b => [lit "**Description:**" ++ NL ++ fmt W b; []]
                           | None => []
                           end
                        ++ (if truthy api_spec
                            then [lit "## OpenAPI Specification"; lit "```json";
                                  json_dumps_indent W api_spec; lit "```"; []]
                            else [])
                        ++ metadata_parts))
                    (JObj [
                       (lit "source_url", JStr url);
                       (lit "api_url", JStr api_url);
                       (lit "api_method", JStr method);
                       (lit "api_path", path);
                       (lit "title", title);
                       (lit "openapi_spec", api_spec);
                       (lit "content_body",
                        match body with Some b => b | None => JStr [] end);
                       (lit "extracted_at", JStr now)])))).
Proof.
  assert (forall d : database, d = d) as D_refl by done.
  assert (forall d1 d2 d3 : database, d1 = d2 -> d2 = d3 -> d1 = d3) as D_trans
    by (intros; congruence).
  unfold Birdeye.read_api_section, Birdeye.read_content_body,
    Birdeye.read_metadata_lines, raise_for_status, response_json.
  effect_auto.
Qed.

(** The state after [extract_endpoint_data]: one request for a URL of the
    expected form, none otherwise, and the database as it was. *)
Lemma extract_endpoint_data_state (url : str) (st : state) :
  snd (Birdeye.extract_endpoint_data W url st)
  = {| trace := trace st ++
                (if contains (lit "/reference/") url
                 then [EvHttpGet (Birdeye.api_url_of
                                    (last_piece (lit "/reference/") url))]
                 else []);
       db := db st |}.
Proof.
  unfold Birdeye.extract_endpoint_data.
  assert (forall (A : Type) (m : M (option A)) s,
             snd (try_except m (ret None) s) = snd (m s)) as Htry.
  { intros A m s. unfold try_except, ret. by destruct (m s) as [[r|[k|c]] s1]. }
  rewrite Htry. unfold Birdeye.extract_endpoint_body.
  destruct (contains (lit "/reference/") url); cbn [negb].
  - rewrite snd_bind.
    pose proof (session_get_state
                  (Birdeye.api_url_of (last_piece (lit "/reference/") url)) st) as Hst.
    destruct (session_get W _ st) as [[response|e] st1]; cbn [snd] in Hst;
      rewrite <- Hst; [|reflexivity].
    apply silent_state.
    apply (after_request_silent url
             (Birdeye.api_url_of (last_piece (lit "/reference/") url)) response).
  - unfold ret. cbn. rewrite app_nil_r. by destruct st.
Qed.

End ExtractionFacts.

Section LoopFacts.
Context `{P : Platform} (W : World).

Lemma http_requests_app (a b : list event) :
  http_requests (a ++ b) = http_requests a ++ http_requests b.
Proof. unfold http_requests. apply flat_map_app. Qed.

Lemma extract_endpoint_data_requests (url : str) (st : state) :
  http_requests (trace (snd (Birdeye.extract_endpoint_data W url st)))
  = http_requests (trace st)
    ++ (if contains (lit "/reference/") url then [request_of url] else []).
Proof.
  rewrite extract_endpoint_data_state. cbn [trace].
  rewrite http_requests_app. by destruct (contains _ _).
Qed.

(** The loop never raises ... *)
Lemma extract_loop_total (total_urls i : nat) (urls : list str)
    (acc : list Birdeye.BirdEyeEndpoint) :
  total (Birdeye.extract_loop W total_urls i urls acc).
Proof.
  revert i acc. induction urls as [|url urls IH]; intros i acc st;
    cbn [Birdeye.extract_loop].
  - by exists acc.
  - unfold bind at 1.
    destruct (extract_endpoint_data_total W url st) as (r & Hr).
    destruct (Birdeye.extract_endpoint_data W url st) as [[r'|e] st1];
      cbn [fst] in Hr; [|discriminate].
    unfold bind at 1.
    destruct (i <? total_urls - 1); unfold emit, ret; apply IH.
Qed.

(** ... and makes one request for each URL of the expected form, in
    order, whatever became of the requests before. *)
Lemma extract_loop_requests (total_urls i : nat) (urls : list str)
    (acc : list Birdeye.BirdEyeEndpoint) (st : state) :
  http_requests (trace (snd (Birdeye.extract_loop W total_urls i urls acc st)))
  = http_requests (trace st)
    ++ map request_of (List.filter (contains (lit "/reference/")) urls).
Proof.
  revert i acc st. induction urls as [|url urls IH]; intros i acc st;
    cbn [Birdeye.extract_loop List.filter].
  - unfold ret. cbn. by rewrite app_nil_r.
  - rewrite snd_bind.
    pose proof (extract_endpoint_data_requests url st) as Hreq.
    destruct (extract_endpoint_data_total W url st) as (r & Hr).
    destruct (Birdeye.extract_endpoint_data W url st) as [[r'|e] st1];
      cbn [fst snd] in *; [|discriminate].
    rewrite snd_bind.
    destruct (i <? total_urls - 1); unfold emit, ret; rewrite IH; cbn [trace].
    + rewrite http_requests_app, Hreq. cbn [http_requests flat_map app].
      rewrite app_nil_r, <- app_assoc. by destruct (contains _ url).
    + rewrite Hreq, <- app_assoc. by destruct (contains _ url).
Qed.

Lemma extract_invalid_url (url : str) (st : state) :
  contains (lit "/reference/") url = false ->
  Birdeye.extract_endpoint_data W url st = (Ok None, st).
Proof.
  intros Hc. unfold Birdeye.extract_endpoint_data, Birdeye.extract_endpoint_body,
    try_except.
  by rewrite Hc.
Qed.

Lemma extract_request_failed (url : str) (st : state) :
  contains (lit "/reference/") url = true ->
  http_get W (trace st ++ [EvHttpGet (request_of url)]) (request_of url) = None ->
  fst (Birdeye.extract_endpoint_data W url st) = Ok None.
Proof.
  intros Hc Hget. unfold Birdeye.extract_endpoint_data, Birdeye.extract_endpoint_body,
    try_except.
  rewrite Hc. cbn [negb]. unfold bind at 1. unfold session_get.
  unfold bind, emit, ask, raise. cbn [trace db]. fold (request_of url).
  by rewrite Hget.
Qed.

Lemma extract_http_error (url : str) (st : state) (response : http_response) :
  contains (lit "/reference/") url = true ->
  http_get W (trace st ++ [EvHttpGet (request_of url)]) (request_of url)
  = Some response ->
  400 <= status_code response < 600 ->
  fst (Birdeye.extract_endpoint_data W url st) = Ok None.
Proof.
  intros Hc Hget Hstatus.
  unfold Birdeye.extract_endpoint_data, Birdeye.extract_endpoint_body, try_except.
  rewrite Hc. cbn [negb]. unfold bind at 1. unfold session_get.
  unfold bind at 1. unfold emit at 1. unfold bind at 1. unfold ask at 1.
  cbn [trace db]. fold (request_of url). rewrite Hget. unfold ret at 1.
  unfold bind at 1. unfold raise_for_status.
  destruct (Nat.leb_spec 400 (status_code response)); [|lia].
  destruct (Nat.ltb_spec (status_code response) 600); [|lia].
  reflexivity.
Qed.

Lemma extract_no_data (url : str) (st : state) (response : http_response)
    (data : json) :
  contains (lit "/reference/") url = true ->
  http_get W (trace st ++ [EvHttpGet (request_of url)]) (request_of url)
  = Some response ->
  ~ (400 <= status_code response < 600) ->
  json_loads W (body response) = Some data ->
  py_in (lit "data") data = Ok false ->
  fst (Birdeye.extract_endpoint_data W url st) = Ok None.
Proof.
  intros Hc Hget Hstatus Hjson Hdata.
  unfold Birdeye.extract_endpoint_data, Birdeye.extract_endpoint_body, try_except.
  rewrite Hc. cbn [negb]. unfold bind at 1. unfold session_get.
  unfold bind at 1. unfold emit at 1. unfold bind at 1. unfold ask at 1.
  cbn [trace db]. fold (request_of url). rewrite Hget. unfold ret at 1.
  unfold bind at 1. unfold raise_for_status.
  assert ((400 <=? status_code response) && (status_code response <? 600) = false)
    as ->.
  { apply andb_false_iff.
    destruct (Nat.leb_spec 400 (status_code response)); [|by left].
    destruct (Nat.ltb_spec (status_code response) 600); [lia | by right]. }
  unfold ret at 1. unfold bind at 1. unfold response_json. rewrite Hjson.
  unfold ret at 1. unfold bind at 1. rewrite Hdata. unfold lift at 1. cbn [negb].
  reflexivity.
Qed.

End LoopFacts.

(** C6.  [extract_endpoint_data] makes at most one HTTP request and never
    raises: a URL of the wrong form, a failed or refused request, a
    response without a ['data'] section and any other exception of the
    body give [None].  The loop of [main] never raises either and sends one
    request per well-formed URL, in order: it goes on to the next URL and
    does not try a failed one again. *)
Theorem extraction_is_retry_free `{P : Platform} (W : World) :
  (forall url, total (Birdeye.extract_endpoint_data W url)) /\
  (forall url st,
      snd (Birdeye.extract_endpoint_data W url st)
      = {| trace := trace st ++
                    (if contains (lit "/reference/") url
                     then [EvHttpGet (request_of url)] else []);
           db := db st |}) /\
  (forall url st,
      contains (lit "/reference/") url = false ->
      Birdeye.extract_endpoint_data W url st = (Ok None, st)) /\
  (forall url st,
      contains (lit "/reference/") url = true ->
      http_get W (trace st ++ [EvHttpGet (request_of url)]) (request_of url) = None ->
      fst (Birdeye.extract_endpoint_data W url st) = Ok None) /\
  (forall url st response,
      contains (lit "/reference/") url = true ->
      http_get W (trace st ++ [EvHttpGet (request_of url)]) (request_of url)
      = Some response ->
      400 <= status_code response < 600 ->
      fst (Birdeye.extract_endpoint_data W url st) = Ok None) /\
  (forall url st response data,
      contains (lit "/reference/") url = true ->
      http_get W (trace st ++ [EvHttpGet (request_of url)]) (request_of url)
      = Some response ->
      ~ (400 <= status_code response < 600) ->
      json_loads W (body response) = Some data ->
      py_in (lit "data") data = Ok false ->
      fst (Birdeye.extract_endpoint_data W url st) = Ok None) /\
  (forall url st e st',
      Birdeye.extract_endpoint_body W url st = (Raise e, st') ->
      Birdeye.extract_endpoint_data W url st = (Ok None, st')) /\
  (forall total_urls i urls acc,
      total (Birdeye.extract_loop W total_urls i urls acc)) /\
  (forall total_urls i urls acc st,
      http_requests (trace (snd (Birdeye.extract_loop W total_urls i urls acc st)))
      = http_requests (trace st)
        ++ map request_of (List.filter (contains (lit "/reference/")) urls)).
Proof.
  split; [apply extract_endpoint_data_total|].
  split; [apply extract_endpoint_data_state|].
  split; [apply extract_invalid_url|].
  split; [apply extract_request_failed|].
  split; [apply extract_http_error|].
  split; [apply extract_no_data|].
  split; [apply extract_endpoint_data_raise|].
  split; [apply extract_loop_total | apply extract_loop_requests].
Qed.

(** With the site down every extraction gives [None], and the loop still
    visits the three URLs, once each. *)
Lemma extraction_is_retry_free_witness :
  fst (Birdeye.extract_endpoint_data offline_world
         (lit "https://docs.birdeye.so/reference/get-defi-price") empty_state)
  = Ok None
  /\ Birdeye.extract_endpoint_data offline_world (lit "https://docs.birdeye.so/")
       empty_state
     = (Ok None, empty_state)
  /\ http_requests
       (trace (snd (Birdeye.extract_loop offline_world 3 0
                      (firstn 3 Birdeye.discover_all_endpoints) [] empty_state)))
     = map request_of (firstn 3 Birdeye.discover_all_endpoints).
Proof.
  destruct (extraction_is_retry_free offline_world)
    as (_ & _ & Hinvalid & Hfailed & _ & _ & _ & _ & Hloop).
  split; [|split].
  - apply Hfailed; reflexivity.
  - apply Hinvalid. reflexivity.
  - rewrite Hloop. reflexivity.
Defined.

Example offline_loop_result :
  fst (Birdeye.extract_loop offline_world 3 0
         (firstn 3 Birdeye.discover_all_endpoints) [] empty_state) = Ok [].
Proof. reflexivity. Qed.

(** ** C10: empty files *)

Section EmptyFiles.
Context `{P : Platform} (W : World).

Lemma process_markdown_file_blank (H : Solana.Heuristics) (repo f : path)
    (st : state) (raw : str) :
  read_text W (trace st ++ [EvReadText f]) f = Some raw ->
  Forall (fun c => is_space c = true) raw ->
  fst (Solana.process_markdown_file W H repo f st) = Ok None.
Proof.
  intros Hread Hblank.
  unfold Solana.process_markdown_file, Solana.process_markdown_body, try_except.
  unfold bind at 1. unfold lift at 1.
  destruct (relative_to f repo) as [rel|[kind|code]] eqn:Hrel; [|done|].
  - unfold bind at 1. unfold read_file. unfold bind, emit, ask, ret. cbn [trace db].
    rewrite Hread. by rewrite (strip_all_space raw Hblank).
  - exfalso. revert Hrel. clear. revert f.
    induction repo as [|b repo IH]; intros f; cbn [relative_to]; [discriminate|].
    destruct f as [|c f]; [discriminate|]. destruct (str_eqb b c); [apply IH | discriminate].
Qed.

Lemma process_documentation_file_blank (H : SolanaComprehensive.Heuristics)
    (repo f : path) (st : state) (raw : str) :
  SolanaComprehensive.file_extension_of f <> lit "pdf" ->
  read_text W (trace st ++ [EvReadText f]) f = Some raw ->
  Forall (fun c => is_space c = true) raw ->
  fst (SolanaComprehensive.process_documentation_file W H repo f st) = Ok None.
Proof.
  intros Hext Hread Hblank. apply str_eqb_neq in Hext.
  unfold SolanaComprehensive.process_documentation_file,
    SolanaComprehensive.process_documentation_body, try_except.
  unfold bind at 1. unfold lift at 1.
  destruct (relative_to f repo) as [rel|[kind|code]] eqn:Hrel; [|done|].
  - rewrite Hext. unfold bind at 1. unfold bind at 1. unfold read_file.
    unfold bind, emit, ask, ret. cbn [trace db].
    rewrite Hread. by rewrite (strip_all_space raw Hblank).
  - exfalso. revert Hrel. clear. revert f.
    induction repo as [|b repo IH]; intros f; cbn [relative_to]; [discriminate|].
    destruct f as [|c f]; [discriminate|]. destruct (str_eqb b c); [apply IH | discriminate].
Qed.

Lemma process_markdown_file_content (H : Solana.Heuristics) (repo f : path) :
  returns (fun doc => forall d, doc = Some d -> Solana.content d <> [])
          (Solana.process_markdown_file W H repo f).
Proof.
  intros st doc st'.
  unfold Solana.process_markdown_file, Solana.process_markdown_body, read_file.
  unfold try_except, bind, lift, ask, emit, ret, raise.
  repeat (case_match; try discriminate); simplify_eq.
  all: intros [= <- _] d [= <-]; try done.
  all: cbn [Solana.content]; apply clean_markdown_content_nonempty; congruence.
Qed.

Lemma clean_content_nonempty (raw file_type : str) :
  strip raw <> [] -> SolanaComprehensive.clean_content raw file_type <> [].
Proof.
  intros Hraw. unfold SolanaComprehensive.clean_content.
  repeat case_match; try done.
  by apply clean_markdown_content_nonempty.
Qed.

Lemma process_documentation_file_content (H : SolanaComprehensive.Heuristics)
    (repo f : path) :
  returns (fun doc => forall d, doc = Some d -> SolanaComprehensive.content d <> [])
          (SolanaComprehensive.process_documentation_file W H repo f).
Proof.
  intros st doc st'.
  unfold SolanaComprehensive.process_documentation_file,
    SolanaComprehensive.process_documentation_body, read_file, read_file_size.
  unfold try_except, bind, lift, ask, emit, ret, raise.
  repeat (case_match; try discriminate); simplify_eq.
  all: intros [= <- _] d [= <-]; try done.
  all: cbn [SolanaComprehensive.content]; apply clean_content_nonempty; congruence.
Qed.

Lemma keeps_refl (d : database) : keeps_no_empty_content d d.
Proof. by intros H. Qed.

Lemma keeps_trans (d1 d2 d3 : database) :
  keeps_no_empty_content d1 d2 -> keeps_no_empty_content d2 d3 ->
  keeps_no_empty_content d1 d3.
Proof. unfold keeps_no_empty_content. auto. Qed.

Lemma upsert_keeps_no_empty (env : pg_env) (v : doc_values) (d : database) :
  v_content v <> [] ->
  keeps_no_empty_content d (run_sql env (SqlUpsertDocument v) d).
Proof.
  intros Hv Hd r Hr. cbn [run_sql documents] in Hr.
  apply upsert_in in Hr as [(r0 & Hr0 & ->) | [-> _]]; [|done].
  unfold update_if_conflict. destruct (key_eqb _ _); [done | by apply Hd].
Qed.

End EmptyFiles.

Section StoredContent.
Context `{P : Platform} (W : World).

Lemma effect_any_event {A} (D : database -> database -> Prop) (Q : event -> Prop)
    (m : M A) :
  effect D Q m -> effect D any_event m.
Proof. apply effect_weaken; [done | by intros]. Qed.

Lemma solana_process_all_files_content (H : Solana.Heuristics) (repo : path) :
  returns (Forall (fun d => Solana.content d <> []))
          (Solana.process_all_files W H repo).
Proof.
  unfold Solana.process_all_files. apply returns_bind. intros files.
  apply returns_for_acc; [|constructor].
  intros acc f _ Hacc. unfold Solana.process_step.
  apply returns_bind. intros _.
  intros st r st'. unfold bind.
  destruct (Solana.process_markdown_file W H repo f st) as [[[d|]|e] st1] eqn:E;
    unfold ret; try discriminate; intros [= <- _]; [|done].
  apply Forall_app. split; [done|]. constructor; [|constructor].
  by apply (process_markdown_file_content W H repo f st (Some d) st1 E).
Qed.

Lemma comprehensive_process_all_files_content (H : SolanaComprehensive.Heuristics)
    (repo : path) :
  returns (Forall (fun d => SolanaComprehensive.content d <> []))
          (SolanaComprehensive.process_all_files W H repo).
Proof.
  unfold SolanaComprehensive.process_all_files. apply returns_bind. intros files.
  apply returns_for_acc; [|constructor].
  intros acc f _ Hacc. unfold SolanaComprehensive.process_step.
  apply returns_bind. intros _.
  intros st r st'. unfold bind.
  destruct (SolanaComprehensive.process_documentation_file W H repo f st)
    as [[[d|]|e] st1] eqn:E;
    unfold ret; try discriminate; intros [= <- _]; [|done].
  apply Forall_app. split; [done|]. constructor; [|constructor].
  by apply (process_documentation_file_content W H repo f st (Some d) st1 E).
Qed.

(** A run of [ingest_solana.main] keeps the documents table free of empty
    contents. *)
Lemma solana_main_keeps_content (H : Solana.Heuristics) :
  effect keeps_no_empty_content any_event (Solana.main W H).
Proof.
  pose proof (@keeps_refl P) as Hr. pose proof (@keeps_trans P) as Ht.
  unfold Solana.main.
  repeat (destruct (negb _); [by apply effect_raise|]).
  apply (effect_bind_returns _ _ Ht (Forall (fun d => Solana.content d <> []))).
  - eapply effect_any_event. by apply effect_solana_process_all_files.
  - apply solana_process_all_files_content.
  - intros [|d ds] Hdocs; [by apply effect_ret|].
    apply effect_bind; [done | |intros embs].
    + eapply effect_any_event. by apply effect_solana_embeddings.
    + eapply effect_any_event. unfold Solana.store_documents.
      apply (effect_batch_store W keeps_no_empty_content Hr Ht
               (fun de => Solana.document_values W (fst de) (snd de))).
      intros env db0 [doc emb] Hin. apply upsert_keeps_no_empty.
      cbn [v_content Solana.document_values fst].
      apply in_combine_l in Hin.
      eapply List.Forall_forall in Hdocs; [exact Hdocs | exact Hin].
Qed.

Lemma comprehensive_main_keeps_content (H : SolanaComprehensive.Heuristics) :
  effect keeps_no_empty_content any_event (SolanaComprehensive.main W H).
Proof.
  pose proof (@keeps_refl P) as Hr. pose proof (@keeps_trans P) as Ht.
  unfold SolanaComprehensive.main.
  repeat (destruct (negb _); [by apply effect_raise|]).
  apply (effect_bind_returns _ _ Ht
           (Forall (fun d => SolanaComprehensive.content d <> []))).
  - eapply effect_any_event. by apply effect_comprehensive_process_all_files.
  - apply comprehensive_process_all_files_content.
  - intros [|d ds] Hdocs; [by apply effect_ret|].
    apply effect_bind; [done | |intros embs].
    + eapply effect_any_event. by apply effect_comprehensive_embeddings.
    + eapply effect_any_event. unfold SolanaComprehensive.store_documents.
      apply (effect_batch_store W keeps_no_empty_content Hr Ht
               (fun de => SolanaComprehensive.document_values W (fst de) (snd de))).
      intros env db0 [doc emb] Hin. apply upsert_keeps_no_empty.
      cbn [v_content SolanaComprehensive.document_values fst].
      apply in_combine_l in Hin.
      eapply List.Forall_forall in Hdocs; [exact Hdocs | exact Hin].
Qed.

End StoredContent.

(** C10.  Empty files are dropped when they are processed: for a file
    whose content is empty or white space only (any characters
    [str.isspace] accepts, such as the no-break space),
    [process_markdown_file] and, for a file that is not a PDF,
    [process_documentation_file] return [None].  A document they do return has a non-empty content, and a run
    of either Solana script leaves no row with an empty content in a
    documents table that had none. *)
Theorem empty_files_are_dropped `{P : Platform} (W : World)
    (H1 : Solana.Heuristics) (H2 : SolanaComprehensive.Heuristics) :
  (forall repo f st raw,
      read_text W (trace st ++ [EvReadText f]) f = Some raw ->
      Forall (fun c => is_space c = true) raw ->
      fst (Solana.process_markdown_file W H1 repo f st) = Ok None) /\
  (forall repo f st raw,
      SolanaComprehensive.file_extension_of f <> lit "pdf" ->
      read_text W (trace st ++ [EvReadText f]) f = Some raw ->
      Forall (fun c => is_space c = true) raw ->
      fst (SolanaComprehensive.process_documentation_file W H2 repo f st) = Ok None) /\
  (forall repo f st d st',
      Solana.process_markdown_file W H1 repo f st = (Ok (Some d), st') ->
      Solana.content d <> []) /\
  (forall repo f st d st',
      SolanaComprehensive.process_documentation_file W H2 repo f st
      = (Ok (Some d), st') ->
      SolanaComprehensive.content d <> []) /\
  (forall st,
      no_empty_content (db st) ->
      no_empty_content (db (snd (Solana.main W H1 st)))) /\
  (forall st,
      no_empty_content (db st) ->
      no_empty_content (db (snd (SolanaComprehensive.main W H2 st)))).
Proof.
  split; [apply process_markdown_file_blank|].
  split; [apply process_documentation_file_blank|].
  split.
  { intros repo f st d st' E.
    by apply (process_markdown_file_content W H1 repo f st (Some d) st' E). }
  split.
  { intros repo f st d st' E.
    by apply (process_documentation_file_content W H2 repo f st (Some d) st' E). }
  split.
  - intros st. by destruct (solana_main_keeps_content W H1 st) as (_ & _ & _ & Hd).
  - intros st. by destruct (comprehensive_main_keeps_content W H2 st) as (_ & _ & _ & Hd).
Qed.

Lemma empty_files_are_dropped_witness :
  fst (Solana.process_markdown_file demo_world demo_heuristics
         [lit "solana-agave"] [lit "solana-agave"; lit "docs"; lit "blank.md"]
         empty_state) = Ok None
  /\ fst (SolanaComprehensive.process_documentation_file demo_world
            demo_comprehensive_heuristics
            [lit "solana-agave-full"]
            [lit "solana-agave-full"; lit "docs"; lit "blank.md"]
            empty_state) = Ok None
  /\ no_empty_content (db (snd (Solana.main demo_world demo_heuristics empty_state))).
Proof.
  destruct (empty_files_are_dropped demo_world demo_heuristics
              demo_comprehensive_heuristics) as (Ha & Hb & _ & _ & Hmain & _).
  split; [|split].
  - apply (Ha _ _ _ (lit " " ++ [160; 8195; 133]%N ++ NL ++ lit " ")); [reflexivity|].
    repeat constructor.
  - apply (Hb _ _ _ (lit " " ++ [160; 8195; 133]%N ++ NL ++ lit " ")); [discriminate | reflexivity|].
    repeat constructor.
  - apply Hmain. intros r [].
Defined.

(** The demo run of [ingest_solana.main] stores [README.md] and
    [docs/intro.md]; [docs/blank.md] is dropped and [node_modules] is
    skipped. *)
Example solana_demo_run :
  map doc_path (documents (db (snd (Solana.main demo_world demo_heuristics empty_state))))
  = [lit "README.md"; lit "docs/intro.md"]
  /\ map content (documents (db (snd (Solana.main demo_world demo_heuristics empty_state))))
     = [lit "# Intro" ++ NL ++ NL ++ lit "Text."; lit "# Intro" ++ NL ++ NL ++ lit "Text."].
Proof. split; reflexivity. Qed.

Example comprehensive_demo_run :
  map doc_path
    (documents (db (snd (SolanaComprehensive.main demo_world
                           demo_comprehensive_heuristics empty_state))))
  = [lit "README.md"; lit "docs/intro.md"; lit "docs/spec.pdf"].
Proof. reflexivity. Qed.

(** ** The scripts on the demo world *)

Example demo_extract_endpoint :
  let r := fst (Birdeye.extract_endpoint_data demo_world
                  (lit "https://docs.birdeye.so/reference/get-defi-price") empty_state) in
  match r with
  | Ok (Some e) =>
      Birdeye.method e = lit "GET" /\
      Birdeye.title e = JStr (lit "Price") /\
      Birdeye.path e
      = JStr (lit "https://docs.birdeye.so/birdeyedotso/api-next/v2/branches/1.0/reference/get-defi-price?dereference=true&reduce=false") /\
      Birdeye.content e
      = join NL [lit "# Price"; lit "**Method:** GET";
                 lit "**Path:** https://docs.birdeye.so/birdeyedotso/api-next/v2/branches/1.0/reference/get-defi-price?dereference=true&reduce=false";
                 []]
  | _ => False
  end.
Proof. vm_compute. repeat split. Qed.

Example demo_extract_from_spec :
  match fst (BirdeyeSimple.extract_endpoints_from_spec demo_world demo_spec empty_state) with
  | Ok [e] =>
      BirdeyeSimple.method e = lit "GET" /\
      BirdeyeSimple.path e = lit "/defi/price" /\
      BirdeyeSimple.title e = JStr (lit "Price") /\
      v_doc_path (BirdeyeSimple.document_values demo_world e []) = lit "GET /defi/price"
  | _ => False
  end.
Proof. vm_compute. repeat split. Qed.

Example demo_process_markdown :
  match fst (Solana.process_markdown_file demo_world demo_heuristics
               [lit "solana-agave"] [lit "solana-agave"; lit "docs"; lit "intro.md"]
               empty_state) with
  | Ok (Some d) =>
      Solana.relative_path d = lit "docs/intro.md" /\
      Solana.content d = lit "# Intro" ++ NL ++ NL ++ lit "Text."
  | _ => False
  end.
Proof. vm_compute. repeat split. Qed.

Example demo_process_pdf :
  match fst (SolanaComprehensive.process_documentation_file demo_world
               demo_comprehensive_heuristics [lit "solana-agave-full"]
               [lit "solana-agave-full"; lit "docs"; lit "spec.pdf"] empty_state) with
  | Ok (Some d) =>
      SolanaComprehensive.file_type d = lit "pdf" /\
      SolanaComprehensive.relative_path d = lit "docs/spec.pdf" /\
      startswith (lit "# Intro") (SolanaComprehensive.content d) = true
  | _ => False
  end.
Proof. vm_compute. repeat split. Qed.

Example suffix_examples :
  suffix_without_dot (lit "README.md") = lit "md" /\
  suffix_without_dot (lit "archive.tar.gz") = lit "gz" /\
  suffix_without_dot (lit ".gitignore") = [] /\
  suffix_without_dot (lit "Makefile") = [] /\
  suffix_without_dot (lit "odd.") = [].
Proof. repeat split. Qed.

(* ================================================================== *)
(** * Part III. Further properties of the scripts                      *)
(* ================================================================== *)

(** ** Cleaning markdown *)

Lemma lstrip_split (s : str) :
  exists w, s = w ++ lstrip s /\ Forall (fun c => is_space c = true) w.
Proof.
  induction s as [|c s (w & Hs & Hw)]; [by exists []|].
  cbn [lstrip]. destruct (is_space c) eqn:E.
  - exists (c :: w). split; [cbn; congruence | by constructor].
  - by exists [].
Qed.

Lemma lstrip_fixed (s : str) :
  lstrip s = s <-> match s with [] => True | c :: _ => is_space c = false end.
Proof.
  destruct s as [|c s]; [done|]. cbn [lstrip].
  destruct (is_space c) eqn:E; [|done]. split; [|done].
  intros H. destruct (lstrip_split s) as (w & Hs & _).
  assert (length (lstrip s) = S (length s)) as Hlen by (by rewrite H).
  apply (f_equal (@length chr)) in Hs. rewrite length_app in Hs. lia.
Qed.

Lemma rstrip_split (s : str) :
  exists w, s = rstrip s ++ w /\ Forall (fun c => is_space c = true) w.
Proof.
  unfold rstrip. destruct (lstrip_split (rev s)) as (w & Hs & Hw).
  exists (rev w). split.
  - rewrite <- rev_app_distr, <- Hs. by rewrite rev_involutive.
  - by apply Forall_rev.
Qed.

Lemma lstrip_idempotent (s : str) : lstrip (lstrip s) = lstrip s.
Proof.
  induction s as [|c s IH]; [done|]. cbn [lstrip].
  destruct (is_space c) eqn:E; [done|]. cbn [lstrip]. by rewrite E.
Qed.

Lemma rstrip_idempotent (s : str) : rstrip (rstrip s) = rstrip s.
Proof. unfold rstrip. by rewrite rev_involutive, lstrip_idempotent. Qed.

(** [strip] leaves no white space at either end. *)
Lemma strip_stripped (s : str) :
  lstrip (strip s) = strip s /\ rstrip (strip s) = strip s.
Proof.
  split; [|apply rstrip_idempotent].
  unfold strip. apply lstrip_fixed.
  destruct (rstrip (lstrip s)) as [|c rest] eqn:E; [done|].
  destruct (rstrip_split (lstrip s)) as (w & Hs & _). rewrite E in Hs.
  pose proof (lstrip_idempotent s) as Hfix. apply lstrip_fixed in Hfix.
  rewrite Hs in Hfix. exact Hfix.
Qed.

(** X1.  [clean_markdown_content] removes or replaces white space only,
    white space being what [str.isspace] and the class [\s] accept, the
    no-break space included: the other characters of the text come out
    the same and in the same order, and the result has no white space at
    its start or its end. *)
Theorem clean_markdown_content_keeps_text (content : str) :
  visible (clean_markdown_content content) = visible content /\
  lstrip (clean_markdown_content content) = clean_markdown_content content /\
  rstrip (clean_markdown_content content) = clean_markdown_content content.
Proof.
  split; [apply visible_clean_markdown_content|].
  unfold clean_markdown_content. apply strip_stripped.
Qed.

(** ** Connections *)

Section ConnectionFacts.
Context `{P : Platform} (W : World).

Lemma effect_execute_any (Q : event -> Prop) (s : sql_stmt) :
  Q (EvSql s) -> effect any_db Q (execute W s).
Proof.
  intros HQ st. exists [EvSql s]. unfold execute, bind, emit, ask, raise. cbn.
  destruct (pg_reachable W _); cbn; by repeat constructor.
Qed.

Lemma effect_batch_statements {A} (f : A -> doc_values) (l : list A) :
  effect any_db is_statement
    (for_each l (fun x => execute W (SqlUpsertDocument (f x)))).
Proof.
  apply effect_for_each; [apply any_db_refl | apply any_db_trans |].
  intros x _. by apply effect_execute_any.
Qed.

Lemma effect_birdeye_statements (es : list Birdeye.BirdEyeEndpoint)
    (embs : list (list Float)) :
  effect any_db is_statement
    (let* _ := Birdeye.ensure_document_source W in
     let* _ := for_each (combine es embs)
                        (fun ee => Birdeye.store_document W (fst ee) (snd ee)) in
     Birdeye.update_source_stats W).
Proof.
  pose proof (@any_db_refl P) as D_refl. pose proof (@any_db_trans P) as D_trans.
  unfold Birdeye.ensure_document_source, Birdeye.update_source_stats,
    Birdeye.store_document.
  apply effect_bind; [done | | intros _].
  { apply effect_bind; [done | effect_auto | intros now].
    by apply effect_execute_any. }
  apply effect_bind; [done | | intros _; by apply effect_execute_any].
  apply effect_for_each; [done | done | intros [e emb] _].
  apply effect_bind; [done | effect_auto | intros p]. by apply effect_execute_any.
Qed.

Lemma connect_then {A} (k : unit -> M A) (st : state) :
  bind (connect W) k st
  = if pg_reachable W (trace st ++ [EvConnect])
    then k tt {| trace := trace st ++ [EvConnect]; db := db st |}
    else (Raise (Exception "PostgresError"),
          {| trace := trace st ++ [EvConnect]; db := db st |}).
Proof.
  unfold connect, bind, emit, ask, ret, raise. cbn [trace db].
  by destruct (pg_reachable W _).
Qed.

Lemma register_vector_then {A} (k : unit -> M A) (st : state) :
  bind (register_vector W) k st
  = if vector_registered W (trace st ++ [EvRegisterVector])
    then k tt {| trace := trace st ++ [EvRegisterVector]; db := db st |}
    else (Raise (Exception "ValueError"),
          {| trace := trace st ++ [EvRegisterVector]; db := db st |}).
Proof.
  unfold register_vector, bind, emit, ask, ret, raise. cbn [trace db].
  by destruct (vector_registered W _).
Qed.

(** A body run under [try ... finally: close] ends with [close], whatever
    the body does. *)
Lemma finally_closed {A} (body : M A) (st : state) :
  effect any_db is_statement body ->
  exists statements,
    trace (snd (try_finally body close st)) = trace st ++ statements ++ [EvClose] /\
    fst (try_finally body close st) = fst (body st) /\
    Forall is_statement statements.
Proof.
  intros Hbody. unfold try_finally, close, emit.
  destruct (Hbody st) as (l & Ht & HQ & _).
  destruct (body st) as [r st1]; cbn [fst snd trace] in *.
  exists l. rewrite Ht. by rewrite <- app_assoc.
Qed.

End ConnectionFacts.

(** X2.  A store operation that opens a connection closes it once it is
    inside its [try]: the trace is then the connection, the registration
    of the vector type where the script has one, the statements, and the
    close, also when a statement fails.  When the server cannot be
    reached the operation raises after the attempt.  [store_endpoints] of
    [ingest_birdeye_simple.py] and the two [store_documents] register the
    vector type before their [try]: when that raises, the operation raises
    with the connection left open, no close is sent. *)
Theorem connection_closed_after_try `{P : Platform} (W : World) (op : store_op)
    (st : state) :
  opens_connection op = true ->
  (pg_reachable W (trace st ++ [EvConnect]) = false ->
   run_store W op st
   = (Raise (Exception "PostgresError"),
      {| trace := trace st ++ [EvConnect]; db := db st |})) /\
  (pg_reachable W (trace st ++ [EvConnect]) = true ->
   registers_vector op = false ->
   exists statements,
     trace (snd (run_store W op st))
     = trace st ++ EvConnect :: statements ++ [EvClose] /\
     Forall is_statement statements) /\
  (pg_reachable W (trace st ++ [EvConnect]) = true ->
   registers_vector op = true ->
   (vector_registered W (trace st ++ [EvConnect; EvRegisterVector]) = false ->
    run_store W op st
    = (Raise (Exception "ValueError"),
       {| trace := trace st ++ [EvConnect; EvRegisterVector]; db := db st |})) /\
   (vector_registered W (trace st ++ [EvConnect; EvRegisterVector]) = true ->
    exists statements,
      trace (snd (run_store W op st))
      = trace st ++ EvConnect :: EvRegisterVector :: statements ++ [EvClose] /\
      Forall is_statement statements)).
Proof.
  intros Hop.
  assert (forall {A} (f : A -> doc_values) (l : list A),
             let m := (let* _ := connect W in
                       let* _ := register_vector W in
                       try_finally
                         (for_each l (fun x => execute W (SqlUpsertDocument (f x))))
                         close) in
             (pg_reachable W (trace st ++ [EvConnect]) = false ->
              m st = (Raise (Exception "PostgresError"),
                      {| trace := trace st ++ [EvConnect]; db := db st |})) /\
             (pg_reachable W (trace st ++ [EvConnect]) = true ->
              (vector_registered W (trace st ++ [EvConnect; EvRegisterVector]) = false ->
               m st = (Raise (Exception "ValueError"),
                       {| trace := trace st ++ [EvConnect; EvRegisterVector];
                          db := db st |})) /\
              (vector_registered W (trace st ++ [EvConnect; EvRegisterVector]) = true ->
               exists statements,
                 trace (snd (m st))
                 = trace st ++ EvConnect :: EvRegisterVector :: statements ++ [EvClose] /\
                 Forall is_statement statements))) as Hbatch.
  { intros A f l m. subst m. rewrite connect_then.
    destruct (pg_reachable W (trace st ++ [EvConnect])); split; try done.
    intros _. rewrite register_vector_then. cbn [trace db]. rewrite <- app_assoc.
    cbn [app].
    destruct (vector_registered W (trace st ++ [EvConnect; EvRegisterVector]));
      split; try done.
    intros _.
    destruct (finally_closed _
                {| trace := trace st ++ [EvConnect; EvRegisterVector]; db := db st |}
                (effect_batch_statements W f l)) as (sqls & Ht & _ & HQ).
    exists sqls. rewrite Ht. cbn [trace]. by rewrite <- !app_assoc. }
  destruct op as [e emb | es embs | es embs | ds embs | ds embs];
    try discriminate; cbn [run_store registers_vector].
  - unfold Birdeye.store_endpoints. rewrite connect_then.
    destruct (pg_reachable W (trace st ++ [EvConnect]));
      (split; [|split]); try done.
    intros _ _.
    destruct (finally_closed _ {| trace := trace st ++ [EvConnect]; db := db st |}
                (effect_birdeye_statements W es embs)) as (l & Ht & _ & HQ).
    exists l. rewrite Ht. cbn [trace]. by rewrite <- app_assoc.
  - destruct (Hbatch _ (fun ee => BirdeyeSimple.document_values W (fst ee) (snd ee))
                (combine es embs)) as [Hdown Hup].
    split; [exact Hdown|]. split; [done|]. intros Hr _. exact (Hup Hr).
  - destruct (Hbatch _ (fun de => Solana.document_values W (fst de) (snd de))
                (combine ds embs)) as [Hdown Hup].
    split; [exact Hdown|]. split; [done|]. intros Hr _. exact (Hup Hr).
  - destruct (Hbatch _ (fun de => SolanaComprehensive.document_values W (fst de) (snd de))
                (combine ds embs)) as [Hdown Hup].
    split; [exact Hdown|]. split; [done|]. intros Hr _. exact (Hup Hr).
Qed.

Lemma connection_closed_after_try_witness :
  run_store vector_unknown_world
    (SolanaStoreDocuments [demo_solana_doc] [[1%Z]]) empty_state
  = (Raise (Exception "ValueError"),
     {| trace := [EvConnect; EvRegisterVector]; db := db empty_state |}) /\
  exists statements,
    trace (snd (run_store demo_world
                  (SolanaStoreDocuments [demo_solana_doc] [[1%Z]]) empty_state))
    = EvConnect :: EvRegisterVector :: statements ++ [EvClose] /\
    Forall is_statement statements.
Proof.
  split.
  - destruct (connection_closed_after_try vector_unknown_world
                (SolanaStoreDocuments [demo_solana_doc] [[1%Z]]) empty_state eq_refl)
      as (_ & _ & Hreg).
    exact (proj1 (Hreg eq_refl eq_refl) eq_refl).
  - destruct (connection_closed_after_try demo_world
                (SolanaStoreDocuments [demo_solana_doc] [[1%Z]]) empty_state eq_refl)
      as (_ & _ & Hreg).
    exact (proj2 (Hreg eq_refl eq_refl) eq_refl).
Defined.

(** ** The source registry of [ingest_birdeye.py] *)

Section SourceFacts.
Context `{P : Platform} (W : World).

Lemma execute_then {A} (s : sql_stmt) (k : unit -> M A) (st : state) :
  bind (execute W s) k st
  = if pg_reachable W (trace st ++ [EvSql s])
    then k tt {| trace := trace st ++ [EvSql s];
                 db := run_sql (pg W (trace st ++ [EvSql s])) s (db st) |}
    else (Raise (Exception "PostgresError"),
          {| trace := trace st ++ [EvSql s]; db := db st |}).
Proof.
  unfold execute, bind, emit, ask, ret, raise. cbn [trace db].
  by destruct (pg_reachable W _).
Qed.

Lemma execute_ok (s : sql_stmt) (st st' : state) :
  execute W s st = (Ok tt, st') ->
  exists env, db st' = run_sql env s (db st).
Proof.
  unfold execute, bind, emit, ask, ret, raise. cbn [trace db].
  destruct (pg_reachable W _); [|discriminate].
  intros [= <-]. cbn. eauto.
Qed.

Lemma upsert_birdeye_source_has (env : pg_env) (cfg : str) (t : list src_row) :
  exists r, In r (upsert_birdeye_source env cfg t) /\ is_birdeye_source r = true.
Proof.
  unfold upsert_birdeye_source.
  destruct (existsb is_birdeye_source t) eqn:E.
  - apply List.existsb_exists in E as (r & Hr & Hb).
    eexists. split.
    + apply List.in_map_iff. exists r. split; [reflexivity | exact Hr].
    + rewrite Hb. exact Hb.
  - eexists. split; [apply List.in_app_iff; right; left; reflexivity | reflexivity].
Qed.

Lemma update_birdeye_stats_in (docs : list doc_row) (t : list src_row) (r : src_row) :
  In r (update_birdeye_stats docs t) ->
  is_birdeye_source r = true ->
  total_docs r = length (List.filter is_birdeye_doc docs) /\
  total_tokens r = list_sum (map token_count (List.filter is_birdeye_doc docs)).
Proof.
  unfold update_birdeye_stats. intros Hin Hb.
  apply List.in_map_iff in Hin as (r0 & <- & _).
  destruct (is_birdeye_source r0) eqn:E; [done | congruence].
Qed.

Lemma update_birdeye_stats_has (docs : list doc_row) (t : list src_row) :
  (exists r, In r t /\ is_birdeye_source r = true) ->
  exists r, In r (update_birdeye_stats docs t) /\ is_birdeye_source r = true.
Proof.
  intros (r & Hr & Hb). unfold update_birdeye_stats.
  eexists. split.
  - apply List.in_map_iff. exists r. split; [reflexivity | exact Hr].
  - rewrite Hb. exact Hb.
Qed.

Lemma for_each_ok_sources {A} (g : A -> outcome doc_values) (l : list A)
    (st st' : state) :
  for_each l (fun x => try_upsert W (g x)) st = (Ok tt, st') ->
  document_sources (db st') = document_sources (db st).
Proof.
  intros E. destruct (for_each_upsert_run W g l st) as (steps & _ & H2 & _).
  by rewrite E in H2.
Qed.

End SourceFacts.

(** X3.  After [store_endpoints] of [ingest_birdeye.py] has returned, the
    registry has a [birdeye] / [birdeye-api] source, and each such row
    carries the statistics of the documents table as it now is: the number
    of [birdeye] / [birdeye-api] documents and the sum of their token
    counts. *)
Theorem source_stats_match_documents `{P : Platform} (W : World)
    (endpoints : list Birdeye.BirdEyeEndpoint) (embeddings : list (list Float))
    (st : state) :
  fst (Birdeye.store_endpoints W endpoints embeddings st) = Ok tt ->
  let d := db (snd (Birdeye.store_endpoints W endpoints embeddings st)) in
  (exists r, In r (document_sources d) /\ is_birdeye_source r = true) /\
  (forall r,
      In r (document_sources d) -> is_birdeye_source r = true ->
      total_docs r = length (List.filter is_birdeye_doc (documents d)) /\
      total_tokens r
      = list_sum (map token_count (List.filter is_birdeye_doc (documents d)))).
Proof.
  unfold Birdeye.store_endpoints. rewrite connect_then.
  destruct (pg_reachable W (trace st ++ [EvConnect])); [|discriminate].
  destruct (finally_closed _ {| trace := trace st ++ [EvConnect]; db := db st |}
              (effect_birdeye_statements W endpoints embeddings)) as (l & _ & Hfst & _).
  rewrite Hfst. clear Hfst l.
  assert (forall st1 st4,
             (let* _ := Birdeye.ensure_document_source W in
              let* _ := for_each (combine endpoints embeddings)
                          (fun ee => Birdeye.store_document W (fst ee) (snd ee)) in
              Birdeye.update_source_stats W) st1 = (Ok tt, st4) ->
             exists env cfg env',
               db st4 = run_sql env' SqlUpdateBirdeyeStats
                          {| documents := documents (db st4);
                             document_sources :=
                               upsert_birdeye_source env cfg (document_sources (db st1)) |})
    as Hbody.
  { intros st1 st4. unfold bind at 1.
    destruct (Birdeye.ensure_document_source W st1) as [[[]|e] st2] eqn:E1;
      [|discriminate].
    unfold Birdeye.ensure_document_source, bind, ask in E1.
    apply execute_ok in E1 as (env & E1).
    unfold bind at 1.
    rewrite (for_each_ext _ _
               (fun ee => try_upsert W (birdeye_values W (fst ee) (snd ee))) st2)
      by (intros; apply store_document_try_upsert).
    destruct (for_each _ _ st2) as [[[]|e] st3] eqn:E2; [|discriminate].
    apply for_each_ok_sources in E2.
    unfold Birdeye.update_source_stats. intros E3.
    apply execute_ok in E3 as (env' & E3).
    assert (documents (db st4) = documents (db st3)) as Hdocs by (by rewrite E3).
    eexists env, _, env'. rewrite Hdocs, E3. cbn [run_sql documents document_sources].
    rewrite E2, E1. reflexivity. }
  unfold try_finally, close, emit.
  match goal with |- context [?m ?s] =>
    lazymatch m with bind _ _ => destruct (m s) as [[[]|e] st4] eqn:E end end;
    [|discriminate].
  destruct (Hbody _ _ E) as (env & cfg & env' & Hdb).
  cbn [fst snd db]. intros _. rewrite Hdb.
  cbn [run_sql documents document_sources]. split.
  - apply update_birdeye_stats_has, upsert_birdeye_source_has.
  - intros r. apply update_birdeye_stats_in.
Qed.

Lemma source_stats_match_documents_witness :
  let d := db (snd (Birdeye.store_endpoints demo_world
                      [demo_endpoint; demo_endpoint] [[1%Z]; [2%Z]] empty_state)) in
  exists r, In r (document_sources d) /\ is_birdeye_source r = true
            /\ total_docs r = 1 /\ total_tokens r = 2.
Proof.
  intros d.
  destruct (source_stats_match_documents demo_world
              [demo_endpoint; demo_endpoint] [[1%Z]; [2%Z]] empty_state eq_refl)
    as ((r & Hr & Hb) & Hall).
  exists r. split; [exact Hr|]. split; [exact Hb|].
  exact (Hall r Hr Hb).
Defined.

(** ** What a store operation may touch *)

Section StoreEffects.
Context `{P : Platform} (W : World).
Variable D : database -> database -> Prop.
Hypothesis D_refl : forall d, D d d.
Hypothesis D_trans : forall d1 d2 d3, D d1 d2 -> D d2 d3 -> D d1 d3.

(** A store operation relates the database before and after by [D] as
    soon as each statement it can send does. *)
Lemma effect_run_store (op : store_op) :
  (forall env s d, statement_of op s -> D d (run_sql env s d)) ->
  effect D is_store (run_store W op).
Proof using D_refl D_trans.
  intros Hs.
  destruct op as [e emb | es embs | es embs | ds embs | ds embs]; cbn [run_store].
  - unfold Birdeye.store_document.
    intros st. unfold bind, lift.
    destruct (py_replace _ _ _) as [p|err].
    + apply effect_execute; [done|]. intros env d. by apply Hs.
    + exists []. rewrite app_nil_r. by repeat split.
  - unfold Birdeye.store_endpoints, Birdeye.ensure_document_source,
      Birdeye.update_source_stats, close.
    apply effect_bind; [done | by apply effect_connect | intros _].
    apply effect_try_finally; [done | | effect_auto].
    apply effect_bind; [done | | intros _].
    { apply effect_bind; [done | effect_auto | intros now].
      apply effect_execute; [done|]. intros env d. by apply Hs. }
    apply effect_bind; [done | | intros _].
    2:{ apply effect_execute; [done|]. intros env d. by apply Hs. }
    apply effect_for_each; [done | done | intros [e emb] _].
    intros st. unfold Birdeye.store_document, bind, lift. cbn [fst snd].
    destruct (py_replace _ _ _) as [p|err].
    + apply effect_execute; [done|]. intros env d. by apply Hs.
    + exists []. rewrite app_nil_r. by repeat split.
  - apply (effect_batch_store W D D_refl D_trans
             (fun ee => BirdeyeSimple.document_values W (fst ee) (snd ee))).
    intros env d x _. by apply Hs.
  - apply (effect_batch_store W D D_refl D_trans
             (fun de => Solana.document_values W (fst de) (snd de))).
    intros env d x _. by apply Hs.
  - apply (effect_batch_store W D D_refl D_trans
             (fun de => SolanaComprehensive.document_values W (fst de) (snd de))).
    intros env d x _. by apply Hs.
Qed.

Lemma effect_run_stores (ops : list store_op) (st : state) :
  (forall op env s d, In op ops -> statement_of op s -> D d (run_sql env s d)) ->
  D (db st) (db (run_stores W ops st)).
Proof using D_refl D_trans.
  revert st. induction ops as [|op ops IH]; intros st Hs; cbn [run_stores]; [done|].
  destruct (effect_run_store op (fun env s d => Hs op env s d (or_introl eq_refl)) st)
    as (_ & _ & _ & Hd).
  eapply D_trans; [exact Hd|]. apply IH. intros op' env s d Hin. apply Hs. by right.
Qed.

End StoreEffects.

Section RegistryFacts.
Context `{P : Platform}.

Lemma keeps_registry_refl (d : database) : keeps_registry d d.
Proof. by split. Qed.

Lemma keeps_registry_trans (d1 d2 d3 : database) :
  keeps_registry d1 d2 -> keeps_registry d2 d3 -> keeps_registry d1 d3.
Proof. intros [H1 H2] [H3 H4]. split; [auto | congruence]. Qed.

Lemma is_birdeye_source_key (r : src_row) :
  is_birdeye_source r = true <-> src_key r = (lit "birdeye", lit "birdeye-api").
Proof.
  unfold is_birdeye_source, src_key.
  rewrite andb_true_iff, !str_eqb_eq. split; [by intros [-> ->] | by intros [= -> ->]].
Qed.

Lemma rewrite_birdeye_rows (f : src_row -> src_row) (t : list src_row) :
  (forall r, src_key (f r) = src_key r) ->
  map src_key (map (fun r => if is_birdeye_source r then f r else r) t) = map src_key t
  /\ other_sources (map (fun r => if is_birdeye_source r then f r else r) t)
     = other_sources t.
Proof.
  intros Hf. induction t as [|r t [IH1 IH2]]; [done|].
  cbn [map other_sources List.filter]. fold (other_sources t).
  fold (other_sources (map (fun r => if is_birdeye_source r then f r else r) t)).
  rewrite IH1, IH2. split.
  - f_equal. by destruct (is_birdeye_source r).
  - destruct (is_birdeye_source r) eqn:E.
    + assert (is_birdeye_source (f r) = true) as ->
        by (apply is_birdeye_source_key; rewrite Hf; by apply is_birdeye_source_key).
      reflexivity.
    + by rewrite E.
Qed.

Lemma run_sql_keeps_registry (env : pg_env) (s : sql_stmt) (d : database) :
  keeps_registry d (run_sql env s d).
Proof.
  destruct s as [v | cfg |]; cbn [run_sql]; unfold keeps_registry;
    cbn [documents document_sources]; [done | |].
  - unfold upsert_birdeye_source.
    destruct (existsb is_birdeye_source (document_sources d)) eqn:E.
    + match goal with |- context [map ?g (document_sources d)] =>
        lazymatch g with
        | (fun r => if is_birdeye_source r then @?f r else r) =>
            destruct (rewrite_birdeye_rows f (document_sources d)) as [H1 H2]; [done|]
        end end.
      rewrite H1. by split.
    + split.
      * intros Hnd. rewrite map_app. apply NoDup_app. split; [done|]. split.
        -- intros k Hk Hk'. apply list_elem_of_singleton in Hk'. subst k.
           apply list_elem_of_In, List.in_map_iff in Hk as (r & Hr & Hin).
           apply is_birdeye_source_key in Hr.
           assert (existsb is_birdeye_source (document_sources d) = true)
             by (apply List.existsb_exists; eauto).
           congruence.
        -- apply NoDup_singleton.
      * unfold other_sources. rewrite List.filter_app. cbn. by rewrite app_nil_r.
  - unfold update_birdeye_stats.
    match goal with |- context [map ?g (document_sources d)] =>
      lazymatch g with
      | (fun r => if is_birdeye_source r then @?f r else r) =>
          destruct (rewrite_birdeye_rows f (document_sources d)) as [H1 H2]; [done|]
      end end.
    rewrite H1. by split.
Qed.

Lemma keeps_other_documents_refl (src : str * str) (d : database) :
  keeps_other_documents src d d.
Proof. by intros i r. Qed.

Lemma keeps_other_documents_trans (src : str * str) (d1 d2 d3 : database) :
  keeps_other_documents src d1 d2 -> keeps_other_documents src d2 d3 ->
  keeps_other_documents src d1 d3.
Proof. intros H1 H2 i r Hi Hne. apply H2; [by apply H1 | done]. Qed.

Lemma run_sql_keeps_other_documents (op : store_op) (env : pg_env) (s : sql_stmt)
    (d : database) :
  statement_of op s -> keeps_other_documents (op_source op) d (run_sql env s d).
Proof.
  intros Hs i r Hi Hne. destruct s as [v | cfg |]; cbn [run_sql documents]; [|done..].
  rewrite (upsert_lookup env v _ i r Hi). f_equal.
  unfold update_if_conflict.
  destruct (key_eqb (key_of_row r) (key_of_values v)) eqn:E; [|done].
  apply key_eqb_eq in E. injection E as E1 E2 E3.
  exfalso. apply Hne. cbn in Hs. congruence.
Qed.

End RegistryFacts.

(** X4.  The source registry keeps one row per [(doc_type, source_name)]
    under every sequence of store operations, and the rows of sources other
    than [birdeye] / [birdeye-api] are never touched. *)
Theorem source_registry_invariant `{P : Platform} (W : World) (ops : list store_op)
    (st : state) :
  NoDup (map src_key (document_sources (db st))) ->
  NoDup (map src_key (document_sources (db (run_stores W ops st)))) /\
  other_sources (document_sources (db (run_stores W ops st)))
  = other_sources (document_sources (db st)).
Proof.
  intros Hnd.
  destruct (effect_run_stores W keeps_registry keeps_registry_refl
              keeps_registry_trans ops st) as [H1 H2].
  - intros op env s d _ _. apply run_sql_keeps_registry.
  - split; [by apply H1 | exact H2].
Qed.

Lemma source_registry_invariant_witness :
  NoDup (map src_key
           (document_sources
              (db (run_stores demo_world
                     [BirdeyeStoreEndpoints [demo_endpoint] [[1%Z]];
                      BirdeyeStoreEndpoints [demo_endpoint] [[2%Z]]] empty_state)))).
Proof.
  apply (source_registry_invariant demo_world). constructor.
Defined.

(** X5.  A store operation only writes under the source of its script:
    every row of the documents table whose [(doc_type, source_name)] is
    another one is, after the operation, at the same place and unchanged,
    whether the operation returns or raises. *)
Theorem store_keeps_other_sources `{P : Platform} (W : World) (op : store_op)
    (st : state) (i : nat) (r : doc_row) :
  documents (db st) !! i = Some r ->
  (doc_type r, source_name r) <> op_source op ->
  documents (db (snd (run_store W op st))) !! i = Some r.
Proof.
  intros Hi Hne.
  destruct (effect_run_store W (keeps_other_documents (op_source op))
              (keeps_other_documents_refl _) (keeps_other_documents_trans _) op
              (fun env s d => run_sql_keeps_other_documents op env s d) st)
    as (_ & _ & _ & Hd).
  by apply Hd.
Qed.

Lemma store_keeps_other_sources_witness :
  let st := snd (run_store demo_world
                   (SolanaStoreDocuments [demo_solana_doc] [[1%Z]]) empty_state) in
  exists r,
    documents (db st) !! 0 = Some r /\
    documents (db (snd (run_store demo_world
                          (BirdeyeStoreEndpoints [demo_endpoint] [[2%Z]]) st))) !! 0
    = Some r.
Proof.
  intros st. eexists. split; [reflexivity|].
  apply (store_keeps_other_sources demo_world
           (BirdeyeStoreEndpoints [demo_endpoint] [[2%Z]]) st 0); [reflexivity|].
  discriminate.
Defined.

(** ** [ingest_birdeye_simple.py]: downloading and reading the specification *)

Section SimpleFacts.
Context `{P : Platform} (W : World).

Lemma session_get_run (url : str) (st : state) :
  session_get W url st
  = (match http_get W (trace st ++ [EvHttpGet url]) url with
     | Some r => Ok r
     | None => Raise (Exception "RequestException")
     end,
     {| trace := trace st ++ [EvHttpGet url]; db := db st |}).
Proof.
  unfold session_get, bind, emit, ask, ret, raise. cbn [trace db].
  by destruct (http_get W _ _).
Qed.

Lemma lift_then {A B} (o : outcome A) (k : A -> M B) (st : state) :
  bind (lift o) k st = match o with Ok a => k a st | Raise e => (Raise e, st) end.
Proof. unfold bind, lift. by destruct o. Qed.

End SimpleFacts.

Ltac early_exit :=
  match goal with Hr : ?r = _ |- _ => subst r end;
  cbn [fst snd]; split; [done|]; split; [done|]; split; [by left | discriminate].
Ltac late_exit :=
  match goal with Hr : ?r = _ |- _ => subst r end;
  cbn [fst snd]; split; [done|]; split; [done|]; split; [by right | discriminate].

(** X6.  [download_openapi_spec] sends one request and leaves the database
    alone.  What it returns is the [schema] under [data.api] of the
    response, it is a JSON object, and the file has been written; when it
    raises before the file is written nothing but the request has
    happened. *)
Theorem download_openapi_spec_result `{P : Platform} (W : World) (output_file : str)
    (st : state) :
  let r := BirdeyeSimple.download_openapi_spec W output_file st in
  db (snd r) = db st /\
  http_requests (trace (snd r))
  = http_requests (trace st) ++ [BirdeyeSimple.spec_url] /\
  (trace (snd r) = trace st ++ [EvHttpGet BirdeyeSimple.spec_url]
   \/ trace (snd r)
      = trace st ++ [EvHttpGet BirdeyeSimple.spec_url; EvWriteFile output_file]) /\
  (forall openapi_spec,
      fst r = Ok openapi_spec ->
      trace (snd r)
      = trace st ++ [EvHttpGet BirdeyeSimple.spec_url; EvWriteFile output_file] /\
      (exists items, openapi_spec = JObj items) /\
      exists response data d a,
        http_get W (trace st ++ [EvHttpGet BirdeyeSimple.spec_url])
                 BirdeyeSimple.spec_url = Some response /\
        ~ (400 <= status_code response < 600) /\
        json_loads W (body response) = Some data /\
        py_getitem data (lit "data") = Ok d /\
        py_getitem d (lit "api") = Ok a /\
        py_getitem a (lit "schema") = Ok openapi_spec).
Proof.
  intros r. assert (r = BirdeyeSimple.download_openapi_spec W output_file st) as Hr
    by reflexivity.
  clearbody r. unfold BirdeyeSimple.download_openapi_spec in Hr.
  unfold bind at 1 in Hr. rewrite session_get_run in Hr.
  set (st1 := {| trace := trace st ++ [EvHttpGet BirdeyeSimple.spec_url]; db := db st |})
    in Hr.
  assert (http_requests (trace st1)
          = http_requests (trace st) ++ [BirdeyeSimple.spec_url]) as Hreq
    by (subst st1; cbn [trace]; by rewrite http_requests_app).
  destruct (http_get W _ _) as [response|] eqn:Hget; [|early_exit].
  unfold bind at 1 in Hr. unfold raise_for_status in Hr.
  destruct ((400 <=? status_code response) && (status_code response <? 600)) eqn:Hst;
    [unfold raise in Hr; early_exit|].
  assert (~ (400 <= status_code response < 600)) as Hstatus.
  { intros [H1 H2]. apply Nat.leb_le in H1. apply Nat.ltb_lt in H2.
    rewrite H1, H2 in Hst. discriminate. }
  unfold ret at 1 in Hr. unfold bind at 1 in Hr. unfold response_json in Hr.
  destruct (json_loads W (body response)) as [data|] eqn:Hjson;
    [|unfold raise in Hr; early_exit].
  unfold ret at 1 in Hr. unfold bind at 1 in Hr.
  assert (snd (BirdeyeSimple.schema_missing data st1) = st1) as Hsilent.
  { apply silent_state. unfold BirdeyeSimple.schema_missing.
    assert (forall d0 : database, d0 = d0) as D_refl by done.
    assert (forall d1 d2 d3 : database, d1 = d2 -> d2 = d3 -> d1 = d3) as D_trans
      by (intros; congruence).
    effect_auto. }
  destruct (BirdeyeSimple.schema_missing data st1) as [[missing|e] st2] eqn:Hmiss;
    cbn [snd] in Hsilent; subst st2; [|early_exit].
  destruct missing; [unfold raise in Hr; early_exit|].
  rewrite lift_then in Hr.
  destruct (py_getitem data (lit "data")) as [d|] eqn:Hd; [|early_exit].
  rewrite lift_then in Hr.
  destruct (py_getitem d (lit "api")) as [a|] eqn:Ha; [|early_exit].
  rewrite lift_then in Hr.
  destruct (py_getitem a (lit "schema")) as [spec|] eqn:Hs; [|early_exit].
  unfold bind at 1 in Hr. unfold emit at 1 in Hr. cbn [trace db] in Hr.
  set (st3 := {| trace := (trace st ++ [EvHttpGet BirdeyeSimple.spec_url])
                          ++ [EvWriteFile output_file]; db := db st |}) in Hr.
  assert (trace st3
          = trace st ++ [EvHttpGet BirdeyeSimple.spec_url; EvWriteFile output_file])
    as Htr by (subst st3; cbn [trace]; by rewrite <- app_assoc).
  assert (http_requests (trace st3)
          = http_requests (trace st) ++ [BirdeyeSimple.spec_url]) as Hreq3.
  { rewrite Htr, http_requests_app. reflexivity. }
  rewrite lift_then in Hr.
  destruct (py_get spec (lit "paths") (JObj [])) as [paths|] eqn:Hp; [|late_exit].
  rewrite lift_then in Hr.
  destruct (py_len paths) as [n|] eqn:Hn; [|late_exit].
  unfold ret in Hr. subst r. cbn [fst snd].
  split; [done|]. split; [done|]. split; [by right|].
  intros openapi_spec [= <-]. split; [done|]. split.
  - destruct spec; try discriminate. eauto.
  - exists response, data, d, a. by repeat split.
Qed.

Section LoopFacts.
Context `{P : Platform}.

Lemma bind_ok {A B} (m : M A) (k : A -> M B) (st : state) (b : B) (st' : state) :
  bind m k st = (Ok b, st') ->
  exists a st1, m st = (Ok a, st1) /\ k a st1 = (Ok b, st').
Proof.
  unfold bind. destruct (m st) as [[a|e] st1]; [eauto | discriminate].
Qed.



Lemma for_acc_ok_Forall {A B C} (R : C -> Prop) (h : B -> list C)
    (body : B -> A -> M B) (l : list A) :
  (forall acc x st r st',
      In x l -> body acc x st = (Ok r, st') -> Forall R (h acc) -> Forall R (h r)) ->
  forall acc st r st',
    for_acc l acc body st = (Ok r, st') -> Forall R (h acc) -> Forall R (h r).
Proof.
  induction l as [|x l IH]; intros Hbody acc st r st'; cbn [for_acc].
  - unfold ret. by intros [= <- _].
  - intros Hrun Hacc. apply bind_ok in Hrun as (acc1 & st1 & H1 & H2).
    eapply IH; [intros; eapply Hbody; [by right | eauto | eauto] | exact H2 |].
    eapply Hbody; [by left | exact H1 | exact Hacc].
Qed.

End LoopFacts.

Section OperationFacts.
Context `{P : Platform} (W : World).



End OperationFacts.



(** ** [ingest_birdeye.py]: the extraction loop *)

Section PacingFacts.
Context `{P : Platform} (W : World).

Lemma pauses_app (a b : list event) : pauses (a ++ b) = pauses a ++ pauses b.
Proof. unfold pauses. apply flat_map_app. Qed.

Lemma extract_endpoint_data_pauses (url : str) (st : state) :
  pauses (trace (snd (Birdeye.extract_endpoint_data W url st))) = pauses (trace st).
Proof.
  rewrite extract_endpoint_data_state. cbn [trace]. rewrite pauses_app.
  destruct (contains _ _); cbn; by rewrite app_nil_r.
Qed.

(** An endpoint that [extract_endpoint_data] returns carries the URL it was
    asked for, and that URL has the expected form. *)
Lemma extract_endpoint_data_some (url : str) (st : state)
    (e : Birdeye.BirdEyeEndpoint) (st' : state) :
  Birdeye.extract_endpoint_data W url st = (Ok (Some e), st') ->
  Birdeye.url e = url /\ contains (lit "/reference/") url = true.
Proof.
  unfold Birdeye.extract_endpoint_data, try_except.
  destruct (Birdeye.extract_endpoint_body W url st) as [[r|[k|c]] s1] eqn:Hbody;
    [|unfold ret; discriminate|discriminate].
  intros [= -> ->]. revert Hbody. unfold Birdeye.extract_endpoint_body.
  destruct (contains (lit "/reference/") url); cbn [negb];
    [|unfold ret; discriminate].
  intros Hrun.
  apply bind_ok in Hrun as (? & ? & _ & Hrun).
  apply bind_ok in Hrun as (? & ? & _ & Hrun).
  apply bind_ok in Hrun as (? & ? & _ & Hrun).
  apply bind_ok in Hrun as (has_data & ? & _ & Hrun).
  destruct has_data; cbn [negb] in Hrun; [|unfold ret in Hrun; discriminate].
  apply bind_ok in Hrun as (? & ? & _ & Hrun).
  apply bind_ok in Hrun as (? & ? & _ & Hrun).
  apply bind_ok in Hrun as ([[? ?] ?] & ? & _ & Hrun).
  apply bind_ok in Hrun as (? & ? & _ & Hrun).
  apply bind_ok in Hrun as (? & ? & _ & Hrun).
  apply bind_ok in Hrun as (? & ? & _ & Hrun).
  unfold ret in Hrun. injection Hrun as <- _. by split.
Qed.

Lemma extract_loop_cons (total_urls i : nat) (url : str) (rest : list str)
    (acc : list Birdeye.BirdEyeEndpoint) (st : state) :
  Birdeye.extract_loop W total_urls i (url :: rest) acc st
  = match Birdeye.extract_endpoint_data W url st with
    | (Ok endpoint, st1) =>
        Birdeye.extract_loop W total_urls (S i) rest
          (match endpoint with Some e => acc ++ [e] | None => acc end)
          (if i <? total_urls - 1
           then {| trace := trace st1
                            ++ [EvSleep (if 20 <? total_urls then 15 else 10)];
                   db := db st1 |}
           else st1)
    | (Raise e, st1) => (Raise e, st1)
    end.
Proof.
  cbn [Birdeye.extract_loop]. unfold bind at 1.
  destruct (Birdeye.extract_endpoint_data W url st) as [[endpoint|e] st1]; [|done].
  unfold bind at 1. by destruct (i <? total_urls - 1).
Qed.

Lemma extract_loop_paced (total_urls : nat) (urls : list str) :
  forall i acc st,
    i + length urls = total_urls ->
    pauses (trace (snd (Birdeye.extract_loop W total_urls i urls acc st)))
    = pauses (trace st)
      ++ repeat (if 20 <? total_urls then 15 else 10) (length urls - 1) /\
    exists endpoints,
      fst (Birdeye.extract_loop W total_urls i urls acc st) = Ok (acc ++ endpoints) /\
      sublist (map Birdeye.url endpoints)
              (List.filter (contains (lit "/reference/")) urls).
Proof.
  induction urls as [|url urls IH]; intros i acc st Hlen.
  - cbn [Birdeye.extract_loop List.filter length]. unfold ret. cbn.
    rewrite app_nil_r. split; [done|].
    exists []. rewrite app_nil_r. split; [done | constructor].
  - rewrite extract_loop_cons.
    pose proof (extract_endpoint_data_pauses url st) as Hp.
    destruct (extract_endpoint_data_total W url st) as (o & Ho).
    destruct (Birdeye.extract_endpoint_data W url st) as [[o'|e] st1] eqn:Hdata;
      cbn [fst snd] in *; [|discriminate].
    injection Ho as ->.
    assert (match o with
            | Some e => Birdeye.url e = url /\ contains (lit "/reference/") url = true
            | None => True
            end) as Hsome.
    { destruct o as [e|]; [|done]. by apply (extract_endpoint_data_some url st e st1). }
    set (acc' := match o with Some e => acc ++ [e] | None => acc end).
    set (st2 := if i <? total_urls - 1 then _ else _).
    assert (pauses (trace st2) ++
            repeat (if 20 <? total_urls then 15 else 10) (length urls - 1)
            = pauses (trace st) ++
              repeat (if 20 <? total_urls then 15 else 10) (length (url :: urls) - 1))
      as Hcount.
    { subst st2. cbn [length] in *. destruct (i <? total_urls - 1) eqn:Hlast.
      - apply Nat.ltb_lt in Hlast. cbn [trace]. rewrite pauses_app, Hp.
        cbn [pauses flat_map app]. rewrite <- app_assoc. f_equal.
        destruct urls as [|url2 urls2]; [cbn [length] in Hlen; lia|].
        cbn [length]. replace (S (S (length urls2)) - 1) with (S (S (length urls2) - 1))
          by lia. reflexivity.
      - apply Nat.ltb_ge in Hlast. rewrite Hp.
        destruct urls as [|url2 urls2]; [done | cbn [length] in Hlen; lia]. }
    destruct (IH (S i) acc' st2 ltac:(cbn [length] in Hlen; lia))
      as (Hpauses & es & Hes & Hsub).
    split; [by rewrite Hpauses|].
    subst acc'. cbn [List.filter]. destruct o as [e|].
    + destruct Hsome as [Hu Hc]. exists (e :: es). split.
      * rewrite Hes, <- app_assoc. reflexivity.
      * rewrite Hc. cbn [map]. rewrite Hu. by constructor.
    + exists es. split; [done|].
      destruct (contains _ url); [by constructor | done].
Qed.

(** The events of the loop, in order. *)
Lemma extract_loop_events (total_urls : nat) (urls : list str) :
  forall i acc st,
    i + length urls = total_urls ->
    snd (Birdeye.extract_loop W total_urls i urls acc st)
    = {| trace := trace st
                  ++ extraction_events (if 20 <? total_urls then 15 else 10) urls;
         db := db st |}.
Proof.
  induction urls as [|url urls IH]; intros i acc st Hlen.
  - cbn [Birdeye.extract_loop extraction_events]. unfold ret. cbn [snd].
    rewrite app_nil_r. by destruct st.
  - rewrite extract_loop_cons.
    pose proof (extract_endpoint_data_state W url st) as Hst.
    destruct (extract_endpoint_data_total W url st) as (o & Ho).
    destruct (Birdeye.extract_endpoint_data W url st) as [[o'|e] st1] eqn:Hdata;
      cbn [fst snd] in *; [|discriminate].
    cbn [length] in Hlen.
    rewrite IH by lia. subst st1. cbn [extraction_events].
    fold (request_of url).
    destruct (i <? total_urls - 1) eqn:Hlast.
    + apply Nat.ltb_lt in Hlast.
      destruct urls as [|url2 urls2]; [cbn [length] in Hlen; lia|].
      cbn [trace db]. by rewrite <- !app_assoc.
    + apply Nat.ltb_ge in Hlast.
      destruct urls as [|url2 urls2]; [|cbn [length] in Hlen; lia].
      cbn [trace db extraction_events app]. by rewrite <- !app_assoc.
Qed.

End PacingFacts.

(** X8.  The extraction loop of [main] makes, URL by URL, one request if
    the URL contains [/reference/] and none otherwise, and pauses after
    every URL but the last, whether the extraction succeeded or not, for
    10 seconds, or 15 when there are more than 20 URLs: these are all the
    events of the loop, in this order, and the database is not touched.
    It returns the endpoints extracted in the order of the URLs, each with
    the URL it came from, and none for a URL without [/reference/]. *)
Theorem extract_loop_pacing `{P : Platform} (W : World) (urls : list str) (st : state) :
  let r := Birdeye.extract_loop W (length urls) 0 urls [] st in
  trace (snd r)
  = trace st ++ extraction_events (if 20 <? length urls then 15 else 10) urls /\
  db (snd r) = db st /\
  pauses (trace (snd r))
  = pauses (trace st)
    ++ repeat (if 20 <? length urls then 15 else 10) (length urls - 1) /\
  exists endpoints,
    fst r = Ok endpoints /\
    sublist (map Birdeye.url endpoints)
            (List.filter (contains (lit "/reference/")) urls).
Proof.
  intros r. subst r.
  rewrite (extract_loop_events W (length urls) urls 0 [] st eq_refl). cbn [snd trace db].
  split; [done|]. split; [done|].
  pose proof (extract_loop_paced W (length urls) urls 0 [] st eq_refl) as [Hp He].
  rewrite (extract_loop_events W (length urls) urls 0 [] st eq_refl) in Hp.
  split; [exact Hp | exact He].
Qed.

(** The loop on three URLs, the second of which is not of the expected
    form. *)
Example extraction_events_demo :
  @extraction_events demo_platform 10
    [lit "https://docs.birdeye.so/reference/a"; lit "https://docs.birdeye.so/docs/b";
     lit "https://docs.birdeye.so/reference/c"]
  = [EvHttpGet (request_of (lit "https://docs.birdeye.so/reference/a")); EvSleep 10;
     EvSleep 10;
     EvHttpGet (request_of (lit "https://docs.birdeye.so/reference/c"))].
Proof. reflexivity. Qed.

(** ** [ingest_birdeye.py]: a run without the network *)

Section OfflineFacts.
Context `{P : Platform} (W : World).
Hypothesis offline : forall tr url, http_get W tr url = None.

Lemma extract_endpoint_data_offline (url : str) (st : state) :
  fst (Birdeye.extract_endpoint_data W url st) = Ok None.
Proof using offline.
  destruct (contains (lit "/reference/") url) eqn:Hc.
  - apply extract_request_failed; [exact Hc | apply offline].
  - by rewrite extract_invalid_url.
Qed.

Lemma extract_loop_offline (total_urls : nat) (urls : list str) :
  forall i acc st,
    fst (Birdeye.extract_loop W total_urls i urls acc st) = Ok acc.
Proof using offline.
  induction urls as [|url urls IH]; intros i acc st; [done|].
  rewrite extract_loop_cons.
  pose proof (extract_endpoint_data_offline url st) as Hnone.
  destruct (Birdeye.extract_endpoint_data W url st) as [[o|e] st1];
    cbn [fst] in Hnone; [|discriminate].
  injection Hnone as ->. apply IH.
Qed.

End OfflineFacts.

(** X9.  When no request gets an answer, [main] of [ingest_birdeye.py]
    exits with status 1: no endpoint was extracted.  Up to then it has
    only sent requests and paused; the embedding API and the database are
    not contacted, and the database is as it was. *)
Theorem birdeye_main_offline `{P : Platform} (W : World) (st : state) :
  (forall tr url, http_get W tr url = None) ->
  fst (Birdeye.main W st) = Raise (SystemExit 1) /\
  db (snd (Birdeye.main W st)) = db st /\
  exists evs,
    trace (snd (Birdeye.main W st)) = trace st ++ evs /\
    Forall is_fetch evs.
Proof.
  intros offline. unfold Birdeye.main.
  assert (forall s : state,
             snd ((raise (SystemExit 1) : M unit) s) = s /\
             fst ((raise (SystemExit 1) : M unit) s) = Raise (SystemExit 1))
    as Hexit by done.
  destruct (negb (env_set W (lit "DATABASE_URL"))).
  { split; [done|]. split; [done|]. exists []. by rewrite app_nil_r. }
  destruct (negb (env_set W (lit "OPENAI_API_KEY"))).
  { split; [done|]. split; [done|]. exists []. by rewrite app_nil_r. }
  set (urls := firstn 3 Birdeye.discover_all_endpoints).
  unfold Birdeye.ingest, bind.
  pose proof (extract_loop_offline W offline (length urls) urls 0 [] st) as Hnone.
  destruct (effect_extract_loop W eq ltac:(done) ltac:(intros; congruence)
              (length urls) 0 urls [] st) as (evs & Htrace & Hfetch & Hdb).
  destruct (Birdeye.extract_loop W (length urls) 0 urls [] st) as [[es|e] st1];
    cbn [fst snd] in *; [|discriminate].
  injection Hnone as ->. unfold raise. cbn [fst snd].
  split; [done|]. split; [done|]. by exists evs.
Qed.

Lemma birdeye_main_offline_witness :
  fst (Birdeye.main offline_world empty_state) = Raise (SystemExit 1) /\
  db (snd (Birdeye.main offline_world empty_state)) = db empty_state.
Proof.
  destruct (birdeye_main_offline offline_world empty_state (fun _ _ => eq_refl))
    as (Hexit & Hdb & _).
  by split.
Defined.

(** ** A failed embedding request ends the run *)

Section EmbeddingFacts.
Context `{P : Platform} (W : World).

Lemma app_eq_cons_split {A} (l1 l2 before after : list A) (x : A) :
  l1 ++ l2 = before ++ x :: after ->
  (exists a1, l1 = before ++ x :: a1 /\ after = a1 ++ l2) \/
  (exists b2, before = l1 ++ b2 /\ l2 = b2 ++ x :: after).
Proof.
  revert before. induction l1 as [|y l1 IH]; intros before Heq.
  - right. by exists before.
  - destruct before as [|b before]; cbn [app] in Heq.
    + injection Heq as -> <-. left. by exists l1.
    + injection Heq as -> Heq. destruct (IH before Heq) as [(a1 & -> & ->)|(b2 & -> & ->)].
      * left. by exists a1.
      * right. by exists b2.
Qed.

(** A computation that makes no embedding request. *)
Lemma stops_without_embedding {A} (D : database -> database -> Prop)
    (Q : event -> Prop) (m : M A) :
  (forall input, ~ Q (EvEmbed input)) ->
  effect D Q m -> stops_at_failed_embedding W m.
Proof.
  intros HQ Hm st. destruct (Hm st) as (added & Ht & Hall & _).
  exists added. split; [exact Ht|].
  intros before input after -> _. exfalso.
  apply Forall_app in Hall as [_ Hall]. inversion Hall; subst. by eapply HQ.
Qed.

Lemma stops_bind {A B} (Q : event -> Prop) (m : M A) (k : A -> M B) :
  effect eq Q m ->
  stops_at_failed_embedding W m ->
  (forall a, stops_at_failed_embedding W (k a)) ->
  stops_at_failed_embedding W (bind m k).
Proof.
  intros Hm Hstop Hk st. unfold bind.
  destruct (Hm st) as (added0 & Ht0 & _ & Hdb).
  destruct (Hstop st) as (added1 & Ht1 & Hfail1).
  destruct (m st) as [[a|e] st1]; cbn [fst snd] in *.
  2:{ exists added1. split; [exact Ht1|]. intros before input after Heq Hnone.
      destruct (Hfail1 before input after Heq Hnone) as (-> & [= ->] & Hdb1).
      by repeat split. }
  destruct (Hk a st1) as (added2 & Ht2 & Hfail2).
  exists (added1 ++ added2). split; [by rewrite Ht2, Ht1, <- app_assoc|].
  intros before input after Heq Hnone.
  apply app_eq_cons_split in Heq as [(a1 & -> & ->)|(b2 & -> & ->)].
  - destruct (Hfail1 before input a1 eq_refl Hnone) as (_ & Hraise & _).
    discriminate.
  - destruct (Hfail2 b2 input after eq_refl) as (-> & Hraise & Hdb2).
    { rewrite Ht1, <- !app_assoc. by rewrite <- app_assoc in Hnone. }
    split; [done|]. split; [done|]. congruence.
Qed.

Lemma stops_generate_embedding (text : str) :
  stops_at_failed_embedding W (generate_embedding W text).
Proof.
  intros st. exists [EvEmbed (truncate_text text)].
  unfold generate_embedding, bind, emit, ask. cbn [trace db].
  split.
  { by destruct (embeddings_create W _ _). }
  intros before input after Heq Hnone.
  destruct before as [|b before].
  - injection Heq as <- <-. cbn [app] in Hnone. rewrite Hnone.
    by repeat split.
  - injection Heq as _ Heq. by destruct before.
Qed.

Lemma stops_for_acc {A B} (Q : event -> Prop) (body : B -> A -> M B)
    (l : list A) (acc : B) :
  (forall acc0 x, effect eq Q (body acc0 x)) ->
  (forall acc0 x, stops_at_failed_embedding W (body acc0 x)) ->
  stops_at_failed_embedding W (for_acc l acc body).
Proof.
  intros Heff Hstop. revert acc.
  induction l as [|x l IH]; intros acc; cbn [for_acc].
  - apply (stops_without_embedding eq no_event); [intros ? []|].
    apply effect_ret. done.
  - by apply (stops_bind Q).
Qed.

End EmbeddingFacts.

Section ScriptEmbeddingFacts.
Context `{P : Platform} (W : World).

Let eq_db_refl : forall d : database, d = d := fun d => eq_refl.
Let eq_db_trans : forall d1 d2 d3 : database, d1 = d2 -> d2 = d3 -> d1 = d3 :=
  fun d1 d2 d3 H1 H2 => eq_trans H1 H2.

Lemma not_fetch_embed (input : str) : ~ is_fetch (EvEmbed input).
Proof. by intros []. Qed.

Lemma not_store_embed (input : str) : ~ is_store (EvEmbed input).
Proof. by intros []. Qed.

(** An embedding loop followed by the store. *)
Lemma stops_embed_then_store {A B} (items : list A)
    (embed_step : list (list Float) -> A -> M (list (list Float)))
    (store : list (list Float) -> M B) :
  (forall acc x, effect eq is_embed (embed_step acc x)) ->
  (forall acc x, stops_at_failed_embedding W (embed_step acc x)) ->
  (forall embeddings, effect any_db is_store (store embeddings)) ->
  stops_at_failed_embedding W
    (let* embeddings := for_acc items [] embed_step in store embeddings).
Proof.
  intros Heff Hstop Hstore.
  apply (stops_bind W is_embed).
  - by apply effect_for_acc.
  - by apply (stops_for_acc W is_embed).
  - intros embeddings.
    apply (stops_without_embedding W any_db is_store);
      [apply not_store_embed | apply Hstore].
Qed.

(** The request of an embedding step, and what follows it. *)
Lemma stops_request_then {A} (text : str) (k : list Float -> M A) :
  (forall v, effect eq is_fetch (k v)) ->
  stops_at_failed_embedding W (let* embedding := generate_embedding W text in k embedding).
Proof.
  intros Hk. apply (stops_bind W is_embed).
  - by apply effect_generate_embedding.
  - apply stops_generate_embedding.
  - intros v. apply (stops_without_embedding W eq is_fetch);
      [apply not_fetch_embed | apply Hk].
Qed.

End ScriptEmbeddingFacts.

(** X10.  In each of the four scripts a failed embedding request ends the
    run: it is the last external call of [main], [main] raises the error
    of [generate_embedding], and nothing has been written to the database,
    whatever was embedded before. *)
Theorem failed_embedding_ends_run `{P : Platform} (W : World)
    (H1 : Solana.Heuristics) (H2 : SolanaComprehensive.Heuristics) :
  stops_at_failed_embedding W (Birdeye.main W) /\
  stops_at_failed_embedding W (BirdeyeSimple.main W) /\
  stops_at_failed_embedding W (Solana.main W H1) /\
  stops_at_failed_embedding W (SolanaComprehensive.main W H2).
Proof.
  assert (forall d : database, d = d) as D_refl by done.
  assert (forall d1 d2 d3 : database, d1 = d2 -> d2 = d3 -> d1 = d3) as D_trans
    by (intros; congruence).
  pose proof (@any_db_refl P) as Hr. pose proof (@any_db_trans P) as Ht.
  assert (forall A (e : exn), stops_at_failed_embedding W (raise e : M A)) as Hraise.
  { intros A e. apply (stops_without_embedding W eq no_event); [intros ? []|].
    by apply effect_raise. }
  assert (forall A (a : A), stops_at_failed_embedding W (ret a)) as Hret.
  { intros A a. apply (stops_without_embedding W eq no_event); [intros ? []|].
    by apply effect_ret. }
  assert (forall A (m : M A), effect eq is_fetch m -> stops_at_failed_embedding W m)
    as Hfetch.
  { intros A m. apply stops_without_embedding. apply not_fetch_embed. }
  repeat split.
  - unfold Birdeye.main, Birdeye.ingest.
    repeat (destruct (negb _); [apply Hraise|]).
    apply (stops_bind W is_fetch); [by apply effect_extract_loop | |].
    { apply Hfetch. by apply effect_extract_loop. }
    intros [|e es]; [apply Hraise|].
    apply stops_embed_then_store.
    + intros acc x. unfold Birdeye.embed_step.
      apply effect_bind; [done | by apply effect_generate_embedding | intros emb].
      effect_auto.
    + intros acc x. unfold Birdeye.embed_step. apply stops_request_then.
      intros v. effect_auto.
    + intros embs. by apply effect_birdeye_store_endpoints.
  - unfold BirdeyeSimple.main.
    repeat (destruct (negb _); [apply Hraise|]).
    apply (stops_bind W is_fetch); [by apply effect_download_openapi_spec | |].
    { apply Hfetch. by apply effect_download_openapi_spec. }
    intros spec.
    apply (stops_bind W is_fetch); [by apply effect_extract_endpoints_from_spec | |].
    { apply Hfetch. by apply effect_extract_endpoints_from_spec. }
    intros endpoints.
    apply stops_embed_then_store.
    + intros acc x. unfold BirdeyeSimple.embed_step.
      apply effect_bind; [done | by apply effect_generate_embedding | intros emb].
      effect_auto.
    + intros acc x. unfold BirdeyeSimple.embed_step. apply stops_request_then.
      intros v. effect_auto.
    + intros embs. unfold BirdeyeSimple.store_endpoints.
      by apply (effect_batch_store W any_db Hr Ht
                  (fun ee => BirdeyeSimple.document_values W (fst ee) (snd ee))).
  - unfold Solana.main.
    repeat (destruct (negb _); [apply Hraise|]).
    apply (stops_bind W is_fetch); [by apply effect_solana_process_all_files | |].
    { apply Hfetch. by apply effect_solana_process_all_files. }
    intros [|d ds]; [apply Hret|].
    apply stops_embed_then_store.
    + intros acc x. unfold Solana.embed_step.
      apply effect_bind; [done | by apply effect_generate_embedding | intros emb].
      effect_auto.
    + intros acc x. unfold Solana.embed_step. apply stops_request_then.
      intros v. effect_auto.
    + intros embs. unfold Solana.store_documents.
      by apply (effect_batch_store W any_db Hr Ht
                  (fun de => Solana.document_values W (fst de) (snd de))).
  - unfold SolanaComprehensive.main.
    repeat (destruct (negb _); [apply Hraise|]).
    apply (stops_bind W is_fetch);
      [by apply effect_comprehensive_process_all_files | |].
    { apply Hfetch. by apply effect_comprehensive_process_all_files. }
    intros [|d ds]; [apply Hret|].
    apply stops_embed_then_store.
    + intros acc x. unfold SolanaComprehensive.embed_step.
      apply effect_bind; [done | by apply effect_generate_embedding | intros emb].
      effect_auto.
    + intros acc x. unfold SolanaComprehensive.embed_step. apply stops_request_then.
      intros v. effect_auto.
    + intros embs. unfold SolanaComprehensive.store_documents.
      by apply (effect_batch_store W any_db Hr Ht
                  (fun de => SolanaComprehensive.document_values W (fst de) (snd de))).
Qed.

Lemma failed_embedding_ends_run_witness :
  fst (Birdeye.main embedding_down_world empty_state)
  = Raise (Exception "EmbeddingError") /\
  db (snd (Birdeye.main embedding_down_world empty_state)) = db empty_state.
Proof.
  destruct (failed_embedding_ends_run embedding_down_world demo_heuristics
              demo_comprehensive_heuristics) as (Hb & _).
  destruct (Hb empty_state) as (added & Ht & Hfail).
  cbn [trace empty_state app] in Ht. subst added.
  destruct (Hfail (firstn 5 (trace (snd (Birdeye.main embedding_down_world empty_state))))
                  (match last (trace (snd (Birdeye.main embedding_down_world empty_state)))
                   with
                   | Some (EvEmbed input) => input
                   | _ => []
                   end)
                  [] ltac:(vm_compute; reflexivity) eq_refl) as (_ & Hraise & Hdb).
  by split.
Defined.

(** ** Discovery is complete and returns no file twice *)

Section DiscoveryOnce.
Context `{P : Platform} (W : World).

Lemma NoDup_map_app (repo : path) (l : list path) :
  NoDup l -> NoDup (map (app repo) l).
Proof.
  induction 1 as [|x l Hx Hl IH]; cbn [map]; constructor; [|done].
  intros Hin. apply Hx. apply list_elem_of_In, List.in_map_iff in Hin as (y & Heq & Hy).
  apply app_inv_head in Heq. subst y. by apply list_elem_of_In.
Qed.

Lemma NoDup_list_filter {A} (f : A -> bool) (l : list A) :
  NoDup l -> NoDup (List.filter f l).
Proof.
  induction 1 as [|x l Hx Hl IH]; cbn [List.filter]; [constructor|].
  destruct (f x); [|done]. constructor; [|done].
  intros Hin. apply Hx. apply list_elem_of_In in Hin.
  apply List.filter_In in Hin as [Hin _]. by apply list_elem_of_In.
Qed.

Lemma NoDup_found_for (repo : path) (tree : list path) (ext : str) :
  NoDup tree -> NoDup (found_for repo tree ext).
Proof.
  intros Hnd. unfold found_for. apply NoDup_map_app.
  by do 2 apply NoDup_list_filter.
Qed.

Lemma found_for_endswith (repo : path) (tree : list path) (ext : str) (f : path) :
  In f (found_for repo tree ext) ->
  exists rel, f = repo ++ rel /\ In rel tree /\ kept rel = true /\
              endswith ext (path_name rel) = true.
Proof.
  unfold found_for. intros Hin. apply List.in_map_iff in Hin as (rel & <- & Hin).
  apply List.filter_In in Hin as [Hin Hkept].
  apply List.filter_In in Hin as [Hin Hend]. by exists rel.
Qed.

(** A name ends in its last character. *)
Lemma endswith_last (e s : str) (c : chr) (e' : str) :
  rev e = c :: e' -> endswith e s = true -> exists r, rev s = c :: r.
Proof.
  unfold endswith. intros ->. destruct (rev s) as [|d r]; cbn [startswith]; [done|].
  intros H. apply andb_true_iff in H as [H _]. apply chr_eqb_eq in H. subst d. eauto.
Qed.

(** The five extensions end in different characters, so that a name has at
    most one of them. *)
Lemma supported_extensions_exclusive (e1 e2 s : str) :
  In e1 SolanaComprehensive.supported_extensions ->
  In e2 SolanaComprehensive.supported_extensions ->
  endswith e1 s = true -> endswith e2 s = true -> e1 = e2.
Proof.
  intros H1 H2 E1 E2.
  assert (forall e, In e SolanaComprehensive.supported_extensions ->
                    exists c e', rev e = c :: e' /\
                                 (forall e0 c0 e0',
                                     In e0 SolanaComprehensive.supported_extensions ->
                                     rev e0 = c0 :: e0' -> c0 = c -> e0 = e)) as Hlast.
  { intros e He. cbn in He.
    destruct He as [<-|[<-|[<-|[<-|[<-|[]]]]]]; eexists _, _; (split; [reflexivity|]);
      intros e0 c0 e0' He0 Hrev ->; cbn in He0;
      destruct He0 as [<-|[<-|[<-|[<-|[<-|[]]]]]]; first [reflexivity | discriminate]. }
  destruct (Hlast e1 H1) as (c1 & e1' & Hr1 & Huniq).
  destruct (Hlast e2 H2) as (c2 & e2' & Hr2 & _).
  destruct (endswith_last e1 s c1 e1' Hr1 E1) as (r1 & Hs1).
  destruct (endswith_last e2 s c2 e2' Hr2 E2) as (r2 & Hs2).
  symmetry. apply (Huniq e2 c2 e2' H2 Hr2). congruence.
Qed.

Lemma NoDup_flat_map_disjoint {A B} (g : A -> list B) (l : list A) :
  NoDup l ->
  (forall x, In x l -> NoDup (g x)) ->
  (forall x y z, In x l -> In y l -> In z (g x) -> In z (g y) -> x = y) ->
  NoDup (flat_map g l).
Proof.
  induction 1 as [|x l Hx Hl IH]; intros Hg Hdis; cbn [flat_map]; [constructor|].
  apply NoDup_app. split; [apply Hg; by left|]. split.
  - intros z Hz Hz'. apply Hx.
    apply list_elem_of_In, in_flat_map in Hz' as (y & Hy & Hzy).
    apply list_elem_of_In in Hz.
    rewrite (Hdis x y z); [by apply list_elem_of_In | by left | by right | done | done].
  - apply IH; [intros; apply Hg; by right|].
    intros y1 y2 z H1 H2. apply Hdis; by right.
Qed.

Lemma discover_markdown_files_found (repo : path) (tree : list path) (st : state) :
  fs_walk W (trace st ++ [EvRglob repo (lit "*" ++ lit ".md")]) repo = tree ->
  fst (Solana.discover_markdown_files W repo st) = Ok (found_for repo tree (lit ".md")).
Proof.
  intros <-. unfold Solana.discover_markdown_files, rglob, bind, emit, ask, ret.
  cbn [trace db]. by rewrite solana_discover_loop.
Qed.

Lemma discover_extensions_found (repo : path) (tree : list path) :
  (forall tr, fs_walk W tr repo = tree) ->
  forall (todo : list str) (acc : list path) (st : state),
    fst (for_acc todo acc (SolanaComprehensive.discover_extension W repo) st)
    = Ok (acc ++ flat_map (found_for repo tree) todo).
Proof.
  intros Hstable. induction todo as [|ext todo IH]; intros acc st;
    cbn [for_acc flat_map].
  - unfold ret. cbn. by rewrite app_nil_r.
  - unfold bind at 1. unfold SolanaComprehensive.discover_extension at 1.
    unfold rglob, bind, emit, ask, ret. cbn [trace db].
    rewrite comprehensive_discover_loop, Hstable.
    fold (found_for repo tree ext). rewrite IH. by rewrite <- app_assoc.
Qed.

End DiscoveryOnce.

(** X11.  On a repository whose walk is the same each time it is asked for
    and lists no file twice, discovery returns every file of the walk with
    a wanted extension and no skip pattern in its relative path, and
    returns it once: [discover_markdown_files] in the order of the walk,
    [discover_documentation_files] extension by extension. *)
Theorem discovery_finds_each_file_once `{P : Platform} (W : World) (repo : path)
    (tree : list path) (st : state) :
  (forall tr, fs_walk W tr repo = tree) ->
  NoDup tree ->
  fst (Solana.discover_markdown_files W repo st) = Ok (found_for repo tree (lit ".md")) /\
  NoDup (found_for repo tree (lit ".md")) /\
  fst (SolanaComprehensive.discover_documentation_files W repo st)
  = Ok (flat_map (found_for repo tree) SolanaComprehensive.supported_extensions) /\
  NoDup (flat_map (found_for repo tree) SolanaComprehensive.supported_extensions).
Proof.
  intros Hstable Hnd. split; [by apply discover_markdown_files_found|].
  split; [by apply NoDup_found_for|]. split.
  - unfold SolanaComprehensive.discover_documentation_files.
    by rewrite (discover_extensions_found W repo tree Hstable).
  - apply NoDup_flat_map_disjoint.
    + unfold SolanaComprehensive.supported_extensions. cbn [map].
      repeat (constructor; [concrete_not_elem_of|]). constructor.
    + intros ext _. by apply NoDup_found_for.
    + intros e1 e2 f H1 H2 Hf1 Hf2.
      apply found_for_endswith in Hf1 as (rel1 & -> & _ & _ & E1).
      apply found_for_endswith in Hf2 as (rel2 & Heq & _ & _ & E2).
      apply app_inv_head in Heq. subst rel2.
      by apply (supported_extensions_exclusive e1 e2 (path_name rel1)).
Qed.

Lemma discovery_finds_each_file_once_witness :
  fst (Solana.discover_markdown_files demo_world [lit "solana-agave"] empty_state)
  = Ok [[lit "solana-agave"; lit "README.md"];
        [lit "solana-agave"; lit "docs"; lit "intro.md"];
        [lit "solana-agave"; lit "docs"; lit "blank.md"]].
Proof.
  assert (NoDup demo_tree) as Hnd.
  { unfold demo_tree. repeat (constructor; [concrete_not_elem_of|]). constructor. }
  exact (proj1 (discovery_finds_each_file_once demo_world [lit "solana-agave"]
                  demo_tree empty_state (fun _ => eq_refl) Hnd)).
Defined.

(** ** [validate_migration.py] *)

Section GroupFacts.
Context {K : Type} (eqb : K -> K -> bool).
Hypothesis eqb_eq : forall a b, eqb a b = true <-> a = b.

Lemma eqb_same (k : K) : eqb k k = true.
Proof using eqb_eq. by apply eqb_eq. Qed.

Lemma eqb_swap (a b : K) : eqb a b = eqb b a.
Proof using eqb_eq.
  destruct (eqb a b) eqn:E1, (eqb b a) eqn:E2; try done.
  - apply eqb_eq in E1. subst. by rewrite eqb_same in E2.
  - apply eqb_eq in E2. subst. by rewrite eqb_same in E1.
Qed.

Lemma count_of_bump (k k' : K) (groups : list (K * nat)) :
  Validate.count_of eqb k' (Validate.bump eqb k groups)
  = Validate.count_of eqb k' groups + (if eqb k' k then 1 else 0).
Proof using eqb_eq.
  unfold Validate.count_of. induction groups as [|[k0 n0] groups IH];
    cbn [Validate.bump find fst snd].
  - rewrite (eqb_swap k k'). by destruct (eqb k' k).
  - destruct (eqb k0 k) eqn:E; cbn [find fst snd].
    + apply eqb_eq in E. subst k0. rewrite (eqb_swap k k').
      destruct (eqb k' k); cbn [snd]; lia.
    + destruct (eqb k0 k') eqn:E'; [|exact IH].
      apply eqb_eq in E'. subst k0. rewrite E. cbn [snd]. lia.
Qed.

Lemma count_of_group_count (k : K) (keys : list K) :
  Validate.count_of eqb k (Validate.group_count eqb keys) = Validate.occurrences eqb k keys.
Proof using eqb_eq.
  unfold Validate.occurrences. induction keys as [|k0 keys IH];
    cbn [Validate.group_count List.filter]; [done|].
  rewrite count_of_bump, IH. destruct (eqb k k0); cbn [length]; lia.
Qed.

Lemma bump_keys (k : K) (groups : list (K * nat)) :
  map fst (Validate.bump eqb k groups)
  = if existsb (fun g => eqb (fst g) k) groups
    then map fst groups else map fst groups ++ [k].
Proof.
  induction groups as [|[k0 n0] groups IH]; cbn [Validate.bump existsb map fst app];
    [done|].
  destruct (eqb k0 k); cbn [orb map fst]; [done|].
  rewrite IH. by destruct (existsb _ groups).
Qed.

Lemma group_count_keys_NoDup (keys : list K) :
  NoDup (map fst (Validate.group_count eqb keys)).
Proof using eqb_eq.
  induction keys as [|k keys IH]; cbn [Validate.group_count map]; [constructor|].
  rewrite bump_keys. destruct (existsb _ _) eqn:E; [done|].
  apply NoDup_app. split; [done|]. split; [|repeat constructor; by intros ?%elem_of_nil].
  intros k' Hin Hk. apply list_elem_of_singleton in Hk. subst k'.
  apply list_elem_of_In, List.in_map_iff in Hin as (g & Hg & Hin).
  assert (existsb (fun g => eqb (fst g) k) (Validate.group_count eqb keys) = true)
    as Ht; [|congruence].
  apply existsb_exists. exists g. split; [done|]. rewrite Hg. apply eqb_same.
Qed.

Lemma count_of_in (g : K * nat) (groups : list (K * nat)) :
  NoDup (map fst groups) -> In g groups -> Validate.count_of eqb (fst g) groups = snd g.
Proof using eqb_eq.
  unfold Validate.count_of. induction groups as [|g0 groups IH]; cbn [map find]; [done|].
  intros Hnd [->|Hin]; [by rewrite eqb_same|].
  apply NoDup_cons in Hnd as [Hnotin Hnd].
  destruct (eqb (fst g0) (fst g)) eqn:E; [|by apply IH].
  apply eqb_eq in E. exfalso. apply Hnotin. rewrite E.
  apply list_elem_of_In, List.in_map. exact Hin.
Qed.

(** A group of [group_count] has the size of its key's occurrences ... *)
Lemma group_count_in (g : K * nat) (keys : list K) :
  In g (Validate.group_count eqb keys) -> snd g = Validate.occurrences eqb (fst g) keys.
Proof using eqb_eq.
  intros Hin. rewrite <- count_of_group_count. symmetry.
  apply count_of_in; [apply group_count_keys_NoDup | exact Hin].
Qed.

Lemma occurrences_in (k : K) (keys : list K) : In k keys -> 0 < Validate.occurrences eqb k keys.
Proof using eqb_eq.
  unfold Validate.occurrences. induction keys as [|k0 keys IH]; cbn [List.filter]; [done|].
  intros [->|Hin]; [rewrite eqb_same; cbn; lia|].
  destruct (eqb k k0); cbn [length]; [lia | by apply IH].
Qed.

Lemma occurrences_pos (k : K) (keys : list K) : 0 < Validate.occurrences eqb k keys -> In k keys.
Proof using eqb_eq.
  unfold Validate.occurrences. induction keys as [|k0 keys IH]; cbn [List.filter length]; [lia|].
  destruct (eqb k k0) eqn:E; [apply eqb_eq in E; by left|].
  intros H. right. by apply IH.
Qed.

(** ... and every key has its group. *)
Lemma group_count_has (k : K) (keys : list K) :
  In k keys -> In (k, Validate.occurrences eqb k keys) (Validate.group_count eqb keys).
Proof using eqb_eq.
  intros Hin. apply occurrences_in in Hin. rewrite <- count_of_group_count in *.
  unfold Validate.count_of in *.
  destruct (find _ _) as [g|] eqn:E; [|lia].
  apply find_some in E as [Hg Heq]. apply eqb_eq in Heq. subst k.
  by destruct g.
Qed.

Lemma NoDup_occurrences (keys : list K) :
  NoDup keys <-> forall k, In k keys -> Validate.occurrences eqb k keys <= 1.
Proof using eqb_eq.
  induction keys as [|k0 keys IH].
  - split; [by intros _ k [] | constructor].
  - rewrite NoDup_cons, IH. unfold Validate.occurrences. split.
    + intros [Hnotin Hall] k Hin. cbn [List.filter].
      destruct (eqb k k0) eqn:E.
      * apply eqb_eq in E. subst k0. cbn [length].
        destruct (length (List.filter (eqb k) keys)) eqn:El; [lia|].
        exfalso. apply Hnotin, list_elem_of_In, occurrences_pos.
        unfold Validate.occurrences. lia.
      * destruct Hin as [->|Hin]; [by rewrite eqb_same in E | by apply Hall].
    + intros Hall. split.
      * intros Hin%list_elem_of_In. apply occurrences_in in Hin.
        specialize (Hall k0 (or_introl eq_refl)). cbn [List.filter] in Hall.
        rewrite eqb_same in Hall. cbn [length] in Hall. unfold Validate.occurrences in Hin. lia.
      * intros k Hin. specialize (Hall k (or_intror Hin)). cbn [List.filter] in Hall.
        destruct (eqb k k0); cbn [length] in Hall; lia.
Qed.

Lemma bump_sum (k : K) (groups : list (K * nat)) :
  list_sum (map snd (Validate.bump eqb k groups)) = S (list_sum (map snd groups)).
Proof.
  induction groups as [|[k0 n0] groups IH]; cbn [Validate.bump fst snd]; [done|].
  destruct (eqb k0 k); cbn [map snd]; [done|].
  change (n0 + list_sum (map snd (Validate.bump eqb k groups))
          = S (n0 + list_sum (map snd groups))).
  rewrite IH. lia.
Qed.

Lemma group_count_sum (keys : list K) :
  list_sum (map snd (Validate.group_count eqb keys)) = length keys.
Proof.
  induction keys as [|k keys IH]; cbn [Validate.group_count length]; [done|].
  by rewrite bump_sum, IH.
Qed.

Lemma insert_desc_in (g h : K * nat) (sorted : list (K * nat)) :
  In h (Validate.insert_desc g sorted) <-> h = g \/ In h sorted.
Proof.
  induction sorted as [|s sorted IH]; cbn [Validate.insert_desc].
  - cbn. split; [intros [<-|[]]; by left | intros [->|[]]; by left].
  - destruct (snd s <? snd g); cbn [In]; [split; intros [H|H]; auto|].
    rewrite IH. tauto.
Qed.

Lemma order_by_count_desc_in (h : K * nat) (groups : list (K * nat)) :
  In h (Validate.order_by_count_desc groups) <-> In h groups.
Proof.
  unfold Validate.order_by_count_desc.
  induction groups as [|g groups IH]; cbn [fold_right In]; [done|].
  rewrite insert_desc_in, IH. split; intros [H|H]; auto.
Qed.

Lemma insert_desc_sum (g : K * nat) (sorted : list (K * nat)) :
  list_sum (map snd (Validate.insert_desc g sorted))
  = snd g + list_sum (map snd sorted).
Proof.
  induction sorted as [|s sorted IH]; cbn [Validate.insert_desc]; [cbn; lia|].
  destruct (snd s <? snd g); cbn [map]; [done|].
  change (snd s + list_sum (map snd (Validate.insert_desc g sorted))
          = snd g + (snd s + list_sum (map snd sorted))).
  rewrite IH. lia.
Qed.

Lemma order_by_count_desc_sum (groups : list (K * nat)) :
  list_sum (map snd (Validate.order_by_count_desc groups))
  = list_sum (map snd groups).
Proof.
  unfold Validate.order_by_count_desc.
  induction groups as [|g groups IH]; cbn [fold_right map]; [done|].
  rewrite insert_desc_sum, IH. reflexivity.
Qed.

Lemma bump_positive (k : K) (groups : list (K * nat)) :
  List.Forall (fun g => 0 < snd g) groups ->
  List.Forall (fun g => 0 < snd g) (Validate.bump eqb k groups).
Proof.
  induction 1 as [|g groups Hg Hall IH]; cbn [Validate.bump].
  - repeat constructor.
  - destruct (eqb (fst g) k); constructor; cbn [snd]; try done. lia.
Qed.

Lemma group_count_positive (keys : list K) :
  List.Forall (fun g => 0 < snd g) (Validate.group_count eqb keys).
Proof.
  induction keys as [|k keys IH]; cbn [Validate.group_count]; [constructor|].
  by apply bump_positive.
Qed.

End GroupFacts.

Section ValidateFacts.
Context `{P : Platform}.

Lemma occurrences_doc_type (ty : str) (t : list doc_row) :
  Validate.occurrences str_eqb ty (map doc_type t)
  = length (List.filter (fun r => str_eqb ty (doc_type r)) t).
Proof.
  unfold Validate.occurrences. induction t as [|r t IH]; cbn [map List.filter]; [done|].
  destruct (str_eqb ty (doc_type r)); cbn [length]; by rewrite IH.
Qed.

Lemma insert_desc_counts {K} (g : K * nat) (sorted : list (K * nat)) (n : nat) :
  List.Forall (fun m => m <= n) (map snd sorted) -> snd g <= n ->
  List.Forall (fun m => m <= n) (map snd (Validate.insert_desc g sorted)).
Proof.
  induction sorted as [|s sorted IH]; cbn [Validate.insert_desc map].
  - intros _ Hg. by repeat constructor.
  - intros Hall Hg. inversion Hall as [|? ? Hs Hrest]; subst.
    destruct (snd s <? snd g); cbn [map]; repeat constructor; auto.
Qed.

Lemma insert_desc_sorted {K} (g : K * nat) (sorted : list (K * nat)) :
  Validate.largest_first (map snd sorted) ->
  Validate.largest_first (map snd (Validate.insert_desc g sorted)).
Proof.
  induction sorted as [|s sorted IH]; cbn [Validate.insert_desc map Validate.largest_first].
  - intros _. by repeat constructor.
  - intros [Hall Hsorted]. destruct (snd s <? snd g) eqn:E;
      cbn [map Validate.largest_first].
    + apply Nat.ltb_lt in E. split; [|by split].
      constructor; [lia|]. eapply List.Forall_impl; [|exact Hall].
      cbn beta. intros a Ha. lia.
    + apply Nat.ltb_ge in E. split; [|by apply IH].
      by apply insert_desc_counts.
Qed.

Lemma order_by_count_desc_sorted {K} (groups : list (K * nat)) :
  Validate.largest_first (map snd (Validate.order_by_count_desc groups)).
Proof.
  unfold Validate.order_by_count_desc.
  induction groups as [|g groups IH]; cbn [fold_right]; [done|].
  by apply insert_desc_sorted.
Qed.

Lemma insert_desc_keys_NoDup {K} (g : K * nat) (sorted : list (K * nat)) :
  NoDup (map fst (g :: sorted)) -> NoDup (map fst (Validate.insert_desc g sorted)).
Proof.
  induction sorted as [|s sorted IH]; cbn [Validate.insert_desc]; [done|].
  destruct (snd s <? snd g); [done|]. cbn [map]. intros Hnd.
  apply NoDup_cons in Hnd as [Hg Hnd]. apply NoDup_cons in Hnd as [Hs Hnd].
  apply not_elem_of_cons in Hg as [Hne Hg].
  apply NoDup_cons. split.
  - intros Hin. apply list_elem_of_In, List.in_map_iff in Hin as (h & Hh & Hin).
    apply insert_desc_in in Hin as [->|Hin]; [congruence|].
    apply Hs. rewrite <- Hh. by apply list_elem_of_In, List.in_map.
  - apply IH. cbn [map]. by apply NoDup_cons.
Qed.

Lemma order_by_count_desc_keys_NoDup {K} (groups : list (K * nat)) :
  NoDup (map fst groups) -> NoDup (map fst (Validate.order_by_count_desc groups)).
Proof.
  unfold Validate.order_by_count_desc.
  induction groups as [|g groups IH]; cbn [fold_right map]; [done|].
  intros Hnd. apply NoDup_cons in Hnd as [Hg Hnd].
  apply insert_desc_keys_NoDup. cbn [map]. apply NoDup_cons. split; [|by apply IH].
  intros Hin. apply Hg.
  apply list_elem_of_In, List.in_map_iff in Hin as (h & Hh & Hin).
  change (In h (Validate.order_by_count_desc groups)) in Hin.
  apply (proj1 (order_by_count_desc_in h groups)) in Hin. rewrite <- Hh.
  by apply list_elem_of_In, List.in_map.
Qed.

End ValidateFacts.

(** X12.  The duplicate check of [validate_migration.py] reports nothing
    exactly when no two rows of the documents table share
    [(doc_type, source_name, doc_path)]; so it reports nothing after any
    sequence of store operations of the four scripts on a table that had no
    duplicates. *)
Theorem validator_finds_no_duplicates `{P : Platform} (W : World)
    (ops : list store_op) (st : state) :
  (forall t, Validate.duplicates t = [] <-> unique_keys t) /\
  (unique_keys (documents (db st)) ->
   Validate.duplicates (documents (db (run_stores W ops st))) = []).
Proof.
  assert (forall t, Validate.duplicates t = [] <-> unique_keys t) as Hiff.
  { intros t. unfold Validate.duplicates, unique_keys.
    rewrite (NoDup_occurrences key_eqb key_eqb_eq). split.
    - intros Hnone k Hin.
      pose proof (group_count_has key_eqb key_eqb_eq k _ Hin) as Hg.
      destruct (1 <? Validate.occurrences key_eqb k (map key_of_row t)) eqn:E;
        [|by apply Nat.ltb_ge in E].
      assert (In (k, Validate.occurrences key_eqb k (map key_of_row t))
                 (List.filter (fun g => 1 <? snd g)
                    (Validate.group_count key_eqb (map key_of_row t)))) as Hdup
        by (apply List.filter_In; by split).
      rewrite Hnone in Hdup. destruct Hdup.
    - intros Hall.
      destruct (List.filter _ _) as [|g l] eqn:E; [done|]. exfalso.
      assert (In g (g :: l)) as Hin by (by left). rewrite <- E in Hin.
      apply List.filter_In in Hin as [Hin Hgt]. apply Nat.ltb_lt in Hgt.
      pose proof (group_count_in key_eqb key_eqb_eq g _ Hin) as Hsize.
      assert (In (fst g) (map key_of_row t)) as Hkey.
      { apply (occurrences_pos key_eqb key_eqb_eq). lia. }
      specialize (Hall _ Hkey). lia. }
  split; [exact Hiff|]. intros Hnd. apply Hiff.
  destruct (run_stores_run W ops st) as (steps & ->).
  by apply run_steps_unique_keys.
Qed.

Lemma validator_finds_no_duplicates_witness :
  Validate.duplicates
    (documents (db (run_stores demo_world
       [SolanaStoreDocuments [demo_solana_doc; demo_solana_doc] [[1%Z]; [2%Z]];
        BirdeyeStoreEndpoints [demo_endpoint] [[5%Z]]]
       empty_state)))
  = [].
Proof.
  apply (validator_finds_no_duplicates demo_world). constructor.
Defined.

(** X13.  The count by type of [validate_migration.py]: the total it
    prints is the number of rows of the documents table; every [doc_type]
    of the table has one line, with the number of rows of that type; the
    lines come largest first; and there is no line exactly when the table
    is empty. *)
Theorem validator_counts_rows `{P : Platform} (t : list doc_row) :
  Validate.total_docs t = length t /\
  (forall ty n,
      In (ty, n) (Validate.doc_counts t) ->
      0 < n /\ n = length (List.filter (fun r => str_eqb ty (doc_type r)) t)) /\
  (forall r, In r t -> exists n, In (doc_type r, n) (Validate.doc_counts t)) /\
  NoDup (map fst (Validate.doc_counts t)) /\
  Validate.largest_first (map snd (Validate.doc_counts t)) /\
  (Validate.doc_counts t = [] <-> t = []).
Proof.
  assert (Validate.total_docs t = length t) as Htotal.
  { unfold Validate.total_docs, Validate.doc_counts.
    by rewrite order_by_count_desc_sum, group_count_sum, length_map. }
  assert (forall r, In r t -> exists n, In (doc_type r, n) (Validate.doc_counts t))
    as Hhas.
  { intros r Hr. exists (Validate.occurrences str_eqb (doc_type r) (map doc_type t)).
    unfold Validate.doc_counts. apply order_by_count_desc_in.
    apply (group_count_has str_eqb str_eqb_eq). by apply List.in_map. }
  split; [exact Htotal|]. split; [|split; [exact Hhas|split; [|split]]].
  - intros ty n Hin. unfold Validate.doc_counts in Hin.
    apply (proj1 (order_by_count_desc_in _ _)) in Hin.
    pose proof (group_count_in str_eqb str_eqb_eq _ _ Hin) as Hsize.
    pose proof (group_count_positive str_eqb (map doc_type t)) as Hpos.
    eapply List.Forall_forall in Hpos; [|exact Hin].
    cbn [fst snd] in *. subst n. by rewrite <- occurrences_doc_type.
  - unfold Validate.doc_counts. apply order_by_count_desc_keys_NoDup.
    apply (group_count_keys_NoDup str_eqb str_eqb_eq).
  - apply order_by_count_desc_sorted.
  - split.
    + intros Hnone. destruct t as [|r t]; [done|].
      destruct (Hhas r (or_introl eq_refl)) as (n & Hn). rewrite Hnone in Hn.
      destruct Hn.
    + by intros ->.
Qed.

Lemma validator_counts_rows_witness :
  Validate.total_docs
    (documents (db (run_stores demo_world
       [SolanaStoreDocuments [demo_solana_doc; demo_solana_doc] [[1%Z]; [2%Z]];
        BirdeyeStoreEndpoints [demo_endpoint] [[5%Z]]]
       empty_state)))
  = 2.
Proof.
  rewrite (proj1 (validator_counts_rows _)). reflexivity.
Defined.

(** ** [ingest_solana.py]: titles *)

Section TitleFacts.

Lemma strip_empty_all_space (s : str) :
  strip s = [] -> Forall (fun c => is_space c = true) s.
Proof.
  intros Hs. destruct (lstrip_split s) as (w1 & H1 & Hw1).
  destruct (rstrip_split (lstrip s)) as (w2 & H2 & Hw2).
  unfold strip in Hs. rewrite Hs in H2. cbn [app] in H2.
  rewrite H1, H2. by apply Forall_app.
Qed.


(** What follows a marker that ends in a space, on a line without white
    space at its end, is not blank. *)
Lemma header_text_not_blank (m rest : str) :
  rstrip (m ++ (chr_of " "%char) :: rest) = m ++ (chr_of " "%char) :: rest -> strip rest <> [].
Proof.
  intros Hfix Hblank. apply strip_empty_all_space in Hblank.
  unfold rstrip in Hfix. apply (f_equal (@rev chr)) in Hfix.
  rewrite rev_involutive in Hfix. apply lstrip_fixed in Hfix.
  rewrite rev_app_distr in Hfix. cbn [rev] in Hfix. rewrite <- !app_assoc in Hfix.
  destruct (rev rest) as [|c r] eqn:E; cbn [app] in Hfix; [done|].
  assert (In c rest) as Hin by (apply in_rev; rewrite E; by left).
  apply list_elem_of_In in Hin.
  rewrite Forall_forall in Hblank. rewrite (Hblank c Hin) in Hfix. done.
Qed.

Lemma header_title_find (marker : str) (n : nat) (lines : list str) :
  SolanaDocProcessor.header_title marker n lines
  = option_map (fun line => strip (skipn n (strip line)))
               (find (fun line => startswith marker (strip line)) lines).
Proof.
  induction lines as [|line lines IH]; cbn [SolanaDocProcessor.header_title find];
    [done|].
  destruct (startswith marker (strip line)); [done | exact IH].
Qed.

Lemma header_text (m : str) (line : str) :
  startswith (m ++ lit " ") (strip line) = true ->
  strip (skipn (length (m ++ lit " ")) (strip line)) <> [].
Proof.
  intros Hstart. apply startswith_app in Hstart.
  apply (header_text_not_blank m).
  destruct (strip_stripped line) as [_ Hr].
  rewrite Hstart in Hr at 1 2. rewrite <- app_assoc in Hr. exact Hr.
Qed.

End TitleFacts.

(** X14.  [extract_title_from_content] of [ingest_solana.py] takes the
    title from the first level-one header of the text, also when a
    level-two header comes before it; without one, from the first
    level-two header; without either, from the file name.  A title taken
    from a header is never empty and has no white space around it. *)
Theorem extract_title_from_header (content : str) (file_path : path) :
  let lines := split NL (strip content) in
  let title := SolanaDocProcessor.extract_title_from_content content file_path in
  match find (fun line => startswith (lit "# ") (strip line)) lines with
  | Some line => title = strip (skipn 2 (strip line)) /\ title <> []
  | None =>
      match find (fun line => startswith (lit "## ") (strip line)) lines with
      | Some line => title = strip (skipn 3 (strip line)) /\ title <> []
      | None => title = SolanaDocProcessor.filename_title file_path
      end
  end /\
  ((exists line, In line lines /\
                 (startswith (lit "# ") (strip line) = true \/
                  startswith (lit "## ") (strip line) = true)) ->
   title <> [] /\ strip title = title).
Proof.
  intros lines title.
  assert (match find (fun line => startswith (lit "# ") (strip line)) lines with
          | Some line => title = strip (skipn 2 (strip line)) /\ title <> []
          | None =>
              match find (fun line => startswith (lit "## ") (strip line)) lines with
              | Some line => title = strip (skipn 3 (strip line)) /\ title <> []
              | None => title = SolanaDocProcessor.filename_title file_path
              end
          end) as Hcases.
  { subst title. unfold SolanaDocProcessor.extract_title_from_content.
    fold lines. rewrite !header_title_find.
    destruct (find (fun line => startswith (lit "# ") (strip line)) lines)
      as [l1|] eqn:E1; cbn [option_map].
    - split; [done|]. apply find_some in E1 as [_ E1].
      exact (header_text (lit "#") l1 E1).
    - destruct (find (fun line => startswith (lit "## ") (strip line)) lines)
        as [l2|] eqn:E2; cbn [option_map]; [|done].
      split; [done|]. apply find_some in E2 as [_ E2].
      exact (header_text (lit "##") l2 E2). }
  split; [exact Hcases|].
  intros (line & Hin & Hhead).
  destruct (find (fun line => startswith (lit "# ") (strip line)) lines)
    as [l1|] eqn:E1.
  { destruct Hcases as [-> Hne]. split; [done|].
    destruct (strip_stripped (skipn 2 (strip l1))) as [Hl Hr].
    unfold strip at 1. by rewrite Hl. }
  destruct (find (fun line => startswith (lit "## ") (strip line)) lines)
    as [l2|] eqn:E2.
  { destruct Hcases as [-> Hne]. split; [done|].
    destruct (strip_stripped (skipn 3 (strip l2))) as [Hl Hr].
    unfold strip at 1. by rewrite Hl. }
  exfalso. destruct Hhead as [Hh|Hh].
  - by rewrite (find_none _ _ E1 line Hin) in Hh.
  - by rewrite (find_none _ _ E2 line Hin) in Hh.
Qed.

Lemma extract_title_from_header_witness :
  SolanaDocProcessor.extract_title_from_content
    (lit "## Setup" ++ NL ++ lit "   #  Validator guide  " ++ NL ++ lit "text")
    [lit "docs"; lit "guide.md"]
  = lit "Validator guide".
Proof.
  destruct (extract_title_from_header
              (lit "## Setup" ++ NL ++ lit "   #  Validator guide  " ++ NL ++ lit "text")
              [lit "docs"; lit "guide.md"]) as [Hcases _].
  exact (proj1 Hcases).
Defined.

(** ** Categories *)

Section CategoryFacts.

Lemma join_split_slash (s : str) : join SLASH (split SLASH s) = s.
Proof.
  change (replace [chr_of "/"%char] [chr_of "/"%char] s = s). rewrite replace_char.
  induction s as [|c s IH]; [done|]. cbn [map]. rewrite IH. f_equal.
  destruct (chr_eqb (chr_of "/"%char) c) eqn:E; [by apply chr_eqb_eq in E | done].
Qed.

Lemma join_dots (components : list str) :
  Forall (fun c => c = [] \/ c = lit ".") components ->
  Forall dot_or_slash (join SLASH components).
Proof.
  assert (forall c : str, c = [] \/ c = lit "." -> Forall dot_or_slash c) as Hone.
  { intros c [->| ->]; [constructor|]. constructor; [by left | constructor]. }
  induction 1 as [|c components Hc Hall IH]; [constructor|].
  destruct components as [|c' components].
  - cbn [join]. by apply Hone.
  - rewrite join_cons by done. apply Forall_app. split; [by apply Hone|].
    apply Forall_app. split; [|exact IH]. constructor; [by right | constructor].
Qed.

(** A path without parts is made of dots and slashes. *)
Lemma path_parts_nil (s : str) : path_parts s = [] -> Forall dot_or_slash s.
Proof.
  unfold path_parts, path_components. intros Hparts.
  destruct (startswith (lit "//") s && negb (startswith (lit "///") s)); [done|].
  destruct (startswith SLASH s); [done|].
  rewrite <- (join_split_slash s). apply join_dots.
  apply Forall_forall. intros c Hc. apply list_elem_of_In in Hc.
  destruct (str_eqb c [] || str_eqb c (lit ".")) eqn:E.
  - apply orb_true_iff in E as [E|E]; apply str_eqb_eq in E; auto.
  - exfalso.
    assert (In c (List.filter (fun c => negb (str_eqb c [] || str_eqb c (lit ".")))
                              (split SLASH s))) as Hin
      by (apply List.filter_In; split; [done | by rewrite E]).
    by rewrite Hparts in Hin.
Qed.

End CategoryFacts.

(** X15.  [categorize_document] of [ingest_solana.py] never returns an
    empty category, and the only paths on which it raises are made of
    dots and slashes, such as [./].  [categorize_document] of
    [ingest_solana_comprehensive.py] gives the same answer for every file
    type other than [bob], [msc] and [pdf], and never raises for these
    three. *)
Theorem categorize_document_total (relative_path : str) :
  (forall category,
      SolanaDocProcessor.categorize_document relative_path = Ok category ->
      category <> []) /\
  (forall e,
      SolanaDocProcessor.categorize_document relative_path = Raise e ->
      e = Exception "IndexError" /\ Forall dot_or_slash relative_path) /\
  (forall file_type,
      (if str_eqb file_type (lit "bob") || str_eqb file_type (lit "msc")
          || str_eqb file_type (lit "pdf")
       then exists category,
           ComprehensiveSolanaProcessor.categorize_document relative_path file_type
           = Ok category /\ category <> []
       else ComprehensiveSolanaProcessor.categorize_document relative_path file_type
            = SolanaDocProcessor.categorize_document relative_path)).
Proof.
  split; [|split].
  - intros category. unfold SolanaDocProcessor.categorize_document.
    repeat (match goal with
            | |- context [if ?b then _ else _] => destruct b
            end);
      try (intros [= <-]; discriminate).
    destruct (path_parts relative_path); [discriminate | intros [= <-]; discriminate].
  - intros e. unfold SolanaDocProcessor.categorize_document.
    repeat (match goal with
            | |- context [if ?b then _ else _] => destruct b
            end);
      try discriminate.
    destruct (path_parts relative_path) eqn:E; [|discriminate].
    intros [= <-]. split; [done|]. by apply path_parts_nil.
  - intros file_type.
    unfold ComprehensiveSolanaProcessor.categorize_document,
      SolanaDocProcessor.categorize_document.
    destruct (str_eqb file_type (lit "bob")); cbn [orb]; [by eexists|].
    destruct (str_eqb file_type (lit "msc")); cbn [orb]; [by eexists|].
    destruct (str_eqb file_type (lit "pdf")); [|done].
    destruct (contains (lit "zk-docs") _); by eexists.
Qed.

Lemma categorize_document_total_witness :
  SolanaDocProcessor.categorize_document (lit "./") = Raise (Exception "IndexError") /\
  Forall dot_or_slash (lit "./").
Proof.
  split; [reflexivity|].
  destruct (categorize_document_total (lit "./")) as (_ & Hraise & _).
  exact (proj2 (Hraise _ eq_refl)).
Defined.

(** ** The embedding phase *)

Section EmbeddingLoop.
Context `{P : Platform} (W : World).

Lemma generate_embedding_run (text : str) (st : state) :
  generate_embedding W text st
  = (match embeddings_create W (trace st ++ [EvEmbed (truncate_text text)])
                             (truncate_text text) with
     | Some v => Ok v
     | None => Raise (Exception "EmbeddingError")
     end,
     {| trace := trace st ++ [EvEmbed (truncate_text text)]; db := db st |}).
Proof.
  unfold generate_embedding, bind, emit, ask, ret, raise. cbn [trace db].
  by destruct (embeddings_create W _ _).
Qed.

(** An embedding loop: a request for the text of each item, then the calls
    of [pause], and the answer appended to the list. *)
Lemma embedding_loop {A} (text : A -> str) (pause : list event)
    (body : list (list Float) -> A -> M (list (list Float))) :
  (forall acc x st,
      body acc x st
      = match generate_embedding W (text x) st with
        | (Ok e, st1) =>
            (Ok (acc ++ [e]), {| trace := trace st1 ++ pause; db := db st1 |})
        | (Raise ex, st1) => (Raise ex, st1)
        end) ->
  forall items acc st embeddings st',
    for_acc items acc body st = (Ok embeddings, st') ->
    exists answers,
      embeddings = acc ++ answers /\
      Forall2 (fun x e => answer_for W (text x) e) items answers /\
      trace st' = trace st ++ embedding_requests pause (map text items) /\
      db st' = db st.
Proof.
  intros Hbody. induction items as [|x items IH]; intros acc st embeddings st';
    cbn [for_acc].
  - unfold ret. intros [= <- <-]. exists []. rewrite !app_nil_r.
    by repeat split; [constructor|..].
  - intros Hrun. apply bind_ok in Hrun as (acc1 & st1 & Hstep & Hrest).
    rewrite Hbody, generate_embedding_run in Hstep.
    destruct (embeddings_create W _ _) as [e|] eqn:Hanswer; [|discriminate].
    injection Hstep as <- <-.
    destruct (IH _ _ _ _ Hrest) as (answers & -> & Hall & Htrace & Hdb).
    exists (e :: answers). rewrite <- app_assoc. split; [done|]. split.
    + constructor; [by exists (trace st) | done].
    + cbn [trace db] in *. split; [|done].
      rewrite Htrace. cbn [map embedding_requests flat_map app].
      by rewrite <- !app_assoc.
Qed.

End EmbeddingLoop.

(** X16.  When the embedding loop of a script returns, it has one
    embedding for each document, in the order of the documents, and the
    embedding of a document is what the API answered for its content,
    truncated; the requests were sent in that order, each followed in
    [ingest_birdeye.py] by a pause of one second.  So the [zip] of the
    store operation pairs every document with its own embedding and drops
    none. *)
Theorem embeddings_match_documents `{P : Platform} (W : World) :
  (forall endpoints st embeddings st',
      for_acc endpoints [] (Birdeye.embed_step W) st = (Ok embeddings, st') ->
      Forall2 (fun e v => answer_for W (Birdeye.content e) v) endpoints embeddings /\
      trace st' = trace st ++ embedding_requests [EvSleep 1]
                                (map Birdeye.content endpoints) /\
      db st' = db st) /\
  (forall endpoints st embeddings st',
      for_acc endpoints [] (BirdeyeSimple.embed_step W) st = (Ok embeddings, st') ->
      Forall2 (fun e v => answer_for W (BirdeyeSimple.content e) v)
              endpoints embeddings /\
      trace st' = trace st ++ embedding_requests []
                                (map BirdeyeSimple.content endpoints) /\
      db st' = db st) /\
  (forall documents st embeddings st',
      for_acc documents [] (Solana.embed_step W) st = (Ok embeddings, st') ->
      Forall2 (fun d v => answer_for W (Solana.content d) v) documents embeddings /\
      trace st' = trace st ++ embedding_requests [] (map Solana.content documents) /\
      db st' = db st) /\
  (forall documents st embeddings st',
      for_acc documents [] (SolanaComprehensive.embed_step W) st
      = (Ok embeddings, st') ->
      Forall2 (fun d v => answer_for W (SolanaComprehensive.content d) v)
              documents embeddings /\
      trace st' = trace st ++ embedding_requests []
                                (map SolanaComprehensive.content documents) /\
      db st' = db st).
Proof.
  assert (forall st1 : state,
             {| trace := trace st1 ++ []; db := db st1 |} = st1) as Hsame.
  { intros [tr d]. cbn. by rewrite app_nil_r. }
  split; [|split; [|split]].
  - intros endpoints st embeddings st' Hrun.
    destruct (embedding_loop W Birdeye.content [EvSleep 1] (Birdeye.embed_step W))
      with (items := endpoints) (acc := @nil (list Float)) (st := st)
           (embeddings := embeddings) (st' := st')
      as (answers & -> & Hall & Htrace & Hdb); [|done|done].
    intros acc x st0. unfold Birdeye.embed_step, bind.
    by destruct (generate_embedding W _ st0) as [[e|ex] st1].
  - intros endpoints st embeddings st' Hrun.
    destruct (embedding_loop W BirdeyeSimple.content [] (BirdeyeSimple.embed_step W))
      with (items := endpoints) (acc := @nil (list Float)) (st := st)
           (embeddings := embeddings) (st' := st')
      as (answers & -> & Hall & Htrace & Hdb); [|done|done].
    intros acc x st0. unfold BirdeyeSimple.embed_step, bind.
    destruct (generate_embedding W _ st0) as [[e|ex] st1]; [|done].
    unfold ret. by rewrite Hsame.
  - intros documents st embeddings st' Hrun.
    destruct (embedding_loop W Solana.content [] (Solana.embed_step W))
      with (items := documents) (acc := @nil (list Float)) (st := st)
           (embeddings := embeddings) (st' := st')
      as (answers & -> & Hall & Htrace & Hdb); [|done|done].
    intros acc x st0. unfold Solana.embed_step, bind.
    destruct (generate_embedding W _ st0) as [[e|ex] st1]; [|done].
    unfold ret. by rewrite Hsame.
  - intros documents st embeddings st' Hrun.
    destruct (embedding_loop W SolanaComprehensive.content []
                (SolanaComprehensive.embed_step W))
      with (items := documents) (acc := @nil (list Float)) (st := st)
           (embeddings := embeddings) (st' := st')
      as (answers & -> & Hall & Htrace & Hdb); [|done|done].
    intros acc x st0. unfold SolanaComprehensive.embed_step, bind.
    destruct (generate_embedding W _ st0) as [[e|ex] st1]; [|done].
    unfold ret. by rewrite Hsame.
Qed.

Lemma embeddings_match_documents_witness :
  Forall2 (fun d v => answer_for demo_world (Solana.content d) v)
          [demo_solana_doc; demo_solana_doc]
          (match fst (for_acc [demo_solana_doc; demo_solana_doc] []
                        (Solana.embed_step demo_world) empty_state) with
           | Ok embeddings => embeddings
           | Raise _ => []
           end).
Proof.
  destruct (embeddings_match_documents demo_world) as (_ & _ & Hsolana & _).
  exact (proj1 (Hsolana [demo_solana_doc; demo_solana_doc] empty_state _ _ eq_refl)).
Defined.

(** ** What a store operation that returns has written *)

Section StoreComplete.
Context `{P : Platform} (W : World).

Lemma final_step_in (steps : list (pg_env * doc_values)) (k : doc_key)
    (s : pg_env * doc_values) :
  final_step steps k = Some s -> In s steps /\ key_of_values (snd s) = k.
Proof.
  induction steps as [|s0 steps IH]; cbn [final_step]; [discriminate|].
  destruct (final_step steps k) as [s'|].
  - intros [= ->]. destruct (IH eq_refl) as [Hin Hk]. split; [by right | done].
  - destruct (key_eqb k (key_of_values (snd s0))) eqn:E; [|discriminate].
    intros [= <-]. apply key_eqb_eq in E. split; [by left | done].
Qed.

Lemma final_step_exists (steps : list (pg_env * doc_values))
    (s : pg_env * doc_values) :
  In s steps -> exists s', final_step steps (key_of_values (snd s)) = Some s'.
Proof.
  induction steps as [|s0 steps IH]; [done|]. cbn [final_step].
  intros [->|Hin].
  - destruct (final_step steps _); [eauto|]. rewrite key_eqb_refl. eauto.
  - destruct (IH Hin) as (s' & ->). eauto.
Qed.

Lemma Forall2_in_l {A B} (R : A -> B -> Prop) (l : list A) (k : list B) (a : A) :
  Forall2 R l k -> In a l -> exists b, In b k /\ R a b.
Proof.
  induction 1 as [|x y l k Hxy Hall IH]; [done|].
  intros [->|Hin]; [exists y; split; [by left | done]|].
  destruct (IH Hin) as (b & Hb & HR). exists b. split; [by right | done].
Qed.

Lemma Forall2_in_r {A B} (R : A -> B -> Prop) (l : list A) (k : list B) (b : B) :
  Forall2 R l k -> In b k -> exists a, In a l /\ R a b.
Proof.
  induction 1 as [|x y l k Hxy Hall IH]; [done|].
  intros [->|Hin]; [exists x; split; [by left | done]|].
  destruct (IH Hin) as (a & Ha & HR). exists a. split; [by right | done].
Qed.

Lemma lookup_apply_combine {A B} (l : list (A -> B)) (k : list A) (i : nat)
    (d : A -> B) :
  l !! i = Some d ->
  map (fun de => fst de (snd de)) (combine l k) !! i
  = match k !! i with Some e => Some (d e) | None => None end.
Proof.
  revert k i. induction l as [|f l IH]; intros k i; [done|].
  destruct k as [|e k]; [by destruct i|].
  destruct i as [|i]; cbn; [by intros [= ->] | apply IH].
Qed.

Lemma combine_map_l {A B C} (f : A -> B) (l : list A) (k : list C) :
  combine (map f l) k = map (fun p => (f (fst p), snd p)) (combine l k).
Proof.
  revert k. induction l as [|x l IH]; intros k; [done|].
  destruct k as [|y k]; [done|]. cbn. by rewrite IH.
Qed.

(** The values of an operation: its documents paired with its embeddings,
    as far as both reach. *)
Lemma op_values_zip (op : store_op) :
  op_values W op
  = map (fun de => fst de (snd de)) (combine (op_documents W op) (op_embeddings op)).
Proof.
  destruct op; cbn [op_values op_documents op_embeddings]; [done|..];
    by rewrite combine_map_l, map_map.
Qed.

Lemma op_values_length (op : store_op) :
  length (op_values W op)
  = Nat.min (length (op_documents W op)) (length (op_embeddings op)).
Proof. by rewrite op_values_zip, length_map, length_combine. Qed.

End StoreComplete.

(** X17.  A store operation pairs the documents it is given with the
    embeddings it is given, as far as both lists reach, and executes one
    statement for each pair, in order.  If it returns, every document
    that has an embedding has a row with its key in the documents table,
    and the payload of that row is that of the last document of the
    operation written under this key; a document beyond the last embedding
    is passed over without a statement and without an error.  So with no
    fewer embeddings than documents, as [main] builds them, every
    document given has been written. *)
Theorem store_writes_every_document `{P : Platform} (W : World) (op : store_op)
    (st : state) :
  fst (run_store W op st) = Ok tt ->
  exists steps,
    documents (db (snd (run_store W op st))) = run_steps steps (documents (db st)) /\
    map (fun s => Ok (snd s)) steps = op_values W op /\
    length steps
    = Nat.min (length (op_documents W op)) (length (op_embeddings op)) /\
    (forall i d,
        op_documents W op !! i = Some d ->
        match op_embeddings op !! i with
        | None => steps !! i = None
        | Some embedding =>
            exists s r last,
              steps !! i = Some s /\
              d embedding = Ok (snd s) /\
              In r (documents (db (snd (run_store W op st)))) /\
              key_of_row r = key_of_values (snd s) /\
              final_step steps (key_of_values (snd s)) = Some last /\
              In last steps /\
              payload_is (snd last) r
        end) /\
    (length (op_documents W op) <= length (op_embeddings op) ->
     forall i d,
       op_documents W op !! i = Some d ->
       exists embedding v r,
         op_embeddings op !! i = Some embedding /\
         d embedding = Ok v /\
         In r (documents (db (snd (run_store W op st)))) /\
         key_of_row r = key_of_values v) /\
    forall v,
      In (Ok v) (op_values W op) ->
      exists r last,
        In r (documents (db (snd (run_store W op st)))) /\
        key_of_row r = key_of_values v /\
        final_step steps (key_of_values v) = Some last /\
        In (Ok (snd last)) (op_values W op) /\
        key_of_values (snd last) = key_of_values v /\
        payload_is (snd last) r.
Proof.
  intros Hok. destruct (run_store_run W op st) as (steps & Hrun & Hall).
  specialize (Hall Hok). exists steps. split; [exact Hrun|].
  assert (map (fun s => Ok (snd s)) steps = op_values W op) as Hvalues.
  { clear -Hall. induction Hall as [|o s l k Hos Hall IH]; [done|].
    cbn [map]. by rewrite IH, Hos. }
  split; [exact Hvalues|].
  assert (length steps
          = Nat.min (length (op_documents W op)) (length (op_embeddings op))) as Hlen.
  { rewrite <- op_values_length, <- Hvalues. by rewrite length_map. }
  split; [exact Hlen|].
  assert (forall s, In s steps ->
            exists r last,
              In r (documents (db (snd (run_store W op st)))) /\
              key_of_row r = key_of_values (snd s) /\
              final_step steps (key_of_values (snd s)) = Some last /\
              In last steps /\
              key_of_values (snd last) = key_of_values (snd s) /\
              payload_is (snd last) r) as Hrow.
  { intros s Hs.
    pose proof (keys_run_steps_cover steps (documents (db st)) s
                  (proj2 (list_elem_of_In _ _) Hs)) as Hkey.
    apply list_elem_of_In, List.in_map_iff in Hkey as (r & Hr & Hin).
    destruct (final_step_exists steps s Hs) as (last & Hlast).
    destruct (final_step_in steps _ last Hlast) as [Hlast_in Hlast_key].
    exists r, last. rewrite Hrun. do 5 (split; [done|]).
    apply (run_steps_payload steps (documents (db st)) r last Hin). by rewrite Hr. }
  assert (forall i d,
            op_documents W op !! i = Some d ->
            match op_embeddings op !! i with
            | None => steps !! i = None
            | Some embedding =>
                exists s r last,
                  steps !! i = Some s /\
                  d embedding = Ok (snd s) /\
                  In r (documents (db (snd (run_store W op st)))) /\
                  key_of_row r = key_of_values (snd s) /\
                  final_step steps (key_of_values (snd s)) = Some last /\
                  In last steps /\
                  payload_is (snd last) r
            end) as Heach.
  { intros i d Hd.
    pose proof (lookup_apply_combine _ (op_embeddings op) i d Hd) as Hv.
    rewrite <- op_values_zip in Hv.
    destruct (op_embeddings op !! i) as [embedding|] eqn:He.
    - destruct (Forall2_lookup_l _ _ _ _ _ Hall Hv) as (s & Hs & Heq).
      assert (In s steps) as Hin
        by (apply list_elem_of_In; by eapply list_elem_of_lookup_2).
      destruct (Hrow s Hin) as (r & last & Hr & Hk & Hlast & Hlin & _ & Hpay).
      exists s, r, last. by repeat (split; [done|]).
    - apply lookup_ge_None. apply lookup_ge_None in He. lia. }
  split; [exact Heach|]. split.
  - intros Hle i d Hd. specialize (Heach i d Hd).
    destruct (op_embeddings op !! i) as [embedding|] eqn:He.
    + destruct Heach as (s & r & last & _ & Hv & Hr & Hk & _).
      exists embedding, (snd s), r. by repeat (split; [done|]).
    + apply lookup_ge_None in He. apply lookup_lt_Some in Hd. lia.
  - intros v Hv.
    destruct (Forall2_in_l _ _ _ _ Hall Hv) as (s & Hs & Heq).
    injection Heq as ->.
    destruct (Hrow s Hs) as (r & last & Hr & Hk & Hlast & Hlin & Hlk & Hpay).
    exists r, last. do 3 (split; [done|]). split; [|by split].
    rewrite <- Hvalues. apply List.in_map_iff. by exists last.
Qed.

Lemma store_writes_every_document_witness :
  let op := SolanaStoreDocuments [demo_solana_doc; demo_solana_readme]
              [([1%Z] : list (@Float demo_platform))] in
  exists steps r,
    documents (db (snd (run_store demo_world op empty_state))) = run_steps steps [] /\
    length steps = 1 /\
    steps !! 1 = None /\
    In r (documents (db (snd (run_store demo_world op empty_state)))) /\
    content r = Solana.content demo_solana_doc.
Proof.
  intros op.
  destruct (store_writes_every_document demo_world op empty_state eq_refl)
    as (steps & Hrun & _ & Hlen & Heach & _).
  pose proof (Heach 0 _ eq_refl) as (s & r & last & Hs & Hv & Hr & _ & _ & Hlast & Hpay).
  pose proof (Heach 1 _ eq_refl) as Hnone. cbn in Hnone.
  exists steps, r. split; [exact Hrun|]. split; [exact Hlen|]. split; [exact Hnone|].
  split; [exact Hr|].
  destruct steps as [|s0 [|s1 steps]]; [done| |done].
  destruct Hlast as [<-|[]]. injection Hs as ->. injection Hv as Hv.
  rewrite <- Hv in Hpay. exact (proj1 Hpay).
Defined.

(** Two documents and one embedding: one row. *)
Example store_passes_over_surplus_documents :
  map doc_path
      (documents (db (snd (run_store demo_world
         (SolanaStoreDocuments [demo_solana_doc; demo_solana_readme]
            [([1%Z] : list (@Float demo_platform))])
         empty_state))))
  = [lit "docs/intro.md"].
Proof. reflexivity. Qed.

(** ** A run that returns has stored what it processed *)

Section RunComplete.
Context `{P : Platform} (W : World).

Lemma Forall2_combine_l {A B} (R : A -> B -> Prop) (l : list A) (k : list B) (a : A) :
  Forall2 R l k -> In a l -> exists b, In (a, b) (combine l k).
Proof.
  induction 1 as [|x y l k Hxy Hall IH]; [done|]. cbn [combine].
  intros [->|Hin]; [exists y; by left|].
  destruct (IH Hin) as (b & Hb). exists b. by right.
Qed.

Lemma Forall2_combine_in {A B} (R : A -> B -> Prop) (l : list A) (k : list B)
    (a : A) (b : B) :
  Forall2 R l k -> In (a, b) (combine l k) -> In a l /\ R a b.
Proof.
  induction 1 as [|x y l k Hxy Hall IH]; [done|]. cbn [combine].
  intros [[= -> ->]|Hin]; [split; [by left | done]|].
  destruct (IH Hin) as [Ha HR]. split; [by right | done].
Qed.

(** The store operation of the simple script and of the two Solana
    scripts, on documents and the embeddings the loop returned for them. *)
Lemma batch_stores_aligned {A} (text : A -> str) (values : A -> list Float -> doc_values)
    (items : list A) (embeddings : list (list Float)) (st : state) :
  let m := (let* _ := connect W in
            let* _ := register_vector W in
            try_finally
              (for_each (combine items embeddings)
                 (fun p => execute W (SqlUpsertDocument (values (fst p) (snd p)))))
              close) in
  Forall2 (fun x e => answer_for W (text x) e) items embeddings ->
  fst (m st) = Ok tt ->
  forall x, In x items ->
    exists r x' e e',
      In r (documents (db (snd (m st)))) /\
      key_of_row r = key_of_values (values x e) /\
      In x' items /\
      key_of_values (values x' e') = key_of_values (values x e) /\
      payload_is (values x' e') r /\
      answer_for W (text x') e'.
Proof.
  intros m Haligned Hok x Hx.
  destruct (batch_store_run W (fun p => Ok (values (fst p) (snd p)))
              (fun p => execute W (SqlUpsertDocument (values (fst p) (snd p))))
              (combine items embeddings) st ltac:(done))
    as (steps & Hrun & Hall).
  fold m in Hrun, Hall. specialize (Hall Hok).
  destruct (Forall2_combine_l _ _ _ _ Haligned Hx) as (e & Hxe).
  assert (In (Ok (values x e))
             (map (fun p : A * list Float => Ok (values (fst p) (snd p)))
                  (combine items embeddings))) as Hv
    by (apply List.in_map_iff; by exists (x, e)).
  destruct (Forall2_in_l _ _ _ _ Hall Hv) as (s & Hs & Heq).
  injection Heq as Heq.
  pose proof (keys_run_steps_cover steps (documents (db st)) s
                (proj2 (list_elem_of_In _ _) Hs)) as Hkey.
  apply list_elem_of_In, List.in_map_iff in Hkey as (r & Hr & Hin).
  destruct (final_step_exists steps s Hs) as (last & Hlast).
  destruct (final_step_in steps _ last Hlast) as [Hlast_in Hlast_key].
  destruct (Forall2_in_r _ _ _ _ Hall Hlast_in) as (o & Ho & Hlast_eq).
  apply List.in_map_iff in Ho as ([x' e'] & <- & Hpair). cbn [fst snd] in Hlast_eq.
  injection Hlast_eq as Hlast_eq.
  destruct (Forall2_combine_in _ _ _ _ _ Haligned Hpair) as [Hx' Hanswer].
  exists r, x', e, e'. rewrite Hrun.
  split; [exact Hin|]. split; [by rewrite Hr, Heq|]. split; [exact Hx'|].
  split; [by rewrite Hlast_eq, Hlast_key, Heq|]. split; [|exact Hanswer].
  rewrite Hlast_eq.
  apply (run_steps_payload steps (documents (db st)) r last Hin). by rewrite Hr.
Qed.

End RunComplete.

(** X18.  When [main] of a Solana script returns, every document it
    processed is in the documents table: there is a row under
    [solana] / [Solana Agave] with the relative path of the document, and
    that row holds the content of a processed document with this path,
    its length over four as token count, and as embedding what the API
    answered for that very content. *)
Theorem solana_runs_store_what_they_process `{P : Platform} (W : World)
    (H1 : Solana.Heuristics) (H2 : SolanaComprehensive.Heuristics) (st : state) :
  (fst (Solana.main W H1 st) = Ok tt ->
   exists docs st1,
     Solana.process_all_files W H1 Solana.default_repo_path st = (Ok docs, st1) /\
     forall d, In d docs ->
       exists r d',
         In r (documents (db (snd (Solana.main W H1 st)))) /\
         key_of_row r = (lit "solana", lit "Solana Agave", Solana.relative_path d) /\
         In d' docs /\
         Solana.relative_path d' = Solana.relative_path d /\
         content r = Solana.content d' /\
         token_count r = length (Solana.content d') / 4 /\
         answer_for W (Solana.content d') (embedding r)) /\
  (fst (SolanaComprehensive.main W H2 st) = Ok tt ->
   exists docs st1,
     SolanaComprehensive.process_all_files W H2 SolanaComprehensive.default_repo_path st
     = (Ok docs, st1) /\
     forall d, In d docs ->
       exists r d',
         In r (documents (db (snd (SolanaComprehensive.main W H2 st)))) /\
         key_of_row r
         = (lit "solana", lit "Solana Agave", SolanaComprehensive.relative_path d) /\
         In d' docs /\
         SolanaComprehensive.relative_path d' = SolanaComprehensive.relative_path d /\
         content r = SolanaComprehensive.content d' /\
         token_count r = length (SolanaComprehensive.content d') / 4 /\
         answer_for W (SolanaComprehensive.content d') (embedding r)).
Proof.
  assert (forall st1 : state,
             {| trace := trace st1 ++ []; db := db st1 |} = st1) as Hsame.
  { intros [tr d]. cbn. by rewrite app_nil_r. }
  split.
  - remember (Solana.main W H1 st) as res eqn:Hres. unfold Solana.main in Hres.
    repeat (match type of Hres with
            | context [if negb ?b then _ else _] =>
                destruct (negb b); [subst res; discriminate|]
            end).
    unfold bind at 1 in Hres.
    destruct (Solana.process_all_files W H1 Solana.default_repo_path st)
      as [[docs|e] st1]; [|subst res; discriminate].
    intros Hok. exists docs, st1. split; [done|].
    destruct docs as [|d0 ds]; [by intros d []|].
    set (docs := d0 :: ds) in *. clearbody docs.
    unfold bind at 1 in Hres.
    destruct (for_acc docs [] (Solana.embed_step W) st1) as [[embs|e] st2] eqn:Hemb;
      [|subst res; discriminate].
    destruct (embedding_loop W Solana.content [] (Solana.embed_step W))
      with (items := docs) (acc := @nil (list Float)) (st := st1)
           (embeddings := embs) (st' := st2)
      as (answers & Heq & Haligned & _ & _); [|done|].
    { intros acc x st0. unfold Solana.embed_step, bind.
      destruct (generate_embedding W _ st0) as [[e|ex] s1]; [|done].
      unfold ret. by rewrite Hsame. }
    cbn [app] in Heq. subst answers. subst res.
    intros d Hd.
    destruct (batch_stores_aligned W Solana.content (Solana.document_values W)
                docs embs st2 Haligned Hok d Hd)
      as (r & d' & e & e' & Hin & Hkey & Hd' & Hsame_key & Hpayload & Hanswer).
    exists r, d'. split; [exact Hin|]. split; [exact Hkey|]. split; [exact Hd'|].
    destruct Hpayload as (Hc & _ & He & Ht). cbn in Hc, He, Ht.
    split; [by injection Hsame_key|]. split; [exact Hc|]. split; [exact Ht|].
    by rewrite He.
  - remember (SolanaComprehensive.main W H2 st) as res eqn:Hres. unfold SolanaComprehensive.main in Hres.
    repeat (match type of Hres with
            | context [if negb ?b then _ else _] =>
                destruct (negb b); [subst res; discriminate|]
            end).
    unfold bind at 1 in Hres.
    destruct (SolanaComprehensive.process_all_files W H2 SolanaComprehensive.default_repo_path st)
      as [[docs|e] st1]; [|subst res; discriminate].
    intros Hok. exists docs, st1. split; [done|].
    destruct docs as [|d0 ds]; [by intros d []|].
    set (docs := d0 :: ds) in *. clearbody docs.
    unfold bind at 1 in Hres.
    destruct (for_acc docs [] (SolanaComprehensive.embed_step W) st1) as [[embs|e] st2] eqn:Hemb;
      [|subst res; discriminate].
    destruct (embedding_loop W SolanaComprehensive.content [] (SolanaComprehensive.embed_step W))
      with (items := docs) (acc := @nil (list Float)) (st := st1)
           (embeddings := embs) (st' := st2)
      as (answers & Heq & Haligned & _ & _); [|done|].
    { intros acc x st0. unfold SolanaComprehensive.embed_step, bind.
      destruct (generate_embedding W _ st0) as [[e|ex] s1]; [|done].
      unfold ret. by rewrite Hsame. }
    cbn [app] in Heq. subst answers. subst res.
    intros d Hd.
    destruct (batch_stores_aligned W SolanaComprehensive.content (SolanaComprehensive.document_values W)
                docs embs st2 Haligned Hok d Hd)
      as (r & d' & e & e' & Hin & Hkey & Hd' & Hsame_key & Hpayload & Hanswer).
    exists r, d'. split; [exact Hin|]. split; [exact Hkey|]. split; [exact Hd'|].
    destruct Hpayload as (Hc & _ & He & Ht). cbn in Hc, He, Ht.
    split; [by injection Hsame_key|]. split; [exact Hc|]. split; [exact Ht|].
    by rewrite He.
Qed.

Lemma solana_runs_store_what_they_process_witness :
  exists r,
    In r (documents (db (snd (Solana.main demo_world demo_heuristics empty_state)))) /\
    key_of_row r = (lit "solana", lit "Solana Agave", lit "docs/intro.md").
Proof.
  destruct (proj1 (solana_runs_store_what_they_process demo_world demo_heuristics
                     demo_comprehensive_heuristics empty_state) eq_refl)
    as (docs & st1 & Hproc & Hall).
  vm_compute in Hproc. injection Hproc as <- <-.
  destruct (Hall _ (or_intror (or_introl eq_refl))) as (r & d' & Hin & Hkey & _).
  exists r. split; [exact Hin | exact Hkey].
Defined.

(** ** Endpoints that share a row *)

Section SharedRows.
Context `{P : Platform} (W : World).


End SharedRows.



(** ** Operations and rows in [ingest_birdeye_simple.py] *)

Section SimpleRows.
Context `{P : Platform} (W : World).



End SimpleRows.



(** Stored one after the other, the two endpoints leave one row, that of
    the second. *)
Example two_cases_share_one_row :
  map (fun r => (doc_path r, embedding r))
      (documents (db (snd (run_store demo_world
         (SimpleStoreEndpoints
            (match fst (BirdeyeSimple.extract_endpoints_from_spec demo_world
                          demo_spec_two_cases empty_state) with
             | Ok endpoints => endpoints
             | Raise _ => []
             end)
            [([1%Z] : list (@Float demo_platform)); [2%Z]])
         empty_state))))
  = [(lit "GET /defi/price", [2%Z])].
Proof. vm_compute. reflexivity. Qed.

(** ** Processing reads every discovered file once *)

Section ProcessFacts.
Context `{P : Platform} (W : World).

Lemma process_markdown_file_run (H : Solana.Heuristics) (repo rel : path)
    (st : state) :
  exists o,
    Solana.process_markdown_file W H repo (repo ++ rel) st
    = (Ok o, {| trace := trace st ++ [EvReadText (repo ++ rel)]; db := db st |}) /\
    (forall d, o = Some d -> Solana.file_path d = repo ++ rel) /\
    markdown_gives_document W (trace st ++ [EvReadText (repo ++ rel)]) (repo ++ rel)
    = match o with Some _ => true | None => false end.
Proof.
  unfold Solana.process_markdown_file, Solana.process_markdown_body, read_file,
    markdown_gives_document, blank.
  unfold try_except, bind, lift, ask, emit, ret, raise. cbn [trace db].
  rewrite (proj2 (relative_to_app (repo ++ rel) repo rel) eq_refl).
  destruct (read_text W _ _) as [raw|]; [|by exists None].
  destruct (strip raw); [by exists None|].
  eexists (Some _). split; [reflexivity|]. split; [by intros d [= <-] | done].
Qed.

Lemma process_documentation_file_run (H : SolanaComprehensive.Heuristics)
    (repo rel : path) (st : state) :
  exists o,
    SolanaComprehensive.process_documentation_file W H repo (repo ++ rel) st
    = (Ok o, {| trace := trace st ++ [read_event (repo ++ rel)]; db := db st |}) /\
    (forall d, o = Some d -> SolanaComprehensive.file_path d = repo ++ rel) /\
    documentation_gives_document W (trace st ++ [read_event (repo ++ rel)]) (repo ++ rel)
    = match o with Some _ => true | None => false end.
Proof.
  unfold SolanaComprehensive.process_documentation_file,
    SolanaComprehensive.process_documentation_body, read_file, read_file_size,
    read_event, documentation_gives_document, markdown_gives_document, blank.
  unfold try_except, bind, lift, ask, emit, ret, raise. cbn [trace db].
  rewrite (proj2 (relative_to_app (repo ++ rel) repo rel) eq_refl).
  destruct (str_eqb (SolanaComprehensive.file_extension_of (repo ++ rel)) (lit "pdf")).
  - destruct (read_bytes_len W _ _) as [n|]; [|by exists None].
    eexists (Some _). split; [reflexivity|]. split; [by intros d [= <-] | done].
  - destruct (read_text W _ _) as [raw|]; [|by exists None].
    destruct (strip raw); [by exists None|].
    eexists (Some _). split; [reflexivity|]. split; [by intros d [= <-] | done].
Qed.

(** A processing loop over files under the repository. *)
Lemma process_loop {D : Type} (file_path : D -> path) (read : path -> event)
    (gives : list event -> path -> bool)
    (repo : path) (step : list D -> path -> M (list D))
    (process : path -> M (option D)) :
  (forall acc f,
      step acc f
      = (let* _ := lift (relative_to f repo) in
         let* doc := process f in
         match doc with
         | Some d => ret (acc ++ [d])
         | None => ret acc
         end)) ->
  (forall rel st,
      exists o,
        process (repo ++ rel) st
        = (Ok o, {| trace := trace st ++ [read (repo ++ rel)]; db := db st |}) /\
        (forall d, o = Some d -> file_path d = repo ++ rel) /\
        gives (trace st ++ [read (repo ++ rel)]) (repo ++ rel)
        = match o with Some _ => true | None => false end) ->
  forall rels acc st,
    exists docs,
      for_acc (map (app repo) rels) acc step st
      = (Ok (acc ++ docs),
         {| trace := trace st ++ map read (map (app repo) rels); db := db st |}) /\
      map file_path docs
      = files_with_documents gives read (trace st) (map (app repo) rels) /\
      sublist (map file_path docs) (map (app repo) rels).
Proof.
  intros Hstep Hprocess. induction rels as [|rel rels IH]; intros acc st;
    cbn [map for_acc files_with_documents].
  - exists []. unfold ret. rewrite !app_nil_r.
    split; [by destruct st|]. split; [done | constructor].
  - unfold bind at 1. rewrite Hstep. unfold bind at 1, lift at 1.
    rewrite (proj2 (relative_to_app (repo ++ rel) repo rel) eq_refl).
    unfold bind at 1.
    destruct (Hprocess rel st) as (o & -> & Hpath & ->).
    destruct o as [d|]; unfold ret at 1.
    + destruct (IH (acc ++ [d])
                   {| trace := trace st ++ [read (repo ++ rel)]; db := db st |})
        as (docs & -> & Hfiles & Hsub).
      exists (d :: docs). cbn [trace db map] in *. rewrite <- !app_assoc.
      split; [done|]. rewrite (Hpath d eq_refl). split; [|by constructor].
      cbn [app]. by rewrite Hfiles.
    + destruct (IH acc {| trace := trace st ++ [read (repo ++ rel)]; db := db st |})
        as (docs & -> & Hfiles & Hsub).
      exists docs. cbn [trace db] in *. rewrite <- !app_assoc. split; [done|].
      split; [exact Hfiles | by constructor].
Qed.

Lemma discover_markdown_files_state (repo : path) (st : state) :
  exists rels,
    Solana.discover_markdown_files W repo st
    = (Ok (map (app repo) rels),
       {| trace := trace st ++ [EvRglob repo (lit "*" ++ lit ".md")]; db := db st |}).
Proof.
  unfold Solana.discover_markdown_files, rglob, bind, emit, ask, ret.
  cbn [trace db]. rewrite solana_discover_loop. cbn [app]. by eexists.
Qed.

Lemma discover_extensions_state (repo : path) (todo : list str) :
  forall rels st,
    exists rels',
      for_acc todo (map (app repo) rels)
              (SolanaComprehensive.discover_extension W repo) st
      = (Ok (map (app repo) rels'),
         {| trace := trace st ++ map (fun ext => EvRglob repo (lit "*" ++ ext)) todo;
            db := db st |}).
Proof.
  induction todo as [|ext todo IH]; intros rels st; cbn [for_acc map].
  - exists rels. unfold ret. rewrite app_nil_r. by destruct st.
  - unfold bind at 1. unfold SolanaComprehensive.discover_extension at 1.
    unfold rglob, bind, emit, ask, ret. cbn [trace db].
    rewrite comprehensive_discover_loop, <- map_app.
    match goal with
    | |- context [for_acc todo (map (app repo) ?r) _ ?s] =>
        destruct (IH r s) as (rels' & ->)
    end.
    exists rels'. cbn [trace db]. by rewrite <- app_assoc.
Qed.

End ProcessFacts.

(** X21.  [process_all_files] of both Solana scripts always returns.  It
    reads every discovered file once, in the order of discovery, after
    the searches, and the database is not touched.  A file gives one
    document, with its path, if it can be read and is not blank (for a
    PDF: if it can be read), and no document otherwise: a file that
    cannot be read, or holds white space only, is passed over and does
    not stop the others.  The documents come out in the order of their
    files. *)
Theorem process_all_files_reads_each_file_once `{P : Platform} (W : World)
    (H1 : Solana.Heuristics) (H2 : SolanaComprehensive.Heuristics) (repo : path)
    (st : state) :
  (exists files docs,
      fst (Solana.discover_markdown_files W repo st) = Ok files /\
      Solana.process_all_files W H1 repo st
      = (Ok docs,
         {| trace := trace st ++ EvRglob repo (lit "*.md") :: map EvReadText files;
            db := db st |}) /\
      map Solana.file_path docs
      = files_with_documents (markdown_gives_document W) EvReadText
          (trace st ++ [EvRglob repo (lit "*.md")]) files /\
      sublist (map Solana.file_path docs) files) /\
  (exists files docs,
      fst (SolanaComprehensive.discover_documentation_files W repo st) = Ok files /\
      SolanaComprehensive.process_all_files W H2 repo st
      = (Ok docs,
         {| trace := trace st
                     ++ map (fun ext => EvRglob repo (lit "*" ++ ext))
                            SolanaComprehensive.supported_extensions
                     ++ map read_event files;
            db := db st |}) /\
      map SolanaComprehensive.file_path docs
      = files_with_documents (documentation_gives_document W) read_event
          (trace st ++ map (fun ext => EvRglob repo (lit "*" ++ ext))
                           SolanaComprehensive.supported_extensions) files /\
      sublist (map SolanaComprehensive.file_path docs) files).
Proof.
  split.
  - destruct (discover_markdown_files_state W repo st) as (rels & Hfiles).
    destruct (process_loop Solana.file_path EvReadText (markdown_gives_document W) repo
                (Solana.process_step W H1 repo)
                (Solana.process_markdown_file W H1 repo)
                ltac:(reflexivity)
                (process_markdown_file_run W H1 repo) rels []
                {| trace := trace st ++ [EvRglob repo (lit "*" ++ lit ".md")];
                   db := db st |})
      as (docs & Hrun & Hgives & Hsub).
    exists (map (app repo) rels), docs. rewrite Hfiles. split; [done|].
    split; [|split; [exact Hgives | exact Hsub]].
    unfold Solana.process_all_files, bind. rewrite Hfiles. cbv beta iota.
    etrans; [exact Hrun|]. cbn [trace db app].
    by rewrite <- app_assoc.
  - destruct (discover_extensions_state W repo SolanaComprehensive.supported_extensions
                [] st) as (rels & Hfiles).
    destruct (process_loop SolanaComprehensive.file_path read_event
                (documentation_gives_document W) repo
                (SolanaComprehensive.process_step W H2 repo)
                (SolanaComprehensive.process_documentation_file W H2 repo)
                ltac:(reflexivity)
                (process_documentation_file_run W H2 repo) rels []
                {| trace := trace st
                            ++ map (fun ext => EvRglob repo (lit "*" ++ ext))
                                   SolanaComprehensive.supported_extensions;
                   db := db st |})
      as (docs & Hrun & Hgives & Hsub).
    assert (SolanaComprehensive.discover_documentation_files W repo st
            = (Ok (map (app repo) rels),
               {| trace := trace st
                           ++ map (fun ext => EvRglob repo (lit "*" ++ ext))
                                  SolanaComprehensive.supported_extensions;
                  db := db st |})) as Hdisc by exact Hfiles.
    exists (map (app repo) rels), docs. rewrite Hdisc. split; [done|].
    split; [|split; [exact Hgives | exact Hsub]].
    unfold SolanaComprehensive.process_all_files, bind. rewrite Hdisc. cbv beta iota.
    etrans; [exact Hrun|]. cbn [trace db app]. by rewrite <- app_assoc.
Qed.

Lemma process_all_files_reads_each_file_once_witness :
  map Solana.file_path
      (match fst (Solana.process_all_files demo_world demo_heuristics
                    [lit "solana-agave"] empty_state) with
       | Ok docs => docs
       | Raise _ => []
       end)
  = [[lit "solana-agave"; lit "README.md"];
     [lit "solana-agave"; lit "docs"; lit "intro.md"]].
Proof.
  destruct (proj1 (process_all_files_reads_each_file_once demo_world demo_heuristics
                     demo_comprehensive_heuristics [lit "solana-agave"] empty_state))
    as (files & docs & Hfiles & Hrun & Hgives & _).
  rewrite Hrun. cbn [fst]. rewrite Hgives.
  vm_compute in Hfiles. injection Hfiles as <-. reflexivity.
Defined.

(** The demo repository: [docs/blank.md] holds white space only and gives
    no document. *)
Example blank_file_gives_no_document :
  @files_with_documents demo_platform (markdown_gives_document demo_world) EvReadText []
    [[lit "solana-agave"; lit "README.md"];
     [lit "solana-agave"; lit "docs"; lit "blank.md"];
     [lit "solana-agave"; lit "docs"; lit "intro.md"]]
  = [[lit "solana-agave"; lit "README.md"];
     [lit "solana-agave"; lit "docs"; lit "intro.md"]].
Proof. reflexivity. Qed.



(** X22.  The file type [process_documentation_file] works with is the
    extension the file was discovered under, without its dot: [md],
    [mdx], [bob], [msc] or [pdf].  The one exception is a file whose whole
    name is the extension, such as [.md]: it is discovered, and its type is
    the empty string. *)
Theorem discovered_file_type `{P : Platform} (repo f : path) :
  discovered repo SolanaComprehensive.supported_extensions f ->
  exists stem ext,
    In ext SolanaComprehensive.supported_extensions /\
    path_name f = stem ++ ext /\
    SolanaComprehensive.file_extension_of f
    = match stem with [] => [] | _ :: _ => skipn 1 ext end.
Proof.
  intros (rel & ext & -> & _ & _ & Hext & Hend).
  apply endswith_suffix in Hend as (stem & Hname).
  assert (rel <> []) as Hrel.
  { intros ->. cbn in Hname. symmetry in Hname. apply app_eq_nil in Hname as [_ ->].
    cbn in Hext. by repeat destruct Hext as [Hext|Hext]. }
  exists stem, ext. split; [exact Hext|]. rewrite path_name_app by done.
  split; [exact Hname|].
  apply file_extension_of_name; [exact Hext|]. by rewrite path_name_app.
Qed.

Lemma discovered_file_type_witness :
  exists stem ext,
    In ext (@SolanaComprehensive.supported_extensions) /\
    path_name [lit "solana-agave-full"; lit "docs"; lit "spec.pdf"] = stem ++ ext /\
    @SolanaComprehensive.file_extension_of
      [lit "solana-agave-full"; lit "docs"; lit "spec.pdf"]
    = match stem with [] => [] | _ :: _ => skipn 1 ext end.
Proof.
  apply (@discovered_file_type demo_platform [lit "solana-agave-full"]).
  exists [lit "docs"; lit "spec.pdf"], (lit ".pdf").
  split; [reflexivity|]. split; [reflexivity|]. split; [reflexivity|].
  split; [|reflexivity]. cbn. auto 10.
Defined.

(** ** Cleaning by file type *)

(** X23.  [clean_content] of [ingest_solana_comprehensive.py], for every
    file type but [pdf], removes or replaces white space only, white space
    being what [str.isspace] and the class [\s] accept, and leaves none at
    the start or the end of the text; for [md] and [mdx] it is
    [clean_markdown_content] of [ingest_solana.py]. *)
Theorem clean_content_keeps_text (content file_type : str) :
  (str_eqb file_type (lit "pdf") = false ->
   visible (SolanaComprehensive.clean_content content file_type) = visible content /\
   lstrip (SolanaComprehensive.clean_content content file_type)
   = SolanaComprehensive.clean_content content file_type /\
   rstrip (SolanaComprehensive.clean_content content file_type)
   = SolanaComprehensive.clean_content content file_type) /\
  (SolanaComprehensive.is_markdown file_type = true ->
   SolanaComprehensive.clean_content content file_type
   = clean_markdown_content content).
Proof.
  split.
  - intros Hpdf. unfold SolanaComprehensive.clean_content.
    destruct (SolanaComprehensive.is_markdown file_type).
    + split; [apply visible_clean_markdown_content|].
      unfold clean_markdown_content. apply strip_stripped.
    + rewrite Hpdf.
      destruct (str_eqb file_type (lit "bob") || str_eqb file_type (lit "msc"));
        (split; [apply visible_strip | apply strip_stripped]).
  - intros Hmd. unfold SolanaComprehensive.clean_content. by rewrite Hmd.
Qed.

(** For a PDF the text names the file, as [Path.name] gives it. *)
Example clean_content_pdf :
  SolanaComprehensive.clean_content (lit "docs/spec.pdf/") (lit "pdf")
  = lit "[PDF Document: spec.pdf]" ++ NL ++ NL
    ++ lit "This is a PDF technical specification. Content requires PDF reader to view.".
Proof. reflexivity. Qed.
